(** * relenv: build environment and linux build recipes

    A shallow embedding of [relenv/buildenv.py] and [relenv/build/linux.py].
    Python dictionaries are finite maps, in-place updates are threaded through
    a small state-and-exception monad, and calls that leave the interpreter
    (subprocesses, helper functions of [relenv.common]) are recorded in a
    trace so that statements about what was or was not invoked can be made.

    The graph engine the recipes are registered with ([Builder], [builds],
    the per-step pipeline and the scheduler) lives in [relenv.build.common],
    which is not among the sources; where a statement needs it, it is
    modelled from the specification, and each such definition says so. *)

From Stdlib Require Import Ascii.
From stdpp Require Import gmap strings list fin_maps.

Open Scope string_scope.
Open Scope list_scope.

(** ** Python exceptions and the state-and-exception monad *)

Inductive exn : Type :=
| RelenvException (msg : string)
| KeyError (key : string)
| IndexError
| ValueError (msg : string)
| OtherError (msg : string)
(* error kinds of the build graph and of the per-step pipeline *)
| DuplicateStepError (name : string)
| DownloadError (url : string)
| ChecksumMismatchError (expected actual : string).

(** A computation over a mutable state [S]: it either returns a value or
    raises; the state reached so far survives a raise, as mutations of a
    Python object do. *)
Definition M (S A : Type) : Type := S → (exn + A) * S.

Definition ret {S A} (a : A) : M S A := λ s, (inr a, s).

Definition raise {S A} (e : exn) : M S A := λ s, (inl e, s).

Definition bind {S A B} (m : M S A) (k : A → M S B) : M S B :=
  λ s, match m s with
       | (inl e, s') => (inl e, s')
       | (inr a, s') => k a s'
       end.

Definition get {S} : M S S := λ s, (inr s, s).

Definition put {S} (s : S) : M S unit := λ _, (inr tt, s).

Definition modify {S} (f : S → S) : M S unit := λ s, (inr tt, f s).

(** Lift a pure fallible value. *)
Definition lift {S A} (r : exn + A) : M S A :=
  match r with inl e => raise e | inr a => ret a end.

Notation "x <~ c ;; k" := (bind c (λ x, k))
  (at level 100, c at next level, right associativity).
Notation "c ;;; k" := (bind c (λ _, k))
  (at level 100, right associativity).

(** ** [relenv/buildenv.py] *)

(** The argument [relenv_path]: [None], a [str] or a [pathlib.Path]. *)
Inductive PyArg : Type :=
| PyNone
| PyStr (s : string)
| PyPath (p : string).

(** Python truthiness: [None] and the empty string are falsy, a path object
    is always truthy. *)
Definition truthy (a : PyArg) : bool :=
  match a with
  | PyNone => false
  | PyStr s => negb (String.eqb s "")
  | PyPath _ => true
  end.

(** [f"{a}"] *)
Definition py_str (a : PyArg) : string :=
  match a with
  | PyNone => "None"
  | PyStr s => s
  | PyPath p => p
  end.

(** The part of the interpreter state [buildenv] reads: [sys.platform], the
    attribute [sys.RELENV] (absent outside a relenv environment) and
    [os.environ]. *)
Record Sys : Type := {
  sys_platform : string;
  sys_RELENV : option PyArg;
  os_environ : gmap string string;
}.

(** [pathlib]'s [/]: an absolute right operand replaces the left one.
    The operands are taken in the form [pathlib] prints them: not empty,
    and with no trailing slash unless they are the root; on other operands
    [pathlib] would normalise the result and this function does not. *)
Definition path_join (a b : string) : string :=
  match b with
  | String "/"%char _ => b
  | _ => a +:+ "/" +:+ b
  end.

(** The value returned by [work_dirs()]; [buildenv] reads [toolchain]. *)
Record WorkDirs : Type := { wd_toolchain : string }.

(** Calls that [buildenv] makes, in program order. *)
Inductive Call : Type :=
| CallIsRelenv
| CallWorkDirs
| CallGetTriplet.

Global Instance Call_eq_dec : EqDecision Call.
Proof. solve_decision. Defined.

Definition MACOS_KEY : string := "MACOS_DEVELOPMENT_TARGET".

Section Buildenv.
(** [work_dirs], [get_triplet] and [MACOS_DEVELOPMENT_TARGET] come from
    [relenv.common]; they are taken as given, and the two functions may
    raise. *)
Variable work_dirs_impl : Sys → exn + WorkDirs.
Variable get_triplet_impl : Sys → exn + string.
Variable MACOS_DEVELOPMENT_TARGET : string.

Variable sys : Sys.

Definition log_call (c : Call) : M (list Call) unit :=
  modify (λ t, t ++ [c]).

(** [is_relenv()]: [hasattr(sys, "RELENV")] *)
Definition is_relenv : M (list Call) bool :=
  log_call CallIsRelenv ;;;
  ret (bool_decide (is_Some (sys_RELENV sys))).

Definition work_dirs : M (list Call) WorkDirs :=
  log_call CallWorkDirs ;;; lift (work_dirs_impl sys).

Definition get_triplet : M (list Call) string :=
  log_call CallGetTriplet ;;; lift (get_triplet_impl sys).

(** [os.environ.get(k, default)] *)
Definition environ_get (k dflt : string) : string :=
  default dflt (os_environ sys !! k).

(** The dictionary display of [buildenv], keys inserted in source order. *)
Definition buildenv_dict (toolchain triplet relenv_path : string)
  : gmap string string :=
  let e : gmap string string := ∅ in
  let e := <["RELENV_BUILDENV" := "1"]> e in
  let e := <["TOOLCHAIN_PATH" := toolchain]> e in
  let e := <["TRIPLET" := triplet]> e in
  let e := <["RELENV_PATH" := relenv_path]> e in
  let e := <["CARGO_HOME" := toolchain +:+ "/cargo"]> e in
  let e := <["RUSTUP_HOME" := toolchain +:+ "/cargo/.rustup"]> e in
  let e := <["RUSTC" := toolchain +:+ "/cargo/bin/rustc"]> e in
  let e := <["RUSTFLAGS" :=
               environ_get "RUSTFLAGS" "" +:+
               "-C linker=" +:+ toolchain +:+ "/bin/" +:+ triplet +:+ "-gcc"]> e in
  let e := <["CC" := toolchain +:+ "/bin/" +:+ triplet +:+ "-gcc -no-pie"]> e in
  let e := <["CXX" := toolchain +:+ "/bin/" +:+ triplet +:+ "-g++ -no-pie"]> e in
  let e := <["CFLAGS" :=
               "-I" +:+ relenv_path +:+ "/include -fPIC " +:+
               "-I" +:+ toolchain +:+ "/sysroot/usr/include"]> e in
  let e := <["CPPFLAGS" :=
               "-I" +:+ relenv_path +:+ "/include " +:+
               "-I" +:+ toolchain +:+ "/" +:+ triplet +:+ "/sysroot/usr/include"]> e in
  let e := <["CMAKE_CFLAGS" :=
               "-I" +:+ relenv_path +:+ "/include " +:+
               "-I" +:+ toolchain +:+ "/" +:+ triplet +:+ "/sysroot/usr/include " +:+
               "-fPIC"]> e in
  let e := <["LDFLAGS" :=
               "-L" +:+ relenv_path +:+ "/lib -L" +:+ toolchain +:+ "/" +:+ triplet +:+
               "/sysroot/lib " +:+
               "-Wl,-rpath," +:+ relenv_path +:+ "/lib " +:+
               "-lzmq -lkrb5 -lgssapi"]> e in
  let e := <["PKG_CONFIG_PATH" :=
               relenv_path +:+ "/lib/pkgconfig:" +:+
               toolchain +:+ "/" +:+ triplet +:+ "/lib/pkgconfig"]> e in
  e.

(** [buildenv(relenv_path=None)] *)
Definition buildenv (relenv_path : PyArg) : M (list Call) (gmap string string) :=
  relenv_path <~
    (if negb (truthy relenv_path) then
       r <~ is_relenv ;;
       if negb r then raise (RelenvException "Not in a relenv environment")
       else
         (* [sys.RELENV], present because [hasattr] answered yes *)
         match sys_RELENV sys with
         | Some p => ret p
         | None => raise (OtherError "AttributeError")
         end
     else ret relenv_path) ;;
  if negb (String.eqb (sys_platform sys) "linux") then
    raise (RelenvException "buildenv is only supported on Linux")
  else
    dirs <~ work_dirs ;;
    triplet <~ get_triplet ;;
    triplet' <~ get_triplet ;;
    let toolchain := path_join (wd_toolchain dirs) triplet' in
    let env := buildenv_dict toolchain triplet (py_str relenv_path) in
    let env :=
      if String.eqb (sys_platform sys) "darwin"
      then <[MACOS_KEY := MACOS_DEVELOPMENT_TARGET]> env
      else env in
    ret env.
End Buildenv.

(** *** The command [relenv buildenv] *)

(** What [main] sends out: the call of [logging.basicConfig], the error
    records of the root logger, and the text given to [print]. *)
Inductive Output : Type :=
| OBasicConfig
| OLogError (msg : string)
| OPrint (text : string).

(** The state [main] works on: the calls made so far, as [buildenv] records
    them, and what has been sent out. *)
Record MainState : Type := {
  ms_calls : list Call;
  ms_out : list Output;
}.

(** [sys.exit(code)] raises [SystemExit]. *)
Definition SystemExit (code : string) : exn :=
  OtherError ("SystemExit: " +:+ code).

Definition output (o : Output) : M MainState unit :=
  modify (λ st, {| ms_calls := ms_calls st; ms_out := ms_out st ++ [o] |}).

(** A computation of [buildenv.py] run inside [main]: it works on the
    record of calls. *)
Definition calling {A} (m : M (list Call) A) : M MainState A :=
  λ st, let '(r, calls) := m (ms_calls st) in
        (r, {| ms_calls := calls; ms_out := ms_out st |}).

(** The double quote and the newline of [f'export {k}="{v}"\n']. *)
Definition dquote : string := String "034"%char "".
Definition newline : string := String "010"%char "".

Definition export_line (k v : string) : string :=
  "export " +:+ k +:+ "=" +:+ dquote +:+ v +:+ dquote +:+ newline.

(** The keys of the dictionary display of [buildenv], in source order. *)
Definition buildenv_display_keys : list string :=
  [ "RELENV_BUILDENV"; "TOOLCHAIN_PATH"; "TRIPLET"; "RELENV_PATH";
    "CARGO_HOME"; "RUSTUP_HOME"; "RUSTC"; "RUSTFLAGS"; "CC"; "CXX";
    "CFLAGS"; "CPPFLAGS"; "CMAKE_CFLAGS"; "LDFLAGS"; "PKG_CONFIG_PATH" ].

(** The keys of the dictionary of [buildenv] in the order in which they are
    inserted: those of the display, then the one of the darwin branch. *)
Definition buildenv_key_order : list string :=
  buildenv_display_keys ++ [MACOS_KEY].

(** [env.items()] for a dictionary built by [buildenv]: its entries in
    insertion order. *)
Definition items (env : gmap string string) : list (string * string) :=
  omap (λ k, pair k <$> env !! k) buildenv_key_order.

Section Main.
Variable work_dirs_impl : Sys → exn + WorkDirs.
Variable get_triplet_impl : Sys → exn + string.
Variable MACOS_DEVELOPMENT_TARGET : string.

Variable sys : Sys.

(** [main(args)]; [args] is not read. *)
Definition main : M MainState unit :=
  output OBasicConfig ;;;
  r <~ calling (is_relenv sys) ;;
  (if negb r then
     output (OLogError "Not in a relenv environment.") ;;;
     raise (SystemExit "1")
   else ret tt) ;;;
  (if negb (String.eqb (sys_platform sys) "linux") then
     output (OLogError "buildenv is only supported on Linux.")
   else ret tt) ;;;
  env <~ calling (buildenv work_dirs_impl get_triplet_impl
                    MACOS_DEVELOPMENT_TARGET sys PyNone) ;;
  let script :=
    foldl (λ script kv, script +:+ export_line kv.1 kv.2) "" (items env) in
  output (OPrint script).
End Main.

(** ** [relenv/build/linux.py]: string helpers *)

(** [str.format] for the replacement fields the recipes use: [{}], filled
    from the positional arguments in order, and [{name}], filled from the
    keyword arguments; [{{] and [}}] are literal braces.  A field that is
    neither empty nor an identifier (an index, an attribute, a conversion or
    a format specification) is outside this fragment and is reported as
    [OtherError], whatever Python does with it (it may format the field, or
    raise an error of its own); the statements below keep to templates
    inside the fragment. *)
Definition is_ident_char (c : ascii) : bool :=
  let n := nat_of_ascii c in
  (Nat.leb 65 n && Nat.leb n 90) || (Nat.leb 97 n && Nat.leb n 122) ||
  Nat.eqb n 95 || (Nat.leb 48 n && Nat.leb n 57).

Definition is_digit (c : ascii) : bool :=
  let n := nat_of_ascii c in Nat.leb 48 n && Nat.leb n 57.

Definition map_inr {A B} (f : A → B) (r : exn + A) : exn + B :=
  match r with inl e => inl e | inr a => inr (f a) end.

Fixpoint format_go (t : string) (pos : list string) (kw : gmap string string)
    (idx : nat) (field : option string) : exn + string :=
  match t with
  | EmptyString =>
      match field with
      | None => inr ""
      | Some _ => inl (ValueError "expected '}' before end of string")
      end
  | String c t' =>
      match field with
      | None =>
          if Ascii.eqb c "{" then
            match t' with
            | String "{"%char t'' => map_inr (String "{") (format_go t'' pos kw idx None)
            | _ => format_go t' pos kw idx (Some "")
            end
          else if Ascii.eqb c "}" then
            match t' with
            | String "}"%char t'' => map_inr (String "}") (format_go t'' pos kw idx None)
            | _ => inl (ValueError "Single '}' encountered in format string")
            end
          else map_inr (String c) (format_go t' pos kw idx None)
      | Some name =>
          if Ascii.eqb c "}" then
            match name with
            | EmptyString =>
                match pos !! idx with
                | Some v => map_inr (String.append v) (format_go t' pos kw (S idx) None)
                | None => inl IndexError
                end
            | String c0 _ =>
                if is_digit c0 then inl (OtherError "unsupported format field")
                else
                  match kw !! name with
                  | Some v => map_inr (String.append v) (format_go t' pos kw idx None)
                  | None => inl (KeyError name)
                  end
            end
          else if is_ident_char c then
            format_go t' pos kw idx (Some (name +:+ String c ""))
          else inl (OtherError "unsupported format field")
      end
  end.

(** [template.format( *pos, **kw )] *)
Definition format (template : string) (pos : list string) (kw : gmap string string)
  : exn + string :=
  format_go template pos kw 0 None.

(** [sep.join(parts)] *)
Definition join (sep : string) (parts : list string) : string :=
  String.concat sep parts.

(** [s.find(sub) > -1] *)
Definition str_contains (sub s : string) : bool :=
  match String.index 0 sub s with
  | Some _ => true
  | None => false
  end.

(** ** The working directories and the environment dictionary *)

(** [relenv.build.common.Dirs], with the attributes the recipes read; each
    is a path, used through its string form. *)
Record Dirs : Type := {
  toolchain : string;
  prefix : string;
  source : string;
  tmpbuild : string;
}.

Abbreviation Env := (gmap string string).

(** [env[k]] *)
Definition env_get (k : string) : M Env string :=
  λ env, match env !! k with
         | Some v => (inr v, env)
         | None => (inl (KeyError k), env)
         end.

(** [env[k] = v] *)
Definition env_set (k v : string) : M Env unit :=
  modify (λ env : Env, <[k := v]> env).

(** [populate_env(env, dirs)]: the state is the caller's dictionary. *)
Definition populate_env (dirs : Dirs) : M Env unit :=
  host <~ env_get "RELENV_HOST" ;;
  v <~ lift (format "{}/bin/{}-gcc -no-pie" [toolchain dirs; host] ∅) ;;
  env_set "CC" v ;;;
  host <~ env_get "RELENV_HOST" ;;
  v <~ lift (format "{}/bin/{}-g++ -no-pie" [toolchain dirs; host] ∅) ;;
  env_set "CXX" v ;;;
  env <~ get ;;
  v <~ lift (format "{}/bin/:{}/bin/:{PATH}" [toolchain dirs; prefix dirs] env) ;;
  env_set "PATH" v ;;;
  env <~ get ;;
  l <~ lift (format "-L{}/{RELENV_HOST}/sysroot/lib" [toolchain dirs] env) ;;
  let ldflags :=
    [ "-Wl,--build-id=sha1";
      "-Wl,--rpath={prefix}/lib";
      "-L{prefix}/lib";
      l;
      "-static-libstdc++" ] in
  v <~ lift (format (join " " ldflags) [] {[ "prefix" := prefix dirs ]}) ;;
  env_set "LDFLAGS" v ;;;
  env <~ get ;;
  i <~ lift (format "-I{}/{RELENV_HOST}/sysroot/usr/include" [toolchain dirs] env) ;;
  let cflags :=
    [ "-g";
      "-I{prefix}/include";
      "-I{prefix}/include/readline";
      "-I{prefix}/include/ncursesw";
      i ] in
  v <~ lift (format (join " " cflags) [] {[ "prefix" := prefix dirs ]}) ;;
  env_set "CFLAGS" v ;;;
  env <~ get ;;
  i <~ lift (format "-I{}/{RELENV_HOST}/sysroot/usr/include" [toolchain dirs] env) ;;
  let cpplags :=
    [ "-I{prefix}/include";
      "-I{prefix}/include/readline";
      "-I{prefix}/include/ncursesw";
      i ] in
  v <~ lift (format (join " " cpplags) [] {[ "prefix" := prefix dirs ]}) ;;
  env_set "CPPFLAGS" v ;;;
  v <~ lift (format (join " " cpplags) [] {[ "prefix" := prefix dirs ]}) ;;
  env_set "CXXFLAGS" v ;;;
  env_set "LD_LIBRARY_PATH" "{prefix}/lib" ;;;
  env_set "PKG_CONFIG_PATH" (prefix dirs +:+ "/lib/pkgconfig").

(** ** Build procedures: events and state *)

(** A log file handle ([logfp]). *)
Abbreviation Handle := nat.

(** One call of [runcmd]: the command line and the keyword arguments given
    ([None] when the keyword is absent from the call). *)
Record RunCmd : Type := {
  rc_cmd : list string;
  rc_env : option Env;
  rc_stderr : option Handle;
  rc_stdout : option Handle;
}.

(** What a build procedure does outside the interpreter. *)
Inductive Event : Type :=
| ERun (r : RunCmd)
| EChdir (p : string)
| ECopy2 (src dst : string)
| EExists (p : string)
| ETempOpen (suffix : string)
| EWrite (path content : string)
| EFlush (path : string)
| ETempClose (path : string)
| EAppend (path content : string).

(** The state a build procedure works on: the [env] dictionary it was
    handed, and the events issued so far. *)
Record BState : Type := {
  bs_env : Env;
  bs_trace : list Event;
}.

Definition on_env {A} (m : M Env A) : M BState A :=
  λ st, let '(r, env') := m (bs_env st) in
        (r, {| bs_env := env'; bs_trace := bs_trace st |}).

(** [env.get(k, d)] *)
Definition env_get_default (k d : string) : M Env string :=
  λ env, (inr (default d (env !! k)), env).

(** [os.path.join(a, b)] for a relative [b]. *)
Definition os_path_join (a b : string) : string :=
  match b with
  | String "/"%char _ => b
  | _ =>
      match a with
      | EmptyString => b
      | _ => if String.eqb (String.substring (String.length a - 1) 1 a) "/"
             then a +:+ b else a +:+ "/" +:+ b
      end
  end.

(** try: [m] finally: [cleanup] *)
Definition finally {S A} (m : M S A) (cleanup : M S unit) : M S A :=
  λ s, match m s with
       | (r, s') =>
           match cleanup s' with
           | (inl e, s'') => (inl e, s'')
           | (inr _, s'') => (r, s'')
           end
       end.

(** Patch for Python's setup.py *)
Definition PATCH : string :=
"--- ./setup.py
+++ ./setup.py
@@ -664,6 +664,7 @@
             self.failed.append(ext.name)

     def add_multiarch_paths(self):
+        return
         # Debian/Ubuntu multiarch support.
         # https://wiki.ubuntu.com/MultiarchSpec
         tmpfile = os.path.join(self.build_temp, 'multiarch')
".

Section Recipes.
(** The outcome of an action outside the interpreter, given what has
    happened before: [runcmd] (from [relenv.build.common]) raises when the
    command fails, file-system calls raise on errors. *)
Variable os_impl : list Event → Event → exn + unit.
Variable exists_impl : list Event → string → bool.
Variable tmp_name : list Event → string → string.

Definition emit (e : Event) : M BState unit :=
  λ st, let st' := {| bs_env := bs_env st; bs_trace := bs_trace st ++ [e] |} in
        match os_impl (bs_trace st) e with
        | inl x => (inl x, st')
        | inr _ => (inr tt, st')
        end.

(** [runcmd(cmd, env=..., stderr=..., stdout=...)] *)
Definition runcmd (cmd : list string) (env : option Env)
    (stderr stdout : option Handle) : M BState unit :=
  emit (ERun {| rc_cmd := cmd; rc_env := env;
                rc_stderr := stderr; rc_stdout := stdout |}).

(** [pathlib.Path(p).exists()] *)
Definition path_exists (p : string) : M BState bool :=
  λ st, (inr (exists_impl (bs_trace st) p),
         {| bs_env := bs_env st; bs_trace := bs_trace st ++ [EExists p] |}).

(** [with tempfile.NamedTemporaryFile(mode="w", suffix=...) as f: body] *)
Definition with_tempfile {A} (suffix : string) (body : string → M BState A)
  : M BState A :=
  name <~ (λ st, (inr (tmp_name (bs_trace st) suffix), st)) ;;
  emit (ETempOpen suffix) ;;;
  finally (body name) (emit (ETempClose name)).

(** [build_bzip2(env, dirs, logfp)] *)
Definition build_bzip2 (dirs : Dirs) (logfp : Handle) : M BState unit :=
  ldflags <~ on_env (env_get "LDFLAGS") ;;
  cc <~ on_env (env_get "CC") ;;
  host <~ on_env (env_get "RELENV_HOST") ;;
  env <~ on_env get ;;
  runcmd
    [ "make"; "-j8";
      "PREFIX=" +:+ prefix dirs;
      "LDFLAGS=" +:+ ldflags;
      "CFLAGS=-fPIC";
      "CC=" +:+ cc;
      "BUILD=" +:+ "x86_64-linux-gnu";
      "HOST=" +:+ host;
      "install" ]
    (Some env) (Some logfp) (Some logfp) ;;;
  cc <~ on_env (env_get "CC") ;;
  ldflags <~ on_env (env_get "LDFLAGS") ;;
  host <~ on_env (env_get "RELENV_HOST") ;;
  env <~ on_env get ;;
  runcmd
    [ "make"; "-f"; "Makefile-libbz2_so";
      "CC=" +:+ cc;
      "LDFLAGS=" +:+ ldflags;
      "BUILD=" +:+ "x86_64-linux-gnu";
      "HOST=" +:+ host ]
    (Some env) (Some logfp) (Some logfp) ;;;
  emit (ECopy2 "libbz2.so.1.0.8" (os_path_join (prefix dirs) "lib")).

(** The tail shared by most recipes: [make -j8] then [make install]. *)
Definition make_and_install (logfp : Handle) : M BState unit :=
  env <~ on_env get ;;
  runcmd ["make"; "-j8"] (Some env) (Some logfp) (Some logfp) ;;;
  env <~ on_env get ;;
  runcmd ["make"; "install"] (Some env) (Some logfp) (Some logfp).

(** [build_libxcrypt(env, dirs, logfp)] *)
Definition build_libxcrypt (dirs : Dirs) (logfp : Handle) : M BState unit :=
  build <~ on_env (env_get "RELENV_BUILD") ;;
  host <~ on_env (env_get "RELENV_HOST") ;;
  env <~ on_env get ;;
  runcmd
    [ "./configure";
      "--prefix=" +:+ prefix dirs;
      "--build=" +:+ build;
      "--host=" +:+ host ]
    (Some env) (Some logfp) (Some logfp) ;;;
  make_and_install logfp.

(** [build_gdbm(env, dirs, logfp)] *)
Definition build_gdbm (dirs : Dirs) (logfp : Handle) : M BState unit :=
  build <~ on_env (env_get "RELENV_BUILD") ;;
  host <~ on_env (env_get "RELENV_HOST") ;;
  env <~ on_env get ;;
  runcmd
    [ "./configure";
      "--prefix=" +:+ prefix dirs;
      "--enable-libgdbm-compat";
      "--build=" +:+ build;
      "--host=" +:+ host ]
    (Some env) (Some logfp) (Some logfp) ;;;
  make_and_install logfp.

(** [build_ncurses(env, dirs, logfp)] *)
Definition build_ncurses (dirs : Dirs) (logfp : Handle) : M BState unit :=
  let configure := path_join (source dirs) "configure" in
  barch <~ on_env (env_get "RELENV_BUILD_ARCH") ;;
  cross <~
    (if String.eqb barch "aarch64" then ret true
     else harch <~ on_env (env_get "RELENV_HOST_ARCH") ;;
          ret (String.eqb harch "aarch64")) ;;
  (if cross : bool then
     emit (EChdir (tmpbuild dirs)) ;;;
     runcmd [configure] None (Some logfp) (Some logfp) ;;;
     runcmd ["make"; "-C"; "include"] None (Some logfp) (Some logfp) ;;;
     runcmd ["make"; "-C"; "progs"; "tic"] None (Some logfp) (Some logfp)
   else ret tt) ;;;
  emit (EChdir (source dirs)) ;;;
  build <~ on_env (env_get "RELENV_BUILD") ;;
  host <~ on_env (env_get "RELENV_HOST") ;;
  env <~ on_env get ;;
  runcmd
    [ configure;
      "--prefix=/";
      "--with-shared";
      "--enable-termcap";
      "--with-termlib";
      "--without-cxx-shared";
      "--without-static";
      "--without-cxx";
      "--enable-widec";
      "--without-normal";
      "--disable-stripping";
      "--with-pkg-config=" +:+ prefix dirs +:+ "/lib/pkgconfig";
      "--enable-pc-files";
      "--build=" +:+ build;
      "--host=" +:+ host ]
    (Some env) (Some logfp) (Some logfp) ;;;
  env <~ on_env get ;;
  runcmd ["make"; "-j8"] (Some env) (Some logfp) (Some logfp) ;;;
  env <~ on_env get ;;
  runcmd
    [ "make";
      "DESTDIR=" +:+ prefix dirs;
      "TIC_PATH=" +:+ path_join (path_join (tmpbuild dirs) "progs") "tic";
      "install" ]
    (Some env) (Some logfp) (Some logfp).

(** [build_readline(env, dirs, logfp)] *)
Definition build_readline (dirs : Dirs) (logfp : Handle) : M BState unit :=
  ldflags <~ on_env (env_get "LDFLAGS") ;;
  on_env (env_set "LDFLAGS" (ldflags +:+ " -ltinfow")) ;;;
  let cmd := [ "./configure"; "--prefix=" +:+ prefix dirs ] in
  host <~ on_env (env_get "RELENV_HOST") ;;
  cmd <~
    (if str_contains "linux" host then
       build <~ on_env (env_get "RELENV_BUILD") ;;
       host <~ on_env (env_get "RELENV_HOST") ;;
       ret (cmd ++ [ "--build=" +:+ build; "--host=" +:+ host ])
     else ret cmd) ;;
  env <~ on_env get ;;
  runcmd cmd (Some env) (Some logfp) (Some logfp) ;;;
  make_and_install logfp.

(** [build_libffi(env, dirs, logfp)] *)
Definition build_libffi (dirs : Dirs) (logfp : Handle) : M BState unit :=
  build <~ on_env (env_get "RELENV_BUILD") ;;
  host <~ on_env (env_get "RELENV_HOST") ;;
  env <~ on_env get ;;
  runcmd
    [ "./configure";
      "--prefix=" +:+ prefix dirs;
      "--disable-multi-os-directory";
      "--build=" +:+ build;
      "--host=" +:+ host ]
    (Some env) (Some logfp) (Some logfp) ;;;
  env <~ on_env get ;;
  runcmd ["sed"; "-i"; "s/lib64/lib/g"; "Makefile"]
    (Some env) (Some logfp) (Some logfp) ;;;
  make_and_install logfp.

(** [build_zlib(env, dirs, logfp)] *)
Definition build_zlib (dirs : Dirs) (logfp : Handle) : M BState unit :=
  cflags <~ on_env (env_get "CFLAGS") ;;
  on_env (env_set "CFLAGS" ("-fPIC " +:+ cflags)) ;;;
  env <~ on_env get ;;
  runcmd
    [ "./configure";
      "--prefix=" +:+ prefix dirs;
      "--libdir=" +:+ prefix dirs +:+ "/lib";
      "--shared" ]
    (Some env) (Some logfp) (Some logfp) ;;;
  env <~ on_env get ;;
  runcmd ["make"; "-no-pie"; "-j8"] (Some env) (Some logfp) (Some logfp) ;;;
  env <~ on_env get ;;
  runcmd ["make"; "install"] (Some env) (Some logfp) (Some logfp).

(** The opening of the recipes that force position-independent code:
    [env["CFLAGS"] = "-fPIC {}".format(env.get("CFLAGS", ""))]. *)
Definition set_fpic_cflags : M BState unit :=
  cflags <~ on_env (env_get_default "CFLAGS" "") ;;
  on_env (env_set "CFLAGS" ("-fPIC " +:+ cflags)).

(** [./configure --prefix=.. --libdir=../lib <mid> --build=.. --host=.. <last>]
    with [env] and both streams on [logfp]; [mid] and [last] are the
    recipe's own flags, placed as in its source. *)
Definition configure_libdir (dirs : Dirs) (logfp : Handle)
    (mid last : list string) : M BState unit :=
  build <~ on_env (env_get "RELENV_BUILD") ;;
  host <~ on_env (env_get "RELENV_HOST") ;;
  env <~ on_env get ;;
  runcmd
    ([ "./configure";
       "--prefix=" +:+ prefix dirs;
       "--libdir=" +:+ prefix dirs +:+ "/lib" ] ++ mid ++
     [ "--build=" +:+ build;
       "--host=" +:+ host ] ++ last)
    (Some env) (Some logfp) (Some logfp).

(** [build_sasl(env, dirs, logfp)] *)
Definition build_sasl (dirs : Dirs) (logfp : Handle) : M BState unit :=
  set_fpic_cflags ;;;
  configure_libdir dirs logfp [] [] ;;;
  make_and_install logfp.

(** [build_libyaml(env, dirs, logfp)] *)
Definition build_libyaml (dirs : Dirs) (logfp : Handle) : M BState unit :=
  set_fpic_cflags ;;;
  configure_libdir dirs logfp [] [] ;;;
  make_and_install logfp.

(** [build_libsodium(env, dirs, logfp)] *)
Definition build_libsodium (dirs : Dirs) (logfp : Handle) : M BState unit :=
  set_fpic_cflags ;;;
  configure_libdir dirs logfp [] [] ;;;
  make_and_install logfp.

(** [build_libmd(env, dirs, logfp)] *)
Definition build_libmd (dirs : Dirs) (logfp : Handle) : M BState unit :=
  set_fpic_cflags ;;;
  configure_libdir dirs logfp [] [] ;;;
  make_and_install logfp.

(** [build_libbsd(env, dirs, logfp)] *)
Definition build_libbsd (dirs : Dirs) (logfp : Handle) : M BState unit :=
  set_fpic_cflags ;;;
  configure_libdir dirs logfp [] ["--enable-year2038"] ;;;
  make_and_install logfp.

(** [build_zeromq(env, dirs, logfp)] *)
Definition build_zeromq (dirs : Dirs) (logfp : Handle) : M BState unit :=
  set_fpic_cflags ;;;
  ldflags <~ on_env (env_get "LDFLAGS") ;;
  on_env (env_set "LDFLAGS" (ldflags +:+ " -lbsd -lsodium")) ;;;
  cppflags <~ on_env (env_get "CPPFLAGS") ;;
  on_env (env_set "CPPFLAGS" (cppflags +:+ " -I" +:+ prefix dirs +:+ "/include")) ;;;
  on_env (env_set "PKG_CONFIG_PATH" (prefix dirs +:+ "/lib/pkgconfig")) ;;;
  llp <~ on_env (env_get_default "LD_LIBRARY_PATH" "") ;;
  on_env (env_set "LD_LIBRARY_PATH" (prefix dirs +:+ "/lib:" +:+ llp)) ;;;
  configure_libdir dirs logfp [] ["--with-libsodium"] ;;;
  make_and_install logfp.

(** [build_openldap(env, dirs, logfp)] *)
Definition build_openldap (dirs : Dirs) (logfp : Handle) : M BState unit :=
  set_fpic_cflags ;;;
  configure_libdir dirs logfp ["--enable-shared"; "--disable-static"] [] ;;;
  env <~ on_env get ;;
  runcmd ["make"; "depend"] (Some env) (Some logfp) (Some logfp) ;;;
  make_and_install logfp.

(** [build_krb(env, dirs, logfp)] *)
Definition build_krb (dirs : Dirs) (logfp : Handle) : M BState unit :=
  barch <~ on_env (env_get "RELENV_BUILD_ARCH") ;;
  harch <~ on_env (env_get "RELENV_HOST_ARCH") ;;
  (if negb (String.eqb barch harch) then
     on_env (env_set "krb5_cv_attr_constructor_destructor" "yes,yes") ;;;
     on_env (env_set "ac_cv_func_regcomp" "yes") ;;;
     on_env (env_set "ac_cv_printf_positional" "yes")
   else ret tt) ;;;
  emit (EChdir (path_join (source dirs) "src")) ;;;
  build <~ on_env (env_get "RELENV_BUILD") ;;
  host <~ on_env (env_get "RELENV_HOST") ;;
  env <~ on_env get ;;
  runcmd
    [ "./configure";
      "--prefix=" +:+ prefix dirs;
      "--without-system-verto";
      "--without-libedit";
      "--build=" +:+ build;
      "--host=" +:+ host ]
    (Some env) (Some logfp) (Some logfp) ;;;
  make_and_install logfp.

(** [build_python(env, dirs, logfp)] *)
Definition build_python (dirs : Dirs) (logfp : Handle) : M BState unit :=
  ldflags <~ on_env (env_get "LDFLAGS") ;;
  on_env (env_set "LDFLAGS"
            ("-Wl,--rpath=" +:+ prefix dirs +:+ "/lib " +:+ ldflags)) ;;;
  runcmd
    [ "sed"; "-i";
      "s/ac_cv_buggy_getaddrinfo=yes/ac_cv_buggy_getaddrinfo=no/g";
      "configure" ]
    None None None ;;;
  runcmd
    [ "sed"; "-i";
      "s/ac_cv_enable_implicit_function_declaration_error=yes/" +:+
      "ac_cv_enable_implicit_function_declaration_error=no/g";
      "configure" ]
    None None None ;;;
  has_setup <~ path_exists "setup.py" ;;
  (if has_setup : bool then
     with_tempfile "_patch" (λ name,
       emit (EWrite name PATCH) ;;;
       emit (EFlush name) ;;;
       env <~ on_env get ;;
       runcmd ["patch"; "-p0"; "-i"; name] (Some env) (Some logfp) (Some logfp))
   else ret tt) ;;;
  on_env (env_set "OPENSSL_CFLAGS"
            ("-I" +:+ prefix dirs +:+ "/include  -Wno-coverage-mismatch")) ;;;
  on_env (env_set "OPENSSL_LDFLAGS" ("-L" +:+ prefix dirs +:+ "/lib")) ;;;
  cflags <~ on_env (env_get "CFLAGS") ;;
  on_env (env_set "CFLAGS" ("-Wno-coverage-mismatch " +:+ cflags)) ;;;
  build <~ on_env (env_get "RELENV_BUILD") ;;
  host <~ on_env (env_get "RELENV_HOST") ;;
  let cmd :=
    [ "./configure";
      "-v";
      "--prefix=" +:+ prefix dirs;
      "--with-openssl=" +:+ prefix dirs;
      "--enable-optimizations";
      "--with-ensurepip=no";
      "--build=" +:+ build;
      "--host=" +:+ host;
      "--disable-test-modules";
      "--with-ssl-default-suites=openssl";
      "--with-builtin-hashlib-hashes=blake2,md5,sha1,sha2,sha3";
      "--with-readline=readline";
      "--with-pkg-config=yes" ] in
  harch <~ on_env (env_get "RELENV_HOST_ARCH") ;;
  barch <~ on_env (env_get "RELENV_BUILD_ARCH") ;;
  cmd <~
    (if negb (String.eqb harch barch) then
       native <~ on_env (env_get "RELENV_NATIVE_PY") ;;
       ret (cmd ++ [ "--with-build-python=" +:+ native ])
     else ret cmd) ;;
  let cmd := cmd ++ [ "ac_cv_file__dev_ptmx=yes"; "ac_cv_file__dev_ptc=no" ] in
  env <~ on_env get ;;
  runcmd cmd (Some env) (Some logfp) (Some logfp) ;;;
  runcmd
    [ "sed"; "-i";
      "s/#readline readline.c -lreadline -ltermcap/readline readline.c -lreadline -ltinfow/g";
      "Modules/Setup" ]
    None None None ;;;
  emit (EAppend "Modules/Setup" "*disabled*
_tkinter
nsl
nis
") ;;;
  make_and_install logfp.
End Recipes.

(** ** The build graph registered by [linux.py] *)

(** The functions named as [build_func] in the registrations. *)
Inductive BuildFunc : Type :=
| build_openssl_f | build_openssl_fips_f | build_sqlite_f | build_bzip2_f
| build_gdbm_f | build_ncurses_f | build_libffi_f | build_zlib_f
| build_krb_f | build_readline_f | build_openldap_f | build_sasl_f
| build_libyaml_f | build_libsodium_f | build_libmd_f | build_libbsd_f
| build_zeromq_f | build_python_f | finalize_f.

(** The functions named as [checkfunc]. *)
Inductive CheckFunc : Type :=
| tarball_version | github_version | sqlite_version
| uuid_version | krb_version | python_version.

(** The [download] dictionary of a registration. *)
Record Download : Type := {
  url : string;
  fallback_url : option string;
  version : string;
  checksum : string;
  checkfunc : option CheckFunc;
  checkurl : option string;
}.

(** One registered step. *)
Record Step : Type := {
  name : string;
  build_func : option BuildFunc;
  wait_on : list string;
  download : option Download;
}.

Global Instance BuildFunc_eq_dec : EqDecision BuildFunc.
Proof. solve_decision. Defined.
Global Instance CheckFunc_eq_dec : EqDecision CheckFunc.
Proof. solve_decision. Defined.
Global Instance Download_eq_dec : EqDecision Download.
Proof. solve_decision. Defined.
Global Instance Step_eq_dec : EqDecision Step.
Proof. solve_decision. Defined.

(** Objects live in a store and are named by their index; a builder lists
    its steps, in registration order, as references into the store, so that
    two builders may share a step object. *)
Abbreviation loc := nat.

(** The environment builders a graph can be registered with, by name. *)
Inductive EnvBuilder : Type := populate_env_f.

Definition env_builder_run (e : EnvBuilder) : Dirs → M Env unit :=
  match e with
  | populate_env_f => populate_env
  end.

Record Builder : Type := {
  b_platform : string;
  b_version : string;
  b_populate_env : EnvBuilder;
  b_steps : list (string * loc);
}.

Record Heap : Type := {
  h_steps : list Step;
  h_builders : list Builder;
  (** [builds]: platform ↦ the builders registered for it, oldest first *)
  h_registry : list (string * list loc);
}.

Definition empty_heap : Heap :=
  {| h_steps := []; h_builders := []; h_registry := [] |}.

Definition alloc_step (s : Step) : M Heap loc :=
  λ h, (inr (length (h_steps h)),
        {| h_steps := h_steps h ++ [s];
           h_builders := h_builders h;
           h_registry := h_registry h |}).

Definition alloc_builder (b : Builder) : M Heap loc :=
  λ h, (inr (length (h_builders h)),
        {| h_steps := h_steps h;
           h_builders := h_builders h ++ [b];
           h_registry := h_registry h |}).

Definition read_builder (b : loc) : M Heap Builder :=
  λ h, match h_builders h !! b with
       | Some x => (inr x, h)
       | None => (inl (OtherError "no such builder"), h)
       end.

Definition write_builder (b : loc) (x : Builder) : M Heap unit :=
  modify (λ h, {| h_steps := h_steps h;
                  h_builders := <[b := x]> (h_builders h);
                  h_registry := h_registry h |}).

Definition read_step (l : loc) : M Heap Step :=
  λ h, match h_steps h !! l with
       | Some x => (inr x, h)
       | None => (inl (OtherError "no such step"), h)
       end.

(** Append [b] to the sequence registered for [platform]. *)
Fixpoint registry_append (platform : string) (b : loc)
    (r : list (string * list loc)) : list (string * list loc) :=
  match r with
  | [] => [(platform, [b])]
  | (p, bs) :: r' =>
      if String.eqb p platform then (p, bs ++ [b]) :: r'
      else (p, bs) :: registry_append platform b r'
  end.

Definition register (platform : string) (b : loc) : M Heap unit :=
  modify (λ h, {| h_steps := h_steps h;
                  h_builders := h_builders h;
                  h_registry := registry_append platform b (h_registry h) |}).

(** Modelled from the spec: [builds.add] belongs to [relenv.build.common],
    which is not among the sources.  The registry maps a platform to the
    ordered sequence of its graph variants; called with [populate_env] and
    [version] it creates an empty graph with that graph-wide default
    version, registers it and returns it. *)
Definition builds_add_new (platform : string)
    (populate : EnvBuilder) (ver : string) : M Heap loc :=
  b <~ alloc_builder {| b_platform := platform; b_version := ver;
                        b_populate_env := populate; b_steps := [] |} ;;
  register platform b ;;;
  ret b.

(** Modelled from the spec: [builds.add(platform, builder=b)] appends an
    existing graph to the variants of [platform]. *)
Definition builds_add_builder (platform : string) (b : loc) : M Heap unit :=
  register platform b.

(** Modelled from the spec: [Builder.add] belongs to [relenv.build.common],
    which is not among the sources.  [add(name, buildProcedure?, download?,
    dependsOn=[])] registers a step at the end of the graph and fails with
    [DuplicateStepError] if [name] already exists in the graph. *)
Definition build_add (b : loc) (nm : string) (bf : option BuildFunc)
    (deps : list string) (dl : option Download) : M Heap unit :=
  x <~ read_builder b ;;
  if bool_decide (nm ∈ (b_steps x).*1) then raise (DuplicateStepError nm)
  else
    l <~ alloc_step {| name := nm; build_func := bf;
                       wait_on := deps; download := dl |} ;;
    write_builder b {| b_platform := b_platform x; b_version := b_version x;
                       b_populate_env := b_populate_env x;
                       b_steps := b_steps x ++ [(nm, l)] |}.

(** [build.version] *)
Definition builder_version (b : loc) : M Heap string :=
  x <~ read_builder b ;; ret (b_version x).

(** New download metadata for one step. *)
Record Override : Type := {
  ov_version : string;
  ov_checksum : string;
}.

Definition apply_override (o : Override) (s : Step) : Step :=
  {| name := name s; build_func := build_func s; wait_on := wait_on s;
     download :=
       match download s with
       | Some d => Some {| url := url d; fallback_url := fallback_url d;
                           version := ov_version o; checksum := ov_checksum o;
                           checkfunc := checkfunc d; checkurl := checkurl d |}
       | None => None
       end |}.

(** The step references of a copy: an overridden step gets a fresh object
    carrying the new metadata, every other step is shared with the
    original. *)
Definition copy_step (overrides : gmap string Override) (nm : string) (l : loc)
  : M Heap loc :=
  match overrides !! nm with
  | Some o => s <~ read_step l ;; alloc_step (apply_override o s)
  | None => ret l
  end.

Fixpoint copy_steps (overrides : gmap string Override)
    (steps : list (string * loc)) : M Heap (list (string * loc)) :=
  match steps with
  | [] => ret []
  | (nm, l) :: rest =>
      l' <~ copy_step overrides nm l ;;
      rest' <~ copy_steps overrides rest ;;
      ret ((nm, l') :: rest')
  end.

(** Modelled from the spec: [Builder.copy] belongs to
    [relenv.build.common], which is not among the sources.
    [copy(overrides)] returns a new graph with the same step set; for each
    key in [overrides] (step name ↦ new version and checksum) that step's
    download metadata is replaced in the copy only; unmodified steps are
    shared.  [ver] is the graph-wide default version of the copy. *)
Definition copy_overrides (b : loc) (ver : string)
    (overrides : gmap string Override) : M Heap loc :=
  x <~ read_builder b ;;
  steps' <~ copy_steps overrides (b_steps x) ;;
  alloc_builder {| b_platform := b_platform x; b_version := ver;
                   b_populate_env := b_populate_env x; b_steps := steps' |}.

(** The name of the interpreter step. *)
Definition interpreter_step : string := "python".

(** Modelled from the spec: the call [build.copy(version=v, checksum=c)] of
    [linux.py] derives the variant for another interpreter version: the
    overrides are the interpreter step's version and checksum, and [v]
    becomes the graph-wide default version of the copy. *)
Definition copy (b : loc) (ver cksum : string) : M Heap loc :=
  copy_overrides b ver
    {[ interpreter_step := {| ov_version := ver; ov_checksum := cksum |} ]}.

(** Lines 666–1002 of [linux.py], executed when the module is loaded. *)
Definition module_load : M Heap unit :=
  build <~ builds_add_new "linux" populate_env_f "3.10.16" ;;
  build_add build "openssl" (Some build_openssl_f) []
    (Some {| url := "https://github.com/openssl/openssl/releases/download/openssl-{version}/openssl-{version}.tar.gz";
             fallback_url := Some "https://woz.io/relenv/dependencies/openssl-{version}.tar.gz";
             version := "3.4.0";
             checksum := "5c2f33c3f3601676f225109231142cdc30d44127";
             checkfunc := Some tarball_version;
             checkurl := Some "https://www.openssl.org/source/" |}) ;;;
  build_add build "openssl-fips-module" (Some build_openssl_fips_f) ["openssl"]
    (Some {| url := "https://www.openssl.org/source/openssl-{version}.tar.gz";
             fallback_url := Some "https://woz.io/relenv/dependencies/openssl-{version}.tar.gz";
             version := "3.0.9";
             checksum := "b569725118c0603537c9a19449046b41b39627c8";
             checkfunc := Some tarball_version;
             checkurl := Some "https://www.openssl.org/source/" |}) ;;;
  build_add build "libxcrypt" None []
    (Some {| url := "https://github.com/besser82/libxcrypt/releases/download/v{version}/libxcrypt-{version}.tar.xz";
             fallback_url := None;
             version := "4.4.36";
             checksum := "c040de2fd534f84082c9c42114ba11b4e1a67635";
             checkfunc := Some github_version;
             checkurl := Some "https://github.com/besser82/libxcrypt/releases/" |}) ;;;
  build_add build "XZ" None []
    (Some {| url := "http://tukaani.org/xz/xz-{version}.tar.gz";
             fallback_url := Some "https://woz.io/relenv/dependencies/xz-{version}.tar.gz";
             version := "5.6.2";
             checksum := "0d6b10e4628fe08e19293c65e8dbcaade084a083";
             checkfunc := Some tarball_version;
             checkurl := None |}) ;;;
  build_add build "SQLite" (Some build_sqlite_f) []
    (Some {| url := "https://sqlite.org/2024/sqlite-autoconf-{version}.tar.gz";
             fallback_url := Some "https://woz.io/relenv/dependencies/sqlite-autoconf-{version}.tar.gz";
             version := "3470200";
             checksum := "40f0296080bb63f0321a5652477a6ab87c757aa2";
             checkfunc := Some sqlite_version;
             checkurl := Some "https://sqlite.org/" |}) ;;;
  build_add build "bzip2" (Some build_bzip2_f) []
    (Some {| url := "https://sourceware.org/pub/bzip2/bzip2-{version}.tar.gz";
             fallback_url := Some "https://woz.io/relenv/dependencies/bzip2-{version}.tar.gz";
             version := "1.0.8";
             checksum := "bf7badf7e248e0ecf465d33c2f5aeec774209227";
             checkfunc := Some tarball_version;
             checkurl := None |}) ;;;
  build_add build "gdbm" (Some build_gdbm_f) []
    (Some {| url := "https://ftp.gnu.org/gnu/gdbm/gdbm-{version}.tar.gz";
             fallback_url := Some "https://woz.io/relenv/dependencies/gdbm-{version}.tar.gz";
             version := "1.24";
             checksum := "7bd455f28c9e4afacc042e0c712aac1b2391fef2";
             checkfunc := Some tarball_version;
             checkurl := None |}) ;;;
  build_add build "ncurses" (Some build_ncurses_f) []
    (Some {| url := "https://ftp.gnu.org/pub/gnu/ncurses/ncurses-{version}.tar.gz";
             fallback_url := Some "https://woz.io/relenv/dependencies/ncurses-{version}.tar.gz";
             version := "6.4";
             checksum := "bb5eb3f34b3ecd5bac8d0b58164b847f135b3d62";
             checkfunc := Some tarball_version;
             checkurl := None |}) ;;;
  build_add build "libffi" (Some build_libffi_f) []
    (Some {| url := "https://github.com/libffi/libffi/releases/download/v{version}/libffi-{version}.tar.gz";
             fallback_url := Some "https://woz.io/relenv/dependencies/libffi-{version}.tar.gz";
             version := "3.4.6";
             checksum := "19251dfee520dff42acefe36bfe76d7168071e01";
             checkfunc := Some github_version;
             checkurl := Some "https://github.com/libffi/libffi/releases/" |}) ;;;
  build_add build "zlib" (Some build_zlib_f) []
    (Some {| url := "https://zlib.net/fossils/zlib-{version}.tar.gz";
             fallback_url := Some "https://woz.io/relenv/dependencies/zlib-{version}.tar.gz";
             version := "1.3.1";
             checksum := "f535367b1a11e2f9ac3bec723fb007fbc0d189e5";
             checkfunc := Some tarball_version;
             checkurl := None |}) ;;;
  build_add build "uuid" None []
    (Some {| url := "https://sourceforge.net/projects/libuuid/files/libuuid-{version}.tar.gz";
             fallback_url := Some "https://woz.io/relenv/dependencies/libuuid-{version}.tar.gz";
             version := "1.0.3";
             checksum := "46eaedb875ae6e63677b51ec583656199241d597";
             checkfunc := Some uuid_version;
             checkurl := None |}) ;;;
  build_add build "krb5" (Some build_krb_f) ["openssl"]
    (Some {| url := "https://kerberos.org/dist/krb5/{version}/krb5-{version}.tar.gz";
             fallback_url := Some "https://woz.io/relenv/dependencies/krb5-{version}.tar.gz";
             version := "1.21";
             checksum := "e2ee531443122376ac8b62b3848d94376f646089";
             checkfunc := Some krb_version;
             checkurl := Some "https://kerberos.org/dist/krb5/" |}) ;;;
  build_add build "readline" (Some build_readline_f) ["ncurses"]
    (Some {| url := "https://ftp.gnu.org/gnu/readline/readline-{version}.tar.gz";
             fallback_url := Some "https://woz.io/relenv/dependencies/readline-{version}.tar.gz";
             version := "8.2.13";
             checksum := "5ffb6a334c2422acbe8f4d2cb11e345265c8d930";
             checkfunc := Some tarball_version;
             checkurl := None |}) ;;;
  build_add build "tirpc" None ["krb5"]
    (Some {| url := "https://sourceforge.net/projects/libtirpc/files/libtirpc-{version}.tar.bz2";
             fallback_url := Some "https://woz.io/relenv/dependencies/libtirpc-{version}.tar.bz2";
             version := "1.3.6";
             checksum := "03352908461ad2122e5be4a678893aaa2ad2ac45";
             checkfunc := Some tarball_version;
             checkurl := None |}) ;;;
  build_add build "openldap" (Some build_openldap_f) ["krb5"]
    (Some {| url := "https://www.openldap.org/software/download/OpenLDAP/openldap-release/openldap-{version}.tgz";
             fallback_url := Some "https://mirrors.jevincanders.net/openldap/openldap-release/openldap-{version}.tgz";
             version := "2.5.19";
             checksum := "efd9caaa1d36b2b940eb79f30e264b527a80e3c1";
             checkfunc := Some tarball_version;
             checkurl := None |}) ;;;
  build_add build "cyrus-sasl" (Some build_sasl_f) ["openldap"]
    (Some {| url := "https://github.com/cyrusimap/cyrus-sasl/releases/download/cyrus-sasl-{version}/cyrus-sasl-{version}.tar.gz";
             fallback_url := Some "https://nexus.oit.gatech.edu/relenv/dependencies/cyrus-sasl-{version}.tar.gz";
             version := "2.1.28";
             checksum := "c96d2ccd891904ce0118fdfcdfbd47e37a1e7543";
             checkfunc := Some tarball_version;
             checkurl := None |}) ;;;
  build_add build "libyaml" (Some build_libyaml_f) []
    (Some {| url := "https://github.com/yaml/libyaml/releases/download/{version}/yaml-{version}.tar.gz";
             fallback_url := Some "https://nexus.oit.gatech.edu/relenv/dependencies/yaml-{version}.tar.gz";
             version := "0.2.5";
             checksum := "f49b39644caccabef049e3ec8859e8fdf94b686e";
             checkfunc := Some tarball_version;
             checkurl := None |}) ;;;
  build_add build "libsodium" (Some build_libsodium_f) []
    (Some {| url := "https://github.com/jedisct1/libsodium/releases/download/{version}-RELEASE/libsodium-{version}.tar.gz";
             fallback_url := Some "https://nexus.oit.gatech.edu/relenv/dependencies/libsodium-{version}.tar.gz";
             version := "1.0.20";
             checksum := "e37f50e66b4b90957cfef5792c6af6abf27ae9c6";
             checkfunc := Some tarball_version;
             checkurl := None |}) ;;;
  build_add build "libmd" (Some build_libmd_f) []
    (Some {| url := "https://archive.hadrons.org/software/libmd/libmd-{version}.tar.xz";
             fallback_url := Some "https://nexus.oit.gatech.edu/relenv/dependencies/libmd-{version}.tar.gz";
             version := "1.1.0";
             checksum := "72718d5ffad112b702ba84fd40900486f8179642";
             checkfunc := Some tarball_version;
             checkurl := None |}) ;;;
  build_add build "libbsd" (Some build_libbsd_f) ["libmd"]
    (Some {| url := "https://libbsd.freedesktop.org/releases/libbsd-{version}.tar.xz";
             fallback_url := Some "https://nexus.oit.gatech.edu/relenv/dependencies/libbsd-{version}.tar.gz";
             version := "0.12.2";
             checksum := "c8f49920dec71e8e72f2b19f6c209b440a367d3a";
             checkfunc := Some tarball_version;
             checkurl := None |}) ;;;
  build_add build "zeromq" (Some build_zeromq_f) ["libsodium"; "libbsd"]
    (Some {| url := "https://github.com/zeromq/libzmq/releases/download/v{version}/zeromq-{version}.tar.gz";
             fallback_url := Some "https://nexus.oit.gatech.edu/relenv/dependencies/zeromq-{version}.tar.gz";
             version := "4.3.5";
             checksum := "bdbf686c8a40ba638e21cf74e34dbb425e108500";
             checkfunc := Some tarball_version;
             checkurl := None |}) ;;;
  build_version <~ builder_version build ;;
  build_add build "python" (Some build_python_f)
    [ "libyaml"; "openssl"; "libxcrypt"; "XZ"; "SQLite"; "bzip2"; "gdbm";
      "ncurses"; "libffi"; "zlib"; "uuid"; "krb5"; "readline"; "tirpc";
      "openldap"; "cyrus-sasl"; "zeromq" ]
    (Some {| url := "https://www.python.org/ftp/python/{version}/Python-{version}.tar.xz";
             fallback_url := Some "https://woz.io/relenv/dependencies/Python-{version}.tar.xz";
             version := build_version;
             checksum := "401e6a504a956c8f0aab76c4f3ad9df601a83eb1";
             checkfunc := Some python_version;
             checkurl := Some "https://www.python.org/ftp/python/" |}) ;;;
  build_add build "relenv-finalize" (Some finalize_f)
    [ "python"; "openssl-fips-module" ] None ;;;
  build <~ copy build "3.11.11" "acf539109b024d3c5f1fc63d6e7f08cd294ba56d" ;;
  builds_add_builder "linux" build ;;;
  build <~ copy build "3.12.8" "8872c7a124c6970833e0bde4f25d6d7d61c6af6e" ;;
  builds_add_builder "linux" build ;;;
  build <~ copy build "3.13.1" "4b0c2a49a848c3c5d611416099636262a0b9090f" ;;
  builds_add_builder "linux" build.

(** The store after the module has been loaded. *)
Definition loaded : Heap := snd (module_load empty_heap).

(** ** Graphs as values *)

(** What the scheduler is handed: the steps of a builder read through their
    references, in registration order.  A builder denotes a graph when each
    of its references leads to a step object of the name it is listed
    under. *)
Record Graph : Type := {
  g_platform : string;
  g_version : string;
  g_populate_env : EnvBuilder;
  g_steps : list Step;
}.

Fixpoint read_steps (store : list Step) (refs : list (string * loc))
  : option (list Step) :=
  match refs with
  | [] => Some []
  | (nm, l) :: rest =>
      match store !! l, read_steps store rest with
      | Some s, Some ss => if String.eqb nm (name s) then Some (s :: ss) else None
      | _, _ => None
      end
  end.

Definition graph_of (h : Heap) (b : loc) : option Graph :=
  match h_builders h !! b with
  | Some x =>
      match read_steps (h_steps h) (b_steps x) with
      | Some ss => Some {| g_platform := b_platform x;
                           g_version := b_version x;
                           g_populate_env := b_populate_env x;
                           g_steps := ss |}
      | None => None
      end
  | None => None
  end.

(** [builds.builds[platform]] *)
Fixpoint registry_lookup (platform : string) (r : list (string * list loc))
  : list loc :=
  match r with
  | [] => []
  | (p, bs) :: r' =>
      if String.eqb p platform then bs else registry_lookup platform r'
  end.

Definition variants (h : Heap) (platform : string) : list loc :=
  registry_lookup platform (h_registry h).

(** The step called [nm], if the graph has one. *)
Fixpoint lookup_step (nm : string) (steps : list Step) : option Step :=
  match steps with
  | [] => None
  | s :: rest => if String.eqb (name s) nm then Some s else lookup_step nm rest
  end.

Definition find_step (g : Graph) (nm : string) : option Step :=
  lookup_step nm (g_steps g).

Definition step_names (g : Graph) : list string := name <$> g_steps g.

(** The version and checksum a step downloads, if it downloads anything. *)
Definition download_id (g : Graph) (nm : string) : option (string * string) :=
  s ← find_step g nm; d ← download s; Some (version d, checksum d).

(** A step under a set of overrides. *)
Definition override_in (overrides : gmap string Override) (s : Step) : Step :=
  match overrides !! name s with
  | Some o => apply_override o s
  | None => s
  end.

(** What [copy_overrides] is meant to produce, on graphs as values: the
    same steps in the same order, those named in [overrides] with their
    download metadata replaced, under the new graph-wide version. *)
Definition graph_copy (ver : string) (overrides : gmap string Override)
    (g : Graph) : Graph :=
  {| g_platform := g_platform g;
     g_version := ver;
     g_populate_env := g_populate_env g;
     g_steps := override_in overrides <$> g_steps g |}.

(** [reflects overrides s s']: [s'] shows the step [s] as a copy made
    under [overrides] must show it.  Its name, build procedure and
    dependencies are those of [s]; when [overrides] names the step, its
    download carries the version and checksum of the override and is
    otherwise the download of [s]; when [overrides] does not name it, it is
    [s]. *)
Definition reflects (overrides : gmap string Override) (s s' : Step) : Prop :=
  name s' = name s
  ∧ build_func s' = build_func s
  ∧ wait_on s' = wait_on s
  ∧ match overrides !! name s with
    | None => s' = s
    | Some o =>
        match download s with
        | None => download s' = None
        | Some d =>
            ∃ d', download s' = Some d'
                  ∧ version d' = ov_version o
                  ∧ checksum d' = ov_checksum o
                  ∧ url d' = url d
                  ∧ fallback_url d' = fallback_url d
                  ∧ checkfunc d' = checkfunc d
                  ∧ checkurl d' = checkurl d
        end
    end.

(** The operations that act on a graph in the store: registering one more
    step (the only one that changes the graph it is applied to) and
    deriving a further copy. *)
Inductive GraphOp : Type :=
| OpAdd (nm : string) (bf : option BuildFunc) (deps : list string)
        (dl : option Download)
| OpCopy (ver : string) (overrides : gmap string Override).

Definition apply_op (b : loc) (h : Heap) (op : GraphOp) : Heap :=
  match op with
  | OpAdd nm bf deps dl => snd (build_add b nm bf deps dl h)
  | OpCopy ver overrides => snd (copy_overrides b ver overrides h)
  end.

Definition apply_ops (b : loc) (ops : list GraphOp) (h : Heap) : Heap :=
  fold_left (apply_op b) ops h.

(** The steps of a graph other than the interpreter step. *)
Definition dependency_steps (g : Graph) : list Step :=
  filter (λ s, name s ≠ interpreter_step) (g_steps g).

(** No dangling edges: every name waited on is the name of a step. *)
Definition no_dangling (g : Graph) : Prop :=
  ∀ s d, s ∈ g_steps g → d ∈ wait_on s → d ∈ step_names g.

(** [edge g a b]: a step called [a] waits on [b]. *)
Definition edge (g : Graph) (a b : string) : Prop :=
  ∃ s, s ∈ g_steps g ∧ name s = a ∧ b ∈ wait_on s.

(** The [wait_on] relation, closed over all steps, has no cycle. *)
Definition acyclic (g : Graph) : Prop := ∀ a, ¬ tc (edge g) a a.

(** A check that decides both at once for graphs built the way [linux.py]
    builds them: every step is new and waits only on steps registered
    before it. *)
Fixpoint registered_in_order (seen : list string) (steps : list Step) : bool :=
  match steps with
  | [] => true
  | s :: rest =>
      forallb (λ d, bool_decide (d ∈ seen)) (wait_on s)
      && bool_decide (name s ∉ seen)
      && registered_in_order (seen ++ [name s]) rest
  end.

(** Position of the first occurrence of [n] ([length l] if there is none). *)
Fixpoint index_of (n : string) (l : list string) : nat :=
  match l with
  | [] => 0
  | x :: r => if decide (x = n) then 0 else S (index_of n r)
  end.

(** ** The per-step pipeline and the scheduler *)

(** Modelled from the spec: the directory layout belongs to
    [relenv.build.common], which is not among the sources.  The five
    directories of a step are a function of the root, the platform, the
    version and the step name:
    [<root>/<platform>-<version>/{src,build,prefix,toolchain,logs}/<stepName>]. *)
Record Directories : Type := {
  d_source : string;
  d_buildTemp : string;
  d_prefix : string;
  d_toolchain : string;
  d_logDir : string;
}.

Definition derive_dirs (root platform ver step : string) : Directories :=
  let base := root +:+ "/" +:+ platform +:+ "-" +:+ ver +:+ "/" in
  {| d_source := base +:+ "src/" +:+ step;
     d_buildTemp := base +:+ "build/" +:+ step;
     d_prefix := base +:+ "prefix/" +:+ step;
     d_toolchain := base +:+ "toolchain/" +:+ step;
     d_logDir := base +:+ "logs/" +:+ step |}.

(** The view of the directories that the recipes of [linux.py] read. *)
Definition to_Dirs (d : Directories) : Dirs :=
  {| toolchain := d_toolchain d; prefix := d_prefix d;
     source := d_source d; tmpbuild := d_buildTemp d |}.

Inductive Phase : Type := PhaseDownload | PhaseVerify | PhaseBuild.

(** [BuildError{stepName, phase, cause}] *)
Record BuildError : Type := {
  be_step : string;
  be_phase : Phase;
  be_cause : exn;
}.

(** What the pipeline of a step does, in order. *)
Inductive PEvent : Type :=
| PMkdirs (step : string)
| PFetch (step url : string)
| PVerify (step : string)
| PExtract (step : string)
| POpenLog (step : string)
| PInvoke (step : string).

Record PState : Type := {
  p_events : list PEvent;
  p_phase : Phase;
}.

(** The steps whose build procedure was invoked, in order. *)
Definition invoked (evs : list PEvent) : list string :=
  omap (λ e, match e with PInvoke n => Some n | _ => None end) evs.

(** The state of a step in the scheduler. *)
Inductive Status : Type :=
| Pending | Ready | Running | Succeeded | Failed | Skipped.

Global Instance Status_eq_dec : EqDecision Status.
Proof. solve_decision. Defined.

Record Sched : Type := {
  sc_status : gmap string Status;
  sc_events : list PEvent;
  sc_errors : list BuildError;
}.

Definition status_of (st : Sched) (n : string) : Status :=
  default Pending (sc_status st !! n).

Definition set_status (n : string) (x : Status) (st : Sched) : Sched :=
  {| sc_status := <[n := x]> (sc_status st);
     sc_events := sc_events st;
     sc_errors := sc_errors st |}.

Definition terminal (x : Status) : bool :=
  match x with
  | Succeeded | Failed | Skipped => true
  | _ => false
  end.

Section Engine.
(** The world a run takes place in.  Fetching a URL yields an artifact or
    fails in transport; the digest of an artifact is a hex string; a
    build procedure is an opaque capability
    [(env, dirs, logSink) -> Result]. *)
Context {Artifact : Type}.
Variable fetch : string → option Artifact.
Variable digest : Artifact → string.
Variable procedure : Step → Env → Dirs → Handle → exn + unit.
Variable root : string.
Variable base_env : Env.
Variable log_sink : string → Handle.

Definition plog (e : PEvent) : M PState unit :=
  modify (λ st, {| p_events := p_events st ++ [e]; p_phase := p_phase st |}).

Definition enter (ph : Phase) : M PState unit :=
  modify (λ st, {| p_events := p_events st; p_phase := ph |}).

(** Modelled from the spec (§4.3, step 2): fetch from the URL template,
    with the version substituted for [{version}]; on a transport failure
    retry once against the fallback template. *)
Definition fetch_artifact (s : Step) (d : Download) : M PState Artifact :=
  u <~ lift (format (url d) [] {[ "version" := version d ]}) ;;
  plog (PFetch (name s) u) ;;;
  match fetch u with
  | Some a => ret a
  | None =>
      match fallback_url d with
      | Some f =>
          u' <~ lift (format f [] {[ "version" := version d ]}) ;;
          plog (PFetch (name s) u') ;;;
          match fetch u' with
          | Some a => ret a
          | None => raise (DownloadError u')
          end
      | None => raise (DownloadError u)
      end
  end.

(** The artifact a step ends up with, or the failure of its download. *)
Definition fetched (s : Step) (d : Download) : exn + Artifact :=
  fst (fetch_artifact s d {| p_events := []; p_phase := PhaseDownload |}).

(** Modelled from the spec (§4.3, step 2): compare the digest of the
    artifact with the declared checksum; on mismatch fail with
    [ChecksumMismatchError]. *)
Definition verify_checksum (s : Step) (d : Download) (a : Artifact)
  : M PState unit :=
  plog (PVerify (name s)) ;;;
  if String.eqb (digest a) (checksum d) then ret tt
  else raise (ChecksumMismatchError (checksum d) (digest a)).

(** Modelled from the spec (§4.3): the pipeline of a ready step. *)
Definition pipeline_body (g : Graph) (s : Step) : M PState unit :=
  let dirs := derive_dirs root (g_platform g) (g_version g) (name s) in
  plog (PMkdirs (name s)) ;;;
  match download s with
  | Some d =>
      enter PhaseDownload ;;;
      a <~ fetch_artifact s d ;;
      enter PhaseVerify ;;;
      verify_checksum s d a ;;;
      plog (PExtract (name s))
  | None => ret tt
  end ;;;
  enter PhaseBuild ;;;
  env <~ match env_builder_run (g_populate_env g) (to_Dirs dirs) base_env with
         | (inl e, _) => raise e
         | (inr _, env) => ret env
         end ;;
  plog (POpenLog (name s)) ;;;
  plog (PInvoke (name s)) ;;;
  lift (procedure s env (to_Dirs dirs) (log_sink (name s))).

(** The events of a step's pipeline and its outcome: [None] for success,
    the wrapped failure otherwise (§4.3, step 5). *)
Definition pipeline (g : Graph) (s : Step) : list PEvent * option BuildError :=
  match pipeline_body g s {| p_events := []; p_phase := PhaseDownload |} with
  | (inr _, st) => (p_events st, None)
  | (inl e, st) =>
      (p_events st,
       Some {| be_step := name s; be_phase := p_phase st; be_cause := e |})
  end.

(** A running step reaches its terminal state. *)
Definition finish (g : Graph) (s : Step) (st : Sched) : Sched :=
  let '(evs, r) := pipeline g s in
  {| sc_status :=
       <[name s := match r with None => Succeeded | Some _ => Failed end]>
         (sc_status st);
     sc_events := sc_events st ++ evs;
     sc_errors := sc_errors st ++ match r with None => [] | Some e => [e] end |}.

Definition init_sched (g : Graph) : Sched :=
  {| sc_status := list_to_map ((λ s, (name s, Pending)) <$> g_steps g);
     sc_events := [];
     sc_errors := [] |}.

Definition running_count (g : Graph) (st : Sched) : nat :=
  length (filter (λ s, status_of st (name s) = Running) (g_steps g)).

(** Modelled from the spec (§4.2): the moves of the scheduler with
    concurrency bound [N].  Which enabled move is taken next is not
    determined: independent steps may start and finish in any
    interleaving. *)
Inductive sched_step (g : Graph) (N : nat) : Sched → Sched → Prop :=
| step_ready s st :
    s ∈ g_steps g →
    status_of st (name s) = Pending →
    (∀ d, d ∈ wait_on s → status_of st d = Succeeded) →
    sched_step g N st (set_status (name s) Ready st)
| step_skip s d st :
    s ∈ g_steps g →
    status_of st (name s) = Pending →
    d ∈ wait_on s →
    status_of st d = Failed ∨ status_of st d = Skipped →
    sched_step g N st (set_status (name s) Skipped st)
| step_dispatch s st :
    s ∈ g_steps g →
    status_of st (name s) = Ready →
    running_count g st < N →
    sched_step g N st (set_status (name s) Running st)
| step_finish s st :
    s ∈ g_steps g →
    status_of st (name s) = Running →
    sched_step g N st (finish g s st).

Definition reachable (g : Graph) (N : nat) (st : Sched) : Prop :=
  rtc (sched_step g N) (init_sched g) st.

(** The executor has finished: no step is pending, ready or running. *)
Definition finished (g : Graph) (st : Sched) : Prop :=
  ∀ s, s ∈ g_steps g → terminal (status_of st (name s)) = true.

(** The execution report: the steps in registration order with their
    final state, log location and error detail. *)
Record ReportEntry : Type := {
  re_step : string;
  re_state : Status;
  re_logPath : string;
  re_error : option BuildError;
}.

Definition error_of (st : Sched) (n : string) : option BuildError :=
  head (filter (λ e, be_step e = n) (sc_errors st)).

Definition report (g : Graph) (st : Sched) : list ReportEntry :=
  (λ s, {| re_step := name s;
           re_state := status_of st (name s);
           re_logPath :=
             d_logDir (derive_dirs root (g_platform g) (g_version g) (name s));
           re_error := error_of st (name s) |}) <$> g_steps g.

(** The final state the report gives for the step called [n]. *)
Fixpoint report_state (n : string) (rep : list ReportEntry) : option Status :=
  match rep with
  | [] => None
  | e :: rest =>
      if String.eqb (re_step e) n then Some (re_state e)
      else report_state n rest
  end.

(** One schedule, executable: the steps are taken one at a time in
    registration order; a step whose dependencies all succeeded runs its
    pipeline, any other is skipped. *)
Definition run_one (g : Graph) (st : Sched) (s : Step) : Sched :=
  if forallb (λ d, bool_decide (status_of st d = Succeeded)) (wait_on s)
  then finish g s st
  else set_status (name s) Skipped st.

Definition run_in_order (g : Graph) : Sched :=
  fold_left (run_one g) (g_steps g) (init_sched g).
End Engine.

(** ** The build procedures of [linux.py], as a table *)

Inductive Recipe : Type :=
| r_bzip2 | r_libxcrypt | r_gdbm | r_ncurses | r_readline | r_libffi
| r_zlib | r_sasl | r_libyaml | r_libsodium | r_libmd | r_libbsd
| r_zeromq | r_openldap | r_krb | r_python.

Definition recipe_run
    (os_impl : list Event → Event → exn + unit)
    (exists_impl : list Event → string → bool)
    (tmp_name : list Event → string → string)
    (r : Recipe) : Dirs → Handle → M BState unit :=
  match r with
  | r_bzip2 => build_bzip2 os_impl
  | r_libxcrypt => build_libxcrypt os_impl
  | r_gdbm => build_gdbm os_impl
  | r_ncurses => build_ncurses os_impl
  | r_readline => build_readline os_impl
  | r_libffi => build_libffi os_impl
  | r_zlib => build_zlib os_impl
  | r_sasl => build_sasl os_impl
  | r_libyaml => build_libyaml os_impl
  | r_libsodium => build_libsodium os_impl
  | r_libmd => build_libmd os_impl
  | r_libbsd => build_libbsd os_impl
  | r_zeromq => build_zeromq os_impl
  | r_openldap => build_openldap os_impl
  | r_krb => build_krb os_impl
  | r_python => build_python os_impl exists_impl tmp_name
  end.

(** The keys of [env] each procedure assigns. *)
Definition recipe_keys (r : Recipe) : list string :=
  match r with
  | r_bzip2 | r_libxcrypt | r_gdbm | r_ncurses | r_libffi => []
  | r_readline => ["LDFLAGS"]
  | r_zlib | r_sasl | r_libyaml | r_libsodium | r_libmd | r_libbsd
  | r_openldap => ["CFLAGS"]
  | r_zeromq =>
      ["CFLAGS"; "LDFLAGS"; "CPPFLAGS"; "PKG_CONFIG_PATH"; "LD_LIBRARY_PATH"]
  | r_krb =>
      ["krb5_cv_attr_constructor_destructor"; "ac_cv_func_regcomp";
       "ac_cv_printf_positional"]
  | r_python => ["LDFLAGS"; "OPENSSL_CFLAGS"; "OPENSSL_LDFLAGS"; "CFLAGS"]
  end.

(** An event respects the log sink [h] when, if it is a subprocess, both of
    its streams were directed to [h]. *)
Definition logged (h : Handle) (e : Event) : Prop :=
  match e with
  | ERun r => rc_stdout r = Some h ∧ rc_stderr r = Some h
  | _ => True
  end.

(** The three [sed] calls of [build_python] that carry no keyword. *)
Definition sed_getaddrinfo : RunCmd :=
  {| rc_cmd := [ "sed"; "-i";
                 "s/ac_cv_buggy_getaddrinfo=yes/ac_cv_buggy_getaddrinfo=no/g";
                 "configure" ];
     rc_env := None; rc_stderr := None; rc_stdout := None |}.

Definition sed_implicit_decl : RunCmd :=
  {| rc_cmd := [ "sed"; "-i";
                 "s/ac_cv_enable_implicit_function_declaration_error=yes/ac_cv_enable_implicit_function_declaration_error=no/g";
                 "configure" ];
     rc_env := None; rc_stderr := None; rc_stdout := None |}.

Definition sed_readline : RunCmd :=
  {| rc_cmd := [ "sed"; "-i";
                 "s/#readline readline.c -lreadline -ltermcap/readline readline.c -lreadline -ltinfow/g";
                 "Modules/Setup" ];
     rc_env := None; rc_stderr := None; rc_stdout := None |}.

(** The subprocess events of a trace that bypass the log sink [h]. *)
Definition unlogged_runs (h : Handle) (t : list Event) : list RunCmd :=
  omap (λ e, match e with
             | ERun r =>
                 if bool_decide (rc_stdout r = Some h ∧ rc_stderr r = Some h)
                 then None else Some r
             | _ => None
             end) t.

(** ** Failure of a root step and the steps tainted by it *)

(** Every step called [f] waits on nothing and downloads [d]. *)
Definition root_with_download (f : string) (d : Download) (g : Graph) : bool :=
  forallb (λ s, if String.eqb (name s) f
                then bool_decide (wait_on s = [] ∧ download s = Some d)
                else true)
          (g_steps g).

(** Every step whose name is in [T] waits on [f] or on a step of [T]. *)
Definition waits_on_tainted (f : string) (T : list string) (g : Graph) : bool :=
  forallb (λ s, if bool_decide (name s ∈ T)
                then existsb (λ dep, bool_decide (dep = f ∨ dep ∈ T)) (wait_on s)
                else true)
          (g_steps g).

(** The part of the linux graph the end-to-end scenario is about: [krb5]
    waits on [openssl], [python] waits on both, [openssl] waits on nothing. *)
Definition scenario_shape (g : Graph) : bool :=
  bool_decide ((wait_on <$> find_step g "krb5") = Some ["openssl"])
  && match find_step g "python" with
     | Some s => bool_decide ("krb5" ∈ wait_on s ∧ "openssl" ∈ wait_on s)
     | None => false
     end
  && bool_decide ((wait_on <$> find_step g "openssl") = Some []).

(** ** Sample inputs *)

(** The graph registered first, for 3.10.16. *)
Definition linux_310 : Graph :=
  Eval vm_compute in
    default {| g_platform := ""; g_version := "";
               g_populate_env := populate_env_f; g_steps := [] |}
            (graph_of loaded 0).

(** Its [openssl] step. *)
Definition openssl_step : Step :=
  Eval vm_compute in
    default {| name := ""; build_func := None; wait_on := []; download := None |}
            (find_step linux_310 "openssl").

Definition openssl_download : Download :=
  Eval vm_compute in
    default {| url := ""; fallback_url := None; version := ""; checksum := "";
               checkfunc := None; checkurl := None |}
            (download openssl_step).

(** A world in which every download delivers the same tampered archive, and
    every build procedure would succeed. *)
Definition tampered_fetch (_ : string) : option string := Some "tampered".
Definition sample_digest (a : string) : string :=
  if String.eqb a "tampered" then "da39a3ee5e6b4b0d3255bfef95601890afd80709"
  else "5c2f33c3f3601676f225109231142cdc30d44127".
Definition ok_procedure (_ : Step) (_ : Env) (_ : Dirs) (_ : Handle)
  : exn + unit := inr tt.
Definition sample_log_sink (_ : string) : Handle := 0.

(** A world in which every command and file operation succeeds, there is
    no [setup.py], and temporary files are called [/tmp/x<suffix>]. *)
Definition ok_os (_ : list Event) (_ : Event) : exn + unit := inr tt.
Definition no_file (_ : list Event) (_ : string) : bool := false.
Definition tmp_x (_ : list Event) (suffix : string) : string :=
  "/tmp/x" +:+ suffix.

Definition recipe_env : Env :=
  <["LDFLAGS" := "-L/p/lib"]>
    (<["CFLAGS" := "-g"]>
       (<["CPPFLAGS" := "-I/p/include"]>
          (<["RELENV_HOST" := "x86_64-linux-gnu"]>
             (<["RELENV_BUILD" := "x86_64-linux-gnu"]>
                (<["RELENV_HOST_ARCH" := "x86_64"]>
                   (<["RELENV_BUILD_ARCH" := "x86_64"]> ∅)))))).

Definition recipe_state : BState := {| bs_env := recipe_env; bs_trace := [] |}.


Definition sample_work_dirs (_ : Sys) : exn + WorkDirs :=
  inr {| wd_toolchain := "/root/.local/relenv/toolchain" |}.

Definition sample_triplet (_ : Sys) : exn + string := inr "x86_64-linux-gnu".

Definition darwin_sys : Sys :=
  {| sys_platform := "darwin"; sys_RELENV := Some (PyPath "/opt/relenv");
     os_environ := ∅ |}.

Definition linux_sys : Sys :=
  {| sys_platform := "linux"; sys_RELENV := Some (PyPath "/opt/relenv");
     os_environ := ∅ |}.

Definition plain_linux_sys : Sys :=
  {| sys_platform := "linux"; sys_RELENV := None; os_environ := ∅ |}.

(** The keys [populate_env] assigns. *)
Definition populate_env_keys : list string :=
  [ "CC"; "CXX"; "PATH"; "LDFLAGS"; "CFLAGS"; "CPPFLAGS"; "CXXFLAGS";
    "LD_LIBRARY_PATH"; "PKG_CONFIG_PATH" ].

Definition demo_dirs : Dirs :=
  {| toolchain := "/tc"; prefix := "/p"; source := "/s"; tmpbuild := "/t" |}.

Definition demo_env : Env :=
  <["RELENV_HOST" := "x86_64-linux-gnu"]> (<["PATH" := "/usr/bin"]> ∅).

(** ** Predicates used in the statements *)

(** [writes_only K m]: whatever the outcome, [m] leaves every key outside
    [K] as it found it. *)
Definition writes_only {A} (K : list string) (m : M Env A) : Prop :=
  ∀ env k, k ∉ K → snd (m env) !! k = env !! k.

(** [keeps K m]: whatever the outcome, [m] leaves every key of the [env]
    mapping outside [K] as it found it. *)
Definition keeps {A} (K : list string) (m : M BState A) : Prop :=
  ∀ st k, k ∉ K → bs_env (snd (m st)) !! k = bs_env st !! k.

(** [emits P m]: [m] only appends to the trace, and every event it appends
    satisfies [P]. *)
Definition emits {A} (P : Event → Prop) (m : M BState A) : Prop :=
  ∀ st, ∃ evs, bs_trace (snd (m st)) = bs_trace st ++ evs ∧ Forall P evs.

(** [grows b h h']: the store [h'] extends [h] without touching the
    builder [b] or any existing step object. *)
Definition grows (b : loc) (h h' : Heap) : Prop :=
  (∃ ex, h_steps h' = h_steps h ++ ex)
  ∧ h_builders h' !! b = h_builders h !! b.

(** The events that record a download attempt. *)
Definition is_fetch (e : PEvent) : Prop :=
  match e with PFetch _ _ => True | _ => False end.

(** The step an event belongs to. *)
Definition event_step (e : PEvent) : string :=
  match e with
  | PMkdirs n | PFetch n _ | PVerify n | PExtract n | POpenLog n | PInvoke n => n
  end.

(** Every event of a pipeline belongs to its own step. *)
Definition owned {A} (n : string) (m : M PState A) : Prop :=
  ∀ st, Forall (λ e, event_step e = n) (p_events st) →
        Forall (λ e, event_step e = n) (p_events (snd (m st))).

(** What holds all along a run in which the root step [f] fails: [f] has
    neither succeeded nor been skipped, and every step of [T] is pending or
    skipped and has not had its procedure invoked. *)
Definition taint_inv (f : string) (T : list string) (st : Sched) : Prop :=
  status_of st f ≠ Succeeded
  ∧ status_of st f ≠ Skipped
  ∧ (∀ t, t ∈ T → status_of st t = Pending ∨ status_of st t = Skipped)
  ∧ (∀ t, t ∈ T → PInvoke t ∉ sc_events st).

(** Every step in [done] has reached a terminal state and every other
    step is still pending. *)
Definition settled (done : list string) (st : Sched) : Prop :=
  (∀ n, n ∈ done → terminal (status_of st n) = true)
  ∧ (∀ n, n ∉ done → status_of st n = Pending).

(** ** Strings that [str.format] leaves alone *)

(** [no_brace s]: [s] holds neither [{] nor [}], so that formatting it
    again returns it unchanged. *)
Fixpoint no_brace (s : string) : bool :=
  match s with
  | EmptyString => true
  | String c s' =>
      negb (Ascii.eqb c "{") && negb (Ascii.eqb c "}") && no_brace s'
  end.

(** The [-L] and [-I] entries [populate_env] builds from the toolchain and
    the host triplet. *)
Definition sysroot_lib (dirs : Dirs) (host : string) : string :=
  "-L" +:+ toolchain dirs +:+ "/" +:+ host +:+ "/sysroot/lib".

Definition sysroot_include (dirs : Dirs) (host : string) : string :=
  "-I" +:+ toolchain dirs +:+ "/" +:+ host +:+ "/sysroot/usr/include".

(** The three include directories under the prefix, as they appear in
    [CFLAGS], [CPPFLAGS] and [CXXFLAGS], in front of [rest]. *)
Definition prefix_includes (dirs : Dirs) (rest : string) : string :=
  "-I" +:+ prefix dirs +:+ "/include -I" +:+ prefix dirs +:+
  "/include/readline -I" +:+ prefix dirs +:+ "/include/ncursesw " +:+ rest.

(** The mapping [populate_env] leaves behind when [env] holds the host
    triplet [host] and the search path [path]. *)
Definition populated (dirs : Dirs) (host path : string) (env : Env) : Env :=
  <["PKG_CONFIG_PATH" := prefix dirs +:+ "/lib/pkgconfig"]>
  (<["LD_LIBRARY_PATH" := "{prefix}/lib"]>
  (<["CXXFLAGS" := prefix_includes dirs (sysroot_include dirs host)]>
  (<["CPPFLAGS" := prefix_includes dirs (sysroot_include dirs host)]>
  (<["CFLAGS" := "-g " +:+ prefix_includes dirs (sysroot_include dirs host)]>
  (<["LDFLAGS" := "-Wl,--build-id=sha1 -Wl,--rpath=" +:+ prefix dirs +:+
                  "/lib -L" +:+ prefix dirs +:+ "/lib " +:+
                  sysroot_lib dirs host +:+ " -static-libstdc++"]>
  (<["PATH" := toolchain dirs +:+ "/bin/:" +:+ prefix dirs +:+ "/bin/:" +:+ path]>
  (<["CXX" := toolchain dirs +:+ "/bin/" +:+ host +:+ "-g++ -no-pie"]>
  (<["CC" := toolchain dirs +:+ "/bin/" +:+ host +:+ "-gcc -no-pie"]>
   env)))))))).

(** ** Predicates on the runs of the build procedures *)

(** The commands of [build_python] that are started without [logfp]. *)
Definition python_seds : list RunCmd :=
  [sed_getaddrinfo; sed_implicit_decl; sed_readline].

(** [answered os_impl t evs]: each of the events [evs], issued in this order
    after [t], was answered without an error ([exists()] has no error
    answer). *)
Fixpoint answered (os_impl : list Event → Event → exn + unit)
    (t evs : list Event) : Prop :=
  match evs with
  | [] => True
  | e :: evs' =>
      match e with
      | EExists _ => True
      | _ => os_impl t e = inr tt
      end ∧ answered os_impl (t ++ [e]) evs'
  end.

(** [m] stops at the first action that fails: when it returns, everything
    it issued was answered without an error. *)
Definition fail_fast {A} (os_impl : list Event → Event → exn + unit)
    (m : M BState A) : Prop :=
  ∀ st, ∃ evs,
    bs_trace (snd (m st)) = bs_trace st ++ evs
    ∧ (∀ a, fst (m st) = inr a → answered os_impl (bs_trace st) evs).

(** A command that is given [env=] is given the mapping [env]. *)
Definition carries (env : Env) (e : Event) : Prop :=
  match e with
  | ERun c => ∀ env', rc_env c = Some env' → env' = env
  | _ => True
  end.

(** [m] issues nothing. *)
Definition quiet {A} (m : M BState A) : Prop :=
  ∀ st, bs_trace (snd (m st)) = bs_trace st.

(** Started with the mapping [env], [m] leaves it as it is and hands it to
    the commands it gives a mapping to. *)
Definition steady {A} (env : Env) (m : M BState A) : Prop :=
  ∀ st, bs_env st = env →
        bs_env (snd (m st)) = env
        ∧ ∃ evs, bs_trace (snd (m st)) = bs_trace st ++ evs
                 ∧ Forall (carries env) evs.

(** The commands of [m] are handed the mapping that [m] leaves behind. *)
Definition env_settled {A} (m : M BState A) : Prop :=
  ∀ st, ∃ evs, bs_trace (snd (m st)) = bs_trace st ++ evs
               ∧ Forall (carries (bs_env (snd (m st)))) evs.

(** The keys of [env] each procedure reads with [env[...]]. *)
Definition recipe_reads (r : Recipe) : list string :=
  match r with
  | r_bzip2 => ["LDFLAGS"; "CC"; "RELENV_HOST"]
  | r_libxcrypt | r_gdbm | r_libffi => ["RELENV_BUILD"; "RELENV_HOST"]
  | r_ncurses =>
      ["RELENV_BUILD_ARCH"; "RELENV_HOST_ARCH"; "RELENV_BUILD"; "RELENV_HOST"]
  | r_readline => ["LDFLAGS"; "RELENV_HOST"; "RELENV_BUILD"]
  | r_zlib => ["CFLAGS"]
  | r_sasl | r_libyaml | r_libsodium | r_libmd | r_libbsd | r_openldap =>
      ["RELENV_BUILD"; "RELENV_HOST"]
  | r_zeromq => ["LDFLAGS"; "CPPFLAGS"; "RELENV_BUILD"; "RELENV_HOST"]
  | r_krb =>
      ["RELENV_BUILD_ARCH"; "RELENV_HOST_ARCH"; "RELENV_BUILD"; "RELENV_HOST"]
  | r_python =>
      ["LDFLAGS"; "CFLAGS"; "RELENV_BUILD"; "RELENV_HOST"; "RELENV_HOST_ARCH";
       "RELENV_BUILD_ARCH"; "RELENV_NATIVE_PY"]
  end.

(** [m] removes no key of the mapping. *)
Definition adds_only {A} (m : M Env A) : Prop :=
  ∀ env k, is_Some (env !! k) → is_Some (snd (m env) !! k).

Definition keeps_keys {A} (m : M BState A) : Prop :=
  ∀ st k, is_Some (bs_env st !! k) → is_Some (bs_env (snd (m st)) !! k).

(** [m] removes no key and, when it raises, raises [KeyError] for a key of
    [K] that the mapping it was given does not hold. *)
Definition key_errors_only {A} (K : list string) (m : M BState A) : Prop :=
  keeps_keys m
  ∧ ∀ st e, fst (m st) = inl e →
            ∃ k, e = KeyError k ∧ k ∈ K ∧ bs_env st !! k = None.

(** The number of temporary files that the events [evs], issued after [t],
    opened: an [ETempOpen] counts when it was answered without an error. *)
Fixpoint opened (os_impl : list Event → Event → exn + unit)
    (t evs : list Event) : nat :=
  match evs with
  | [] => 0
  | e :: evs' =>
      match e with
      | ETempOpen _ =>
          match os_impl t e with inr _ => 1 | inl _ => 0 end
      | _ => 0
      end + opened os_impl (t ++ [e]) evs'
  end.

(** The number of temporary files that the events [evs] closed. *)
Fixpoint closed (evs : list Event) : nat :=
  match evs with
  | [] => 0
  | e :: evs' =>
      match e with ETempClose _ => 1 | _ => 0 end + closed evs'
  end.

(** [m] closes as many temporary files as it opens. *)
Definition balanced {A} (os_impl : list Event → Event → exn + unit)
    (m : M BState A) : Prop :=
  ∀ st, ∃ evs,
    bs_trace (snd (m st)) = bs_trace st ++ evs
    ∧ opened os_impl (bs_trace st) evs = closed evs.

(** The procedures that open with [env.get("CFLAGS", "")]. *)
Definition fpic_recipes : list Recipe :=
  [r_sasl; r_libyaml; r_libsodium; r_libmd; r_libbsd; r_zeromq; r_openldap].

(** A toolchain directory whose name holds a closing brace, and an
    environment that differs from [linux_sys] outside [RUSTFLAGS]. *)
Definition brace_dirs : Dirs :=
  {| toolchain := "/opt/tc}1"; prefix := "/p"; source := "/s"; tmpbuild := "/t" |}.

Definition home_linux_sys : Sys :=
  {| sys_platform := "linux"; sys_RELENV := Some (PyPath "/opt/relenv");
     os_environ := {[ "HOME" := "/root" ]} |}.

Definition empty_state : BState := {| bs_env := ∅; bs_trace := [] |}.

Definition main_start : MainState := {| ms_calls := []; ms_out := [] |}.

(** ** The step that ends a build *)

(** The names a step called [n] waits on, directly or through other steps,
    followed for at most [fuel] edges. *)
Fixpoint waits_closure (g : Graph) (fuel : nat) (n : string) : list string :=
  match fuel with
  | 0 => []
  | S fuel' =>
      match find_step g n with
      | Some s => wait_on s ++ flat_map (waits_closure g fuel') (wait_on s)
      | None => []
      end
  end.

Definition finalize_step : string := "relenv-finalize".

(** The graph has a step [finalize_step], every other step is waited on by
    it, directly or not, and no step waits on it. *)
Definition finalize_last (g : Graph) : bool :=
  bool_decide (finalize_step ∈ step_names g)
  && forallb (λ n, String.eqb n finalize_step
                   || bool_decide (n ∈ waits_closure g (length (g_steps g))
                                         finalize_step))
             (step_names g)
  && forallb (λ s, negb (bool_decide (finalize_step ∈ wait_on s))) (g_steps g).

(** The working directories of a build whose toolchain is the directory
    that [buildenv] computes from [sample_work_dirs] and
    [sample_triplet]. *)
Definition triplet_dirs : Dirs :=
  {| toolchain := "/root/.local/relenv/toolchain/x86_64-linux-gnu";
     prefix := "/p"; source := "/s"; tmpbuild := "/t" |}.

(** * Properties *)

(** Membership in an explicit list whose elements all differ from the one
    looked for. *)
Ltac absent :=
  let H := fresh "Hin" in
  intros H;
  repeat (apply elem_of_cons in H as [H|H]; [discriminate H|]);
  by apply elem_of_nil in H.

(** ** The helpers on small inputs *)

Example format_positional :
  format "{}/bin/{}-gcc" ["/tc"; "x86_64-linux-gnu"] ∅
  = inr "/tc/bin/x86_64-linux-gnu-gcc".
Proof. reflexivity. Qed.

Example format_keyword :
  format "-L{prefix}/lib" [] {[ "prefix" := "/p" ]} = inr "-L/p/lib".
Proof. vm_compute. reflexivity. Qed.

Example format_missing_keyword : format "{PATH}" [] ∅ = inl (KeyError "PATH").
Proof. vm_compute. reflexivity. Qed.

Example format_missing_positional : format "{}{}" ["a"] ∅ = inl IndexError.
Proof. reflexivity. Qed.

Example format_escaped_braces : format "{{x}}" [] ∅ = inr "{x}".
Proof. reflexivity. Qed.

Example format_single_brace :
  format "a}b" [] ∅ = inl (ValueError "Single '}' encountered in format string").
Proof. reflexivity. Qed.

Example str_contains_linux :
  str_contains "linux" "x86_64-linux-gnu" = true
  ∧ str_contains "linux" "arm64-apple-darwin" = false.
Proof. split; reflexivity. Qed.

Example path_join_relative : path_join "/s" "configure" = "/s/configure".
Proof. reflexivity. Qed.

(** Without [RELENV_HOST] the first line of [populate_env] raises and the
    mapping is untouched. *)
Example populate_env_needs_host :
  populate_env demo_dirs (<["PATH" := "/usr/bin"]> ∅)
  = (inl (KeyError "RELENV_HOST"), <["PATH" := "/usr/bin"]> ∅).
Proof. reflexivity. Qed.

(** On linux, inside a relenv environment, [buildenv] returns the fifteen
    entries of its dictionary display. *)
Example buildenv_on_linux :
  ∃ env, buildenv sample_work_dirs sample_triplet "10.15" linux_sys PyNone []
         = (inr env, [CallIsRelenv; CallWorkDirs; CallGetTriplet; CallGetTriplet])
         ∧ size env = 15
         ∧ env !! "CC"
           = Some "/root/.local/relenv/toolchain/x86_64-linux-gnu/bin/x86_64-linux-gnu-gcc -no-pie"
         ∧ env !! "RELENV_PATH" = Some "/opt/relenv".
Proof.
  eexists. split; [reflexivity|]. split; [|split]; vm_compute; reflexivity.
Qed.

(** ** [buildenv] *)

Section BuildenvFacts.
Variable work_dirs_impl : Sys → exn + WorkDirs.
Variable get_triplet_impl : Sys → exn + string.
Variable MACOS_DEVELOPMENT_TARGET : string.

Local Abbreviation buildenv' :=
  (buildenv work_dirs_impl get_triplet_impl MACOS_DEVELOPMENT_TARGET).

Lemma buildenv_dict_no_macos sys toolchain triplet relenv_path :
  buildenv_dict sys toolchain triplet relenv_path !! MACOS_KEY = None.
Proof.
  unfold buildenv_dict, MACOS_KEY.
  repeat (rewrite lookup_insert_ne; [|discriminate]).
  apply lookup_empty.
Qed.

(** Whatever the argument, a platform other than linux makes [buildenv]
    raise. *)
Lemma buildenv_raises_off_linux sys arg t :
  sys_platform sys ≠ "linux" →
  ∃ msg, fst (buildenv' sys arg t) = inl (RelenvException msg).
Proof.
  intros Hp. apply String.eqb_neq in Hp.
  unfold buildenv, bind, is_relenv, log_call, modify, ret, raise; simpl.
  destruct (truthy arg); simpl.
  - rewrite Hp; simpl. eauto.
  - destruct (sys_RELENV sys) as [p|] eqn:HR; simpl.
    + rewrite Hp; simpl. eauto.
    + eauto.
Qed.

(** A call that returns ran on linux, and what it returns has no
    [MACOS_DEVELOPMENT_TARGET] entry. *)
Lemma buildenv_returns_on_linux sys arg t env :
  fst (buildenv' sys arg t) = inr env →
  sys_platform sys = "linux" ∧ env !! MACOS_KEY = None.
Proof.
  destruct (String.eqb (sys_platform sys) "linux") eqn:Hp.
  - apply String.eqb_eq in Hp. intros H. split; [done|].
    revert H.
    unfold buildenv, bind, is_relenv, work_dirs, get_triplet, log_call,
      modify, ret, raise, lift; simpl.
    rewrite Hp; simpl.
    destruct (truthy arg); simpl;
      [|destruct (sys_RELENV sys) as [p|]; simpl; try discriminate];
      (destruct (work_dirs_impl sys); simpl; [discriminate|]);
      (destruct (get_triplet_impl sys); simpl; [discriminate|]);
      intros [= <-]; apply buildenv_dict_no_macos.
  - apply String.eqb_neq in Hp.
    destruct (buildenv_raises_off_linux sys arg t Hp) as [msg Hm].
    rewrite Hm. discriminate.
Qed.
End BuildenvFacts.

(** C9.  Whatever the argument, including an explicitly supplied
    [relenv_path], [buildenv] raises [RelenvException] when [sys.platform]
    is not ["linux"]; hence a call that returns did not run on darwin, and
    the mapping it returns has no [MACOS_DEVELOPMENT_TARGET] key. *)
Theorem buildenv_linux_only
    (wd : Sys → exn + WorkDirs) (gt : Sys → exn + string) (mac : string) :
  (∀ sys arg t,
     sys_platform sys ≠ "linux" →
     ∃ msg, fst (buildenv wd gt mac sys arg t) = inl (RelenvException msg))
  ∧ (∀ sys arg t env,
       fst (buildenv wd gt mac sys arg t) = inr env →
       sys_platform sys ≠ "darwin" ∧ env !! MACOS_KEY = None).
Proof.
  split.
  - intros sys arg t Hp. by apply buildenv_raises_off_linux.
  - intros sys arg t env H.
    destruct (buildenv_returns_on_linux _ _ _ _ _ _ _ H) as [Hl Hm].
    split; [|done]. rewrite Hl. discriminate.
Qed.

Lemma buildenv_linux_only_witness :
  (∃ msg, fst (buildenv sample_work_dirs sample_triplet "10.15"
                 darwin_sys (PyStr "/opt/relenv") []) = inl (RelenvException msg))
  ∧ (∃ env, fst (buildenv sample_work_dirs sample_triplet "10.15"
                   linux_sys PyNone []) = inr env
            ∧ env !! MACOS_KEY = None).
Proof.
  split.
  - apply (proj1 (buildenv_linux_only sample_work_dirs sample_triplet "10.15")).
    discriminate.
  - eexists. split; [reflexivity|].
    eapply (proj2 (buildenv_linux_only sample_work_dirs sample_triplet "10.15")
              linux_sys PyNone []).
    reflexivity.
Defined.

(** C10.  Called with no [relenv_path] (or a falsy one) outside a relenv
    environment, [buildenv] raises [RelenvException] right after the
    [is_relenv] check: neither [work_dirs] nor [get_triplet] has been
    called and no mapping is built.  Called with a [relenv_path],
    [is_relenv] is never consulted. *)
Theorem buildenv_relenv_check
    (wd : Sys → exn + WorkDirs) (gt : Sys → exn + string) (mac : string) :
  (∀ sys arg t,
     truthy arg = false → sys_RELENV sys = None →
     buildenv wd gt mac sys arg t
     = (inl (RelenvException "Not in a relenv environment"),
        t ++ [CallIsRelenv]))
  ∧ (∀ sys arg,
       truthy arg = true →
       CallIsRelenv ∉ snd (buildenv wd gt mac sys arg [])).
Proof.
  split.
  - intros sys arg t Ha Hr.
    unfold buildenv, bind, is_relenv, log_call, modify, ret, raise; simpl.
    rewrite Ha, Hr. reflexivity.
  - intros sys arg Ha.
    unfold buildenv, bind, work_dirs, get_triplet, log_call, modify, ret,
      raise, lift; simpl.
    rewrite Ha; simpl.
    destruct (negb (sys_platform sys =? "linux")); simpl; [absent|].
    destruct (wd sys); simpl; [absent|].
    destruct (gt sys); simpl; absent.
Qed.

Lemma buildenv_relenv_check_witness :
  buildenv sample_work_dirs sample_triplet "10.15" plain_linux_sys (PyStr "") []
  = (inl (RelenvException "Not in a relenv environment"), [CallIsRelenv])
  ∧ CallIsRelenv ∉ snd (buildenv sample_work_dirs sample_triplet "10.15"
                          plain_linux_sys (PyPath "/opt/relenv") []).
Proof.
  split.
  - apply (proj1 (buildenv_relenv_check sample_work_dirs sample_triplet "10.15")
             plain_linux_sys (PyStr "") []); reflexivity.
  - apply (proj2 (buildenv_relenv_check sample_work_dirs sample_triplet "10.15")
             plain_linux_sys (PyPath "/opt/relenv")); reflexivity.
Defined.

(** ** Which keys of [env] a computation assigns *)


Lemma wo_ret {A} K (a : A) : writes_only K (ret a).
Proof. by intros env k _. Qed.

Lemma wo_raise {A} K e : writes_only K (raise (A:=A) e).
Proof. by intros env k _. Qed.

Lemma wo_lift {A} K (r : exn + A) : writes_only K (lift r).
Proof. destruct r; [apply wo_raise|apply wo_ret]. Qed.

Lemma wo_get K : writes_only K get.
Proof. by intros env k _. Qed.

Lemma wo_env_get K x : writes_only K (env_get x).
Proof. intros env k _. unfold env_get. by destruct (env !! x). Qed.

Lemma wo_env_get_default K x d : writes_only K (env_get_default x d).
Proof. by intros env k _. Qed.

Lemma wo_env_set K x v : x ∈ K → writes_only K (env_set x v).
Proof.
  intros Hx env k Hk. unfold env_set, modify; simpl.
  apply lookup_insert_ne. intros ->. contradiction.
Qed.

Lemma wo_bind {A B} K (m : M Env A) (f : A → M Env B) :
  writes_only K m → (∀ a, writes_only K (f a)) → writes_only K (bind m f).
Proof.
  intros Hm Hf env k Hk. unfold bind.
  specialize (Hm env k Hk).
  destruct (m env) as [[e|a] env']; simpl in *; [done|].
  by rewrite (Hf a env' k Hk).
Qed.

(** Membership of a literal key in a literal list. *)
Ltac key_in :=
  unfold populate_env_keys;
  repeat first [apply list_elem_of_here | apply list_elem_of_further].

Ltac wo_step :=
  first
    [ apply wo_bind; [|intros ?]
    | apply wo_ret | apply wo_raise | apply wo_lift | apply wo_get
    | apply wo_env_get | apply wo_env_get_default
    | apply wo_env_set; key_in ].

Lemma populate_env_writes dirs : writes_only populate_env_keys (populate_env dirs).
Proof. unfold populate_env. repeat wo_step. Qed.

(** The two simple templates of [populate_env], evaluated. *)
Lemma format_cc tc host :
  format "{}/bin/{}-gcc -no-pie" [tc; host] ∅
  = inr (tc +:+ "/bin/" +:+ host +:+ "-gcc -no-pie").
Proof. reflexivity. Qed.

Lemma format_cxx tc host :
  format "{}/bin/{}-g++ -no-pie" [tc; host] ∅
  = inr (tc +:+ "/bin/" +:+ host +:+ "-g++ -no-pie").
Proof. reflexivity. Qed.

(** Inversion of a successful run, one primitive at a time. *)
Lemma bind_inr {S A B} (m : M S A) (f : A → M S B) s b s2 :
  bind m f s = (inr b, s2) →
  ∃ a s1, m s = (inr a, s1) ∧ f a s1 = (inr b, s2).
Proof.
  unfold bind. destruct (m s) as [[e|a] s1]; [discriminate|]. eauto.
Qed.

Lemma env_get_inr k env v env1 :
  env_get k env = (inr v, env1) → env !! k = Some v ∧ env1 = env.
Proof.
  unfold env_get. destruct (env !! k); [|discriminate].
  by intros [= -> ->].
Qed.

Lemma env_set_inr k v env u env1 :
  env_set k v env = (inr u, env1) → env1 = <[k := v]> env.
Proof. by intros [= _ <-]. Qed.

Lemma lift_inr {S A} (r : exn + A) (s : S) a s1 :
  lift r s = (inr a, s1) → r = inr a ∧ s1 = s.
Proof. destruct r; [discriminate|]. by intros [= -> ->]. Qed.

Lemma get_inr {S} (s : S) a s1 : get s = (inr a, s1) → a = s ∧ s1 = s.
Proof. by intros [= -> ->]. Qed.

Ltac invert_run H :=
  repeat
    (let a := fresh "a" in
     let s := fresh "s" in
     let H1 := fresh "H1" in
     apply bind_inr in H as (a & s & H1 & H);
     first [ apply env_get_inr in H1 as [H1 ->]
           | apply env_set_inr in H1 as ->
           | apply lift_inr in H1 as [H1 ->]
           | apply get_inr in H1 as [-> ->] ]).

(** When [populate_env] returns, [env] held [RELENV_HOST] and [PATH], and
    every key of [populate_env_keys] is now set; [CC] and [CXX] name the
    compilers of the toolchain. *)
Lemma populate_env_sets dirs env :
  fst (populate_env dirs env) = inr tt →
  ∃ host,
    env !! "RELENV_HOST" = Some host
    ∧ snd (populate_env dirs env) !! "CC"
      = Some (toolchain dirs +:+ "/bin/" +:+ host +:+ "-gcc -no-pie")
    ∧ snd (populate_env dirs env) !! "CXX"
      = Some (toolchain dirs +:+ "/bin/" +:+ host +:+ "-g++ -no-pie")
    ∧ snd (populate_env dirs env) !! "LD_LIBRARY_PATH" = Some "{prefix}/lib"
    ∧ snd (populate_env dirs env) !! "PKG_CONFIG_PATH"
      = Some (prefix dirs +:+ "/lib/pkgconfig")
    ∧ ∀ k, k ∈ populate_env_keys → is_Some (snd (populate_env dirs env) !! k).
Proof.
  destruct (populate_env dirs env) as [r env'] eqn:H; simpl.
  intros ->. unfold populate_env in H.
  invert_run H. apply env_set_inr in H as ->.
  rewrite lookup_insert_ne in H2 by discriminate.
  rewrite H1 in H2. injection H2 as <-.
  rewrite format_cc in H0. injection H0 as <-.
  rewrite format_cxx in H3. injection H3 as <-.
  exists a. split; [done|].
  repeat split;
    try (repeat (rewrite lookup_insert_ne; [|discriminate]);
         by rewrite lookup_insert_eq).
  intros k Hk. unfold populate_env_keys in Hk.
  repeat (apply elem_of_cons in Hk as [->|Hk];
          [repeat (rewrite lookup_insert_ne; [|discriminate]);
           rewrite lookup_insert_eq; eauto|]).
  by apply elem_of_nil in Hk.
Qed.

(** C6, as stated, fails: on an ordinary environment [populate_env] returns
    normally and the caller's mapping is no longer what it was: it has
    gained [CC]. *)
Lemma populate_env_mutates_env :
  fst (populate_env demo_dirs demo_env) = inr tt
  ∧ demo_env !! "CC" = None
  ∧ snd (populate_env demo_dirs demo_env) !! "CC"
    = Some "/tc/bin/x86_64-linux-gnu-gcc -no-pie"
  ∧ snd (populate_env demo_dirs demo_env) ≠ demo_env.
Proof.
  assert (H : snd (populate_env demo_dirs demo_env) !! "CC"
              = Some "/tc/bin/x86_64-linux-gnu-gcc -no-pie")
    by (vm_compute; reflexivity).
  split; [vm_compute; reflexivity|].
  split; [vm_compute; reflexivity|].
  split; [exact H|].
  intros E. rewrite E in H. vm_compute in H. discriminate.
Qed.

(** C6, amended.  [populate_env] is deterministic but works by updating the
    mapping it is given: it leaves every key outside [populate_env_keys]
    unchanged whatever the outcome; when it returns, [env] held
    [RELENV_HOST] and all nine keys are set, [CC] and [CXX] to the
    toolchain's compilers for that host, [LD_LIBRARY_PATH] to the literal
    ["{prefix}/lib"] and [PKG_CONFIG_PATH] under the prefix; and equal
    inputs give equal results. *)
Theorem populate_env_in_place (dirs : Dirs) (env : Env) :
  (∀ k, k ∉ populate_env_keys → snd (populate_env dirs env) !! k = env !! k)
  ∧ (fst (populate_env dirs env) = inr tt →
     ∃ host,
       env !! "RELENV_HOST" = Some host
       ∧ snd (populate_env dirs env) !! "CC"
         = Some (toolchain dirs +:+ "/bin/" +:+ host +:+ "-gcc -no-pie")
       ∧ snd (populate_env dirs env) !! "CXX"
         = Some (toolchain dirs +:+ "/bin/" +:+ host +:+ "-g++ -no-pie")
       ∧ snd (populate_env dirs env) !! "LD_LIBRARY_PATH" = Some "{prefix}/lib"
       ∧ snd (populate_env dirs env) !! "PKG_CONFIG_PATH"
         = Some (prefix dirs +:+ "/lib/pkgconfig")
       ∧ ∀ k, k ∈ populate_env_keys →
              is_Some (snd (populate_env dirs env) !! k))
  ∧ (∀ dirs' env', dirs' = dirs → env' = env →
       populate_env dirs' env' = populate_env dirs env).
Proof.
  split; [|split].
  - intros k Hk. by apply populate_env_writes.
  - apply populate_env_sets.
  - by intros dirs' env' -> ->.
Qed.

Lemma populate_env_in_place_witness :
  snd (populate_env demo_dirs demo_env) !! "RELENV_HOST"
  = Some "x86_64-linux-gnu"
  ∧ ∃ host,
      demo_env !! "RELENV_HOST" = Some host
      ∧ snd (populate_env demo_dirs demo_env) !! "CC"
        = Some ("/tc" +:+ "/bin/" +:+ host +:+ "-gcc -no-pie").
Proof.
  split.
  - rewrite (proj1 (populate_env_in_place demo_dirs demo_env) "RELENV_HOST").
    + reflexivity.
    + unfold populate_env_keys. absent.
  - destruct (proj1 (proj2 (populate_env_in_place demo_dirs demo_env)))
      as (host & Hh & Hcc & _).
    + vm_compute. reflexivity.
    + exists host. split; [exact Hh | exact Hcc].
Defined.

(** ** Which keys of [env] a build procedure assigns *)


Section Keeps.
Variable os_impl : list Event → Event → exn + unit.
Variable exists_impl : list Event → string → bool.
Variable tmp_name : list Event → string → string.

Lemma keeps_ret {A} K (a : A) : keeps K (ret a).
Proof. by intros st k _. Qed.

Lemma keeps_bind {A B} K (m : M BState A) (f : A → M BState B) :
  keeps K m → (∀ a, keeps K (f a)) → keeps K (bind m f).
Proof.
  intros Hm Hf st k Hk. unfold bind.
  specialize (Hm st k Hk).
  destruct (m st) as [[e|a] st']; simpl in *; [done|].
  by rewrite (Hf a st' k Hk).
Qed.

Lemma keeps_on_env {A} K (m : M Env A) : writes_only K m → keeps K (on_env m).
Proof.
  intros Hm st k Hk. unfold on_env.
  specialize (Hm (bs_env st) k Hk).
  by destruct (m (bs_env st)) as [r env'].
Qed.

Lemma keeps_emit K e : keeps K (emit os_impl e).
Proof. intros st k _. unfold emit. by destruct (os_impl _ _). Qed.

Lemma keeps_runcmd K cmd env err out : keeps K (runcmd os_impl cmd env err out).
Proof. apply keeps_emit. Qed.

Lemma keeps_path_exists K p : keeps K (path_exists exists_impl p).
Proof. by intros st k _. Qed.

Lemma keeps_finally {A} K (m : M BState A) (c : M BState unit) :
  keeps K m → keeps K c → keeps K (finally m c).
Proof.
  intros Hm Hc st k Hk. unfold finally.
  specialize (Hm st k Hk).
  destruct (m st) as [r st']; simpl in *.
  specialize (Hc st' k Hk).
  destruct (c st') as [[e|u] st'']; simpl in *; congruence.
Qed.

Lemma keeps_with_tempfile {A} K suffix (body : string → M BState A) :
  (∀ n, keeps K (body n)) → keeps K (with_tempfile os_impl tmp_name suffix body).
Proof.
  intros Hb. unfold with_tempfile.
  apply keeps_bind; [by intros st k _|]. intros n.
  apply keeps_bind; [apply keeps_emit|]. intros _.
  apply keeps_finally; [apply Hb|apply keeps_emit].
Qed.

Lemma keeps_make_and_install K logfp : keeps K (make_and_install os_impl logfp).
Proof.
  unfold make_and_install.
  repeat first [ apply keeps_bind; [|intros ?] | apply keeps_runcmd
               | apply keeps_on_env, wo_get ].
Qed.
End Keeps.

Ltac keeps_step :=
  first
    [ apply keeps_make_and_install
    | apply keeps_with_tempfile; intros ?
    | apply keeps_runcmd
    | apply keeps_emit
    | apply keeps_path_exists
    | apply keeps_ret
    | apply keeps_on_env; wo_step
    | apply keeps_bind; [|intros ?]
    | match goal with
      | |- keeps _ (if ?b then _ else _) => destruct b
      end ].

Ltac keeps_auto := repeat keeps_step.

Section RecipeFacts.
Variable os_impl : list Event → Event → exn + unit.
Variable exists_impl : list Event → string → bool.
Variable tmp_name : list Event → string → string.

Lemma recipe_keeps r dirs logfp :
  keeps (recipe_keys r) (recipe_run os_impl exists_impl tmp_name r dirs logfp).
Proof.
  destruct r; simpl;
    unfold build_bzip2, build_libxcrypt, build_gdbm, build_ncurses,
      build_readline, build_libffi, build_zlib, build_sasl, build_libyaml,
      build_libsodium, build_libmd, build_libbsd, build_zeromq,
      build_openldap, build_krb, build_python, set_fpic_cflags,
      configure_libdir;
    keeps_auto.
Qed.

(** Running [m] after a first step that succeeded. *)
Lemma bind_run {A B} (m : M BState A) (f : A → M BState B) st a st1 :
  m st = (inr a, st1) → bind m f st = f a st1.
Proof. intros H. unfold bind. by rewrite H. Qed.

Lemma on_env_get_run k v st :
  bs_env st !! k = Some v → on_env (env_get k) st = (inr v, st).
Proof.
  intros H. unfold on_env, env_get. rewrite H. by destruct st.
Qed.

Lemma on_env_get_default_run k d st :
  on_env (env_get_default k d) st = (inr (default d (bs_env st !! k)), st).
Proof. unfold on_env, env_get_default. by destruct st. Qed.

Lemma on_env_set_run k v st :
  on_env (env_set k v) st
  = (inr tt, {| bs_env := <[k := v]> (bs_env st); bs_trace := bs_trace st |}).
Proof. reflexivity. Qed.

(** [build_readline] appends [-ltinfow] to [LDFLAGS]. *)
Lemma build_readline_ldflags dirs logfp st v :
  bs_env st !! "LDFLAGS" = Some v →
  bs_env (snd (build_readline os_impl dirs logfp st)) !! "LDFLAGS"
  = Some (v +:+ " -ltinfow").
Proof.
  intros Hv. unfold build_readline.
  rewrite (bind_run _ _ _ _ _ (on_env_get_run _ _ _ Hv)).
  rewrite (bind_run _ _ _ _ _ (on_env_set_run _ _ _)).
  match goal with
  | |- bs_env (snd (?rest ?st1)) !! _ = _ =>
      assert (Hk : keeps [] rest) by keeps_auto;
      rewrite (Hk st1 "LDFLAGS") by absent
  end.
  apply lookup_insert_eq.
Qed.

(** [build_zlib] puts [-fPIC] in front of [CFLAGS]. *)
Lemma build_zlib_cflags dirs logfp st v :
  bs_env st !! "CFLAGS" = Some v →
  bs_env (snd (build_zlib os_impl dirs logfp st)) !! "CFLAGS"
  = Some ("-fPIC " +:+ v).
Proof.
  intros Hv. unfold build_zlib.
  rewrite (bind_run _ _ _ _ _ (on_env_get_run _ _ _ Hv)).
  rewrite (bind_run _ _ _ _ _ (on_env_set_run _ _ _)).
  match goal with
  | |- bs_env (snd (?rest ?st1)) !! _ = _ =>
      assert (Hk : keeps [] rest) by keeps_auto;
      rewrite (Hk st1 "CFLAGS") by absent
  end.
  apply lookup_insert_eq.
Qed.

Lemma set_fpic_cflags_run st :
  set_fpic_cflags st
  = (inr tt,
     {| bs_env := <["CFLAGS" := "-fPIC " +:+ default "" (bs_env st !! "CFLAGS")]>
                    (bs_env st);
        bs_trace := bs_trace st |}).
Proof. reflexivity. Qed.

(** [build_zeromq] rewrites five entries of [env]. *)
Lemma build_zeromq_env dirs logfp st l c :
  bs_env st !! "LDFLAGS" = Some l →
  bs_env st !! "CPPFLAGS" = Some c →
  let env' := bs_env (snd (build_zeromq os_impl dirs logfp st)) in
  env' !! "CFLAGS" = Some ("-fPIC " +:+ default "" (bs_env st !! "CFLAGS"))
  ∧ env' !! "LDFLAGS" = Some (l +:+ " -lbsd -lsodium")
  ∧ env' !! "CPPFLAGS" = Some (c +:+ " -I" +:+ prefix dirs +:+ "/include")
  ∧ env' !! "PKG_CONFIG_PATH" = Some (prefix dirs +:+ "/lib/pkgconfig")
  ∧ env' !! "LD_LIBRARY_PATH"
    = Some (prefix dirs +:+ "/lib:" +:+
            default "" (bs_env st !! "LD_LIBRARY_PATH")).
Proof.
  intros Hl Hc env'. subst env'. unfold build_zeromq.
  rewrite (bind_run _ _ _ _ _ (set_fpic_cflags_run _)).
  erewrite bind_run;
    [|apply on_env_get_run; simpl;
      rewrite lookup_insert_ne by discriminate; exact Hl].
  rewrite (bind_run _ _ _ _ _ (on_env_set_run _ _ _)).
  erewrite bind_run;
    [|apply on_env_get_run; simpl;
      rewrite !lookup_insert_ne by discriminate; exact Hc].
  rewrite (bind_run _ _ _ _ _ (on_env_set_run _ _ _)).
  rewrite (bind_run _ _ _ _ _ (on_env_set_run _ _ _)).
  rewrite (bind_run _ _ _ _ _ (on_env_get_default_run _ _ _)).
  rewrite (bind_run _ _ _ _ _ (on_env_set_run _ _ _)).
  match goal with
  | |- context [bs_env (snd (?rest ?st1))] =>
      assert (Hk : keeps [] rest)
        by (unfold configure_libdir; keeps_auto);
      rewrite !(Hk st1) by absent
  end.
  simpl.
  repeat split;
    repeat (rewrite lookup_insert_ne; [|discriminate]);
    try apply lookup_insert_eq.
  rewrite lookup_insert_eq.
  by repeat (rewrite lookup_insert_ne; [|discriminate]).
Qed.
End RecipeFacts.

(** ** What a build procedure adds to the trace *)


Section Emits.
Variable os_impl : list Event → Event → exn + unit.
Variable exists_impl : list Event → string → bool.
Variable tmp_name : list Event → string → string.
Variable P : Event → Prop.

Lemma emits_ret {A} (a : A) : emits P (ret a).
Proof. intros st. exists []. by rewrite app_nil_r. Qed.

Lemma emits_bind {A B} (m : M BState A) (f : A → M BState B) :
  emits P m → (∀ a, emits P (f a)) → emits P (bind m f).
Proof.
  intros Hm Hf st. unfold bind.
  destruct (Hm st) as (e1 & E1 & F1).
  destruct (m st) as [[e|a] st']; simpl in *; [eauto|].
  destruct (Hf a st') as (e2 & E2 & F2).
  exists (e1 ++ e2). rewrite E2, E1, app_assoc. split; [done|].
  by apply Forall_app.
Qed.

Lemma emits_on_env {A} (m : M Env A) : emits P (on_env m).
Proof.
  intros st. exists []. unfold on_env.
  destruct (m (bs_env st)); simpl. by rewrite app_nil_r.
Qed.

Lemma emits_emit e : P e → emits P (emit os_impl e).
Proof.
  intros He st. exists [e]. unfold emit.
  destruct (os_impl _ _); simpl; (split; [done|by apply Forall_singleton]).
Qed.

Lemma emits_path_exists p : P (EExists p) → emits P (path_exists exists_impl p).
Proof. intros He st. exists [EExists p]. split; [done|by apply Forall_singleton]. Qed.

Lemma emits_finally {A} (m : M BState A) (c : M BState unit) :
  emits P m → emits P c → emits P (finally m c).
Proof.
  intros Hm Hc st. unfold finally.
  destruct (Hm st) as (e1 & E1 & F1).
  destruct (m st) as [r st']; simpl in *.
  destruct (Hc st') as (e2 & E2 & F2).
  exists (e1 ++ e2).
  destruct (c st') as [[e|u] st'']; simpl in *;
    rewrite E2, E1, app_assoc; (split; [done|by apply Forall_app]).
Qed.

Lemma emits_with_tempfile {A} suffix (body : string → M BState A) :
  P (ETempOpen suffix) → (∀ n, P (ETempClose n)) →
  (∀ n, emits P (body n)) →
  emits P (with_tempfile os_impl tmp_name suffix body).
Proof.
  intros Ho Hc Hb. unfold with_tempfile.
  apply emits_bind.
  { intros st. exists []. by rewrite app_nil_r. }
  intros n. apply emits_bind; [by apply emits_emit|]. intros _.
  apply emits_finally; [apply Hb|by apply emits_emit].
Qed.
End Emits.

Ltac emits_step :=
  first
    [ apply emits_with_tempfile; [exact I | intros ?; exact I | intros ?]
    | apply emits_emit; simpl; try exact I; try (split; reflexivity)
    | apply emits_path_exists; exact I
    | apply emits_ret
    | apply emits_on_env
    | apply emits_bind; [|intros ?]
    | match goal with
      | |- emits _ (if ?b then _ else _) => destruct b
      end ].

Section LogFacts.
Variable os_impl : list Event → Event → exn + unit.
Variable exists_impl : list Event → string → bool.
Variable tmp_name : list Event → string → string.

(** Every procedure other than [build_python] hands both streams of each
    of its commands to [logfp]. *)
Lemma recipes_log_everything r dirs logfp :
  r ≠ r_python →
  emits (logged logfp) (recipe_run os_impl exists_impl tmp_name r dirs logfp).
Proof.
  intros Hr. destruct r; try done; simpl;
    unfold build_bzip2, build_libxcrypt, build_gdbm, build_ncurses,
      build_readline, build_libffi, build_zlib, build_sasl, build_libyaml,
      build_libsodium, build_libmd, build_libbsd, build_zeromq,
      build_openldap, build_krb, set_fpic_cflags,
      configure_libdir, make_and_install, runcmd;
    repeat emits_step.
Qed.
End LogFacts.

(** C7, as stated, fails: [build_readline], run where every command
    succeeds, returns with the [LDFLAGS] entry of the caller's mapping
    rewritten. *)
Lemma build_readline_mutates_env :
  fst (build_readline ok_os demo_dirs 3 recipe_state) = inr tt
  ∧ bs_env recipe_state !! "LDFLAGS" = Some "-L/p/lib"
  ∧ bs_env (snd (build_readline ok_os demo_dirs 3 recipe_state)) !! "LDFLAGS"
    = Some "-L/p/lib -ltinfow"
  ∧ bs_env (snd (build_readline ok_os demo_dirs 3 recipe_state))
    ≠ bs_env recipe_state.
Proof.
  assert (H : bs_env (snd (build_readline ok_os demo_dirs 3 recipe_state))
                !! "LDFLAGS" = Some "-L/p/lib -ltinfow")
    by (vm_compute; reflexivity).
  split; [vm_compute; reflexivity|].
  split; [vm_compute; reflexivity|].
  split; [exact H|].
  intros E. rewrite E in H. vm_compute in H. discriminate.
Qed.

(** C7, amended.  A build procedure may assign entries of the [env] mapping
    it is given, and only those listed for it in [recipe_keys]: whatever
    the outcome of its commands, every other key is as before the call (so
    [build_bzip2], [build_libxcrypt], [build_gdbm], [build_ncurses] and
    [build_libffi] leave the mapping unchanged).  In particular
    [build_readline] appends [-ltinfow] to [LDFLAGS], [build_zlib] puts
    [-fPIC] in front of [CFLAGS], and [build_zeromq] rewrites [CFLAGS],
    [LDFLAGS], [CPPFLAGS], [PKG_CONFIG_PATH] and [LD_LIBRARY_PATH]. *)
Theorem recipes_assign_listed_keys
    (os_impl : list Event → Event → exn + unit)
    (exists_impl : list Event → string → bool)
    (tmp_name : list Event → string → string) :
  (∀ r dirs logfp st k,
     k ∉ recipe_keys r →
     bs_env (snd (recipe_run os_impl exists_impl tmp_name r dirs logfp st)) !! k
     = bs_env st !! k)
  ∧ (∀ r dirs logfp st,
       recipe_keys r = [] →
       bs_env (snd (recipe_run os_impl exists_impl tmp_name r dirs logfp st))
       = bs_env st)
  ∧ (∀ dirs logfp st v,
       bs_env st !! "LDFLAGS" = Some v →
       bs_env (snd (build_readline os_impl dirs logfp st)) !! "LDFLAGS"
       = Some (v +:+ " -ltinfow"))
  ∧ (∀ dirs logfp st v,
       bs_env st !! "CFLAGS" = Some v →
       bs_env (snd (build_zlib os_impl dirs logfp st)) !! "CFLAGS"
       = Some ("-fPIC " +:+ v))
  ∧ (∀ dirs logfp st l c,
       bs_env st !! "LDFLAGS" = Some l →
       bs_env st !! "CPPFLAGS" = Some c →
       let env' := bs_env (snd (build_zeromq os_impl dirs logfp st)) in
       env' !! "CFLAGS" = Some ("-fPIC " +:+ default "" (bs_env st !! "CFLAGS"))
       ∧ env' !! "LDFLAGS" = Some (l +:+ " -lbsd -lsodium")
       ∧ env' !! "CPPFLAGS" = Some (c +:+ " -I" +:+ prefix dirs +:+ "/include")
       ∧ env' !! "PKG_CONFIG_PATH" = Some (prefix dirs +:+ "/lib/pkgconfig")
       ∧ env' !! "LD_LIBRARY_PATH"
         = Some (prefix dirs +:+ "/lib:" +:+
                 default "" (bs_env st !! "LD_LIBRARY_PATH"))).
Proof.
  split; [|split; [|split; [|split]]].
  - intros r dirs logfp st k Hk. by apply recipe_keeps.
  - intros r dirs logfp st Hr. apply map_eq. intros k.
    apply recipe_keeps. rewrite Hr. apply not_elem_of_nil.
  - apply build_readline_ldflags.
  - apply build_zlib_cflags.
  - apply build_zeromq_env.
Qed.

Lemma recipes_assign_listed_keys_witness :
  bs_env (snd (recipe_run ok_os no_file tmp_x r_zlib demo_dirs 3 recipe_state))
    !! "LDFLAGS" = Some "-L/p/lib"
  ∧ bs_env (snd (recipe_run ok_os no_file tmp_x r_gdbm demo_dirs 3 recipe_state))
    = recipe_env
  ∧ bs_env (snd (build_readline ok_os demo_dirs 3 recipe_state)) !! "LDFLAGS"
    = Some ("-L/p/lib" +:+ " -ltinfow")
  ∧ bs_env (snd (build_zlib ok_os demo_dirs 3 recipe_state)) !! "CFLAGS"
    = Some ("-fPIC " +:+ "-g")
  ∧ bs_env (snd (build_zeromq ok_os demo_dirs 3 recipe_state)) !! "LDFLAGS"
    = Some ("-L/p/lib" +:+ " -lbsd -lsodium").
Proof.
  pose proof (recipes_assign_listed_keys ok_os no_file tmp_x)
    as (Hframe & Hnone & Hrl & Hz & Hzmq).
  split; [|split; [|split; [|split]]].
  - rewrite (Hframe r_zlib demo_dirs 3 recipe_state "LDFLAGS").
    + reflexivity.
    + simpl. absent.
  - apply (Hnone r_gdbm demo_dirs 3 recipe_state). reflexivity.
  - apply (Hrl demo_dirs 3 recipe_state). reflexivity.
  - apply (Hz demo_dirs 3 recipe_state). reflexivity.
  - apply (Hzmq demo_dirs 3 recipe_state "-L/p/lib" "-I/p/include");
      reflexivity.
Defined.

(** C8.  [build_python] starts a subprocess whose output does not go to the
    log sink: once [LDFLAGS] has been read, its first command is the [sed]
    over [configure], issued with neither [stdout] nor [stderr]. *)
Theorem build_python_bypasses_log
    (os_impl : list Event → Event → exn + unit)
    (exists_impl : list Event → string → bool)
    (tmp_name : list Event → string → string)
    (dirs : Dirs) (logfp : Handle) (st : BState) (v : string) :
  bs_env st !! "LDFLAGS" = Some v →
  ∃ rest,
    bs_trace (snd (build_python os_impl exists_impl tmp_name dirs logfp st))
    = bs_trace st ++ ERun sed_getaddrinfo :: rest
    ∧ ¬ logged logfp (ERun sed_getaddrinfo).
Proof.
  intros Hv. unfold build_python.
  rewrite (bind_run _ _ _ _ _ (on_env_get_run _ _ _ Hv)).
  rewrite (bind_run _ _ _ _ _ (on_env_set_run _ _ _)).
  unfold bind at 1. unfold runcmd at 1, emit at 1.
  fold sed_getaddrinfo. cbn [bs_trace bs_env].
  destruct (os_impl (bs_trace st) (ERun sed_getaddrinfo)) as [e|[]].
  - exists []. split; [reflexivity|]. by intros [? _].
  - match goal with
    | |- ∃ _, bs_trace (snd (?rest0 ?st1)) = _ ∧ _ =>
        assert (He : emits (λ _, True) rest0)
          by (unfold make_and_install, runcmd; repeat emits_step);
        destruct (He st1) as (evs & E & _)
    end.
    exists evs. rewrite E. cbn [bs_trace].
    rewrite <- app_assoc. split; [reflexivity|]. by intros [? _].
Qed.

Lemma build_python_bypasses_log_witness :
  (∃ rest,
     bs_trace (snd (build_python ok_os no_file tmp_x demo_dirs 7 recipe_state))
     = [] ++ ERun sed_getaddrinfo :: rest
     ∧ ¬ logged 7 (ERun sed_getaddrinfo))
  ∧ fst (build_python ok_os no_file tmp_x demo_dirs 7 recipe_state) = inr tt
  ∧ unlogged_runs 7
      (bs_trace (snd (build_python ok_os no_file tmp_x demo_dirs 7 recipe_state)))
    = [sed_getaddrinfo; sed_implicit_decl; sed_readline].
Proof.
  split; [|split].
  - apply (build_python_bypasses_log ok_os no_file tmp_x demo_dirs 7
             recipe_state "-L/p/lib").
    reflexivity.
  - vm_compute. reflexivity.
  - vm_compute. reflexivity.
Defined.

(** ** The shape of a graph registered in order *)

Lemma index_of_seen n l r : n ∈ l → index_of n (l ++ r) < length l.
Proof.
  induction l as [|x l IH]; intros Hn; [by apply elem_of_nil in Hn|].
  simpl. destruct (decide (x = n)); [lia|].
  apply elem_of_cons in Hn as [->|Hn]; [done|].
  specialize (IH Hn). lia.
Qed.

Lemma index_of_new n l r : n ∉ l → index_of n (l ++ n :: r) = length l.
Proof.
  induction l as [|x l IH]; intros Hn; simpl.
  - by rewrite decide_True.
  - apply not_elem_of_cons in Hn as [Hx Hn].
    rewrite decide_False by done. by rewrite IH.
Qed.

(** In a graph registered in order every edge goes back in the list. *)
Lemma registered_in_order_edges seen steps :
  registered_in_order seen steps = true →
  ∀ s d, s ∈ steps → d ∈ wait_on s →
    d ∈ seen ++ (name <$> steps)
    ∧ index_of d (seen ++ (name <$> steps))
      < index_of (name s) (seen ++ (name <$> steps)).
Proof.
  revert seen. induction steps as [|s0 rest IH]; intros seen Hc s d Hs Hd.
  { by apply elem_of_nil in Hs. }
  simpl in Hc. apply andb_true_iff in Hc as [Hc Hrest].
  apply andb_true_iff in Hc as [Hdeps Hnew].
  apply bool_decide_eq_true in Hnew.
  apply elem_of_cons in Hs as [->|Hs].
  - rewrite forallb_forall in Hdeps.
    assert (Hin : d ∈ seen).
    { apply list_elem_of_In in Hd. specialize (Hdeps d Hd).
      by apply bool_decide_eq_true in Hdeps. }
    split; [apply elem_of_app; by left|].
    simpl. rewrite index_of_new by done. by apply index_of_seen.
  - specialize (IH (seen ++ [name s0]) Hrest s d Hs Hd).
    rewrite <- app_assoc in IH. exact IH.
Qed.

Lemma registered_in_order_no_dangling g :
  registered_in_order [] (g_steps g) = true → no_dangling g.
Proof.
  intros Hc s d Hs Hd.
  by destruct (registered_in_order_edges [] _ Hc s d Hs Hd) as [? _].
Qed.

Lemma registered_in_order_acyclic g :
  registered_in_order [] (g_steps g) = true → acyclic g.
Proof.
  intros Hc.
  assert (Hlt : ∀ a b, tc (edge g) a b →
                  index_of b (step_names g) < index_of a (step_names g)).
  { intros a b Hab. induction Hab as [a b (s & Hs & <- & Hd)|a b c (s & Hs & <- & Hd) _ IH].
    - by destruct (registered_in_order_edges [] _ Hc s b Hs Hd) as [_ ?].
    - destruct (registered_in_order_edges [] _ Hc s b Hs Hd) as [_ ?].
      unfold step_names in *. simpl in *. lia. }
  intros a Ha. specialize (Hlt a a Ha). lia.
Qed.

(** The four graphs [linux.py] registers, read from the store. *)
Lemma loaded_variants : variants loaded "linux" = [0; 1; 2; 3].
Proof. vm_compute. reflexivity. Qed.

Lemma module_load_succeeds : fst (module_load empty_heap) = inr tt.
Proof. vm_compute. reflexivity. Qed.

(** C3.  Each graph registered for linux when the module is loaded has no
    dangling edge (every name in a [wait_on] is the name of one of its
    steps) and its [wait_on] relation has no cycle. *)
Theorem linux_graphs_well_formed :
  fst (module_load empty_heap) = inr tt
  ∧ variants loaded "linux" = [0; 1; 2; 3]
  ∧ Forall (λ b, ∃ g, graph_of loaded b = Some g
                      ∧ no_dangling g ∧ acyclic g)
           (variants loaded "linux").
Proof.
  split; [apply module_load_succeeds|].
  split; [apply loaded_variants|].
  rewrite loaded_variants.
  repeat (apply Forall_cons; split;
          [eexists; split; [vm_compute; reflexivity|];
           split;
           [apply registered_in_order_no_dangling
           |apply registered_in_order_acyclic];
           vm_compute; reflexivity|]).
  constructor.
Qed.

(** ** The versions of the registered graphs *)

(** C5.  In the graph registered first the interpreter step downloads the
    graph-wide version, 3.10.16.  In each graph obtained by [copy] the
    interpreter step downloads the version and checksum given to [copy],
    which is also the graph-wide version of the copy, and every other step
    is as in the graph copied from. *)
Theorem linux_interpreter_versions :
  ∃ g0 g1 g2 g3,
    graph_of loaded 0 = Some g0 ∧ graph_of loaded 1 = Some g1
    ∧ graph_of loaded 2 = Some g2 ∧ graph_of loaded 3 = Some g3
    ∧ g_version g0 = "3.10.16"
    ∧ download_id g0 "python"
      = Some (g_version g0, "401e6a504a956c8f0aab76c4f3ad9df601a83eb1")
    ∧ g_version g1 = "3.11.11"
    ∧ download_id g1 "python"
      = Some (g_version g1, "acf539109b024d3c5f1fc63d6e7f08cd294ba56d")
    ∧ g_version g2 = "3.12.8"
    ∧ download_id g2 "python"
      = Some (g_version g2, "8872c7a124c6970833e0bde4f25d6d7d61c6af6e")
    ∧ g_version g3 = "3.13.1"
    ∧ download_id g3 "python"
      = Some (g_version g3, "4b0c2a49a848c3c5d611416099636262a0b9090f")
    ∧ dependency_steps g1 = dependency_steps g0
    ∧ dependency_steps g2 = dependency_steps g0
    ∧ dependency_steps g3 = dependency_steps g0
    ∧ length (dependency_steps g0) = 22
    ∧ length (g_steps g0) = 23.
Proof.
  do 4 eexists.
  repeat (split; [vm_compute; reflexivity|]).
  vm_compute; reflexivity.
Qed.

(** ** Copies and the store *)


Lemma grows_refl b h : grows b h h.
Proof. split; [exists []; by rewrite app_nil_r|done]. Qed.

Lemma grows_trans b h1 h2 h3 : grows b h1 h2 → grows b h2 h3 → grows b h1 h3.
Proof.
  intros [[e1 E1] B1] [[e2 E2] B2]. split.
  - exists (e1 ++ e2). by rewrite E2, E1, app_assoc.
  - by rewrite B2.
Qed.

Lemma read_steps_app store ex refs ss :
  read_steps store refs = Some ss → read_steps (store ++ ex) refs = Some ss.
Proof.
  revert ss. induction refs as [|[n l] refs IH]; intros ss; simpl; [done|].
  destruct (store !! l) as [s|] eqn:Hl; [|discriminate].
  destruct (read_steps store refs) as [ss'|]; [|discriminate].
  rewrite (lookup_app_l_Some _ _ _ _ Hl), (IH ss' eq_refl).
  done.
Qed.

(** A graph that can be read is read the same in any store that grew. *)
Lemma graph_of_grows b h h' g :
  grows b h h' → graph_of h b = Some g → graph_of h' b = Some g.
Proof.
  intros [[ex E] B]. unfold graph_of. rewrite B.
  destruct (h_builders h !! b) as [x|]; [|discriminate].
  destruct (read_steps (h_steps h) (b_steps x)) as [ss|] eqn:R; [|discriminate].
  intros [= <-]. by rewrite E, (read_steps_app _ _ _ _ R).
Qed.

Lemma build_add_grows b b' nm bf deps dl h :
  b ≠ b' → grows b h (snd (build_add b' nm bf deps dl h)).
Proof.
  intros Hne. unfold build_add, bind, read_builder.
  destruct (h_builders h !! b') as [x|]; [|apply grows_refl].
  destruct (bool_decide _); [apply grows_refl|].
  simpl. split; simpl; [eauto|].
  by apply list_lookup_insert_ne.
Qed.

Lemma copy_step_grows overrides n l h :
  (∃ ex, h_steps (snd (copy_step overrides n l h)) = h_steps h ++ ex)
  ∧ h_builders (snd (copy_step overrides n l h)) = h_builders h.
Proof.
  unfold copy_step. destruct (overrides !! n) as [o|]; simpl.
  - unfold bind, read_step. destruct (h_steps h !! l); simpl.
    + split; [eauto|done].
    + split; [exists []; by rewrite app_nil_r|done].
  - split; [exists []; by rewrite app_nil_r|done].
Qed.

Lemma copy_steps_grows overrides refs h :
  (∃ ex, h_steps (snd (copy_steps overrides refs h)) = h_steps h ++ ex)
  ∧ h_builders (snd (copy_steps overrides refs h)) = h_builders h.
Proof.
  revert h. induction refs as [|[n l] refs IH]; intros h; simpl.
  { split; [exists []; by rewrite app_nil_r|done]. }
  unfold bind.
  destruct (copy_step_grows overrides n l h) as [[e1 E1] B1].
  destruct (copy_step overrides n l h) as [[e|l'] h1]; simpl in *.
  { split; [eauto|done]. }
  destruct (IH h1) as [[e2 E2] B2].
  destruct (copy_steps overrides refs h1) as [[e|refs'] h2]; simpl in *.
  - split; [exists (e1 ++ e2); by rewrite E2, E1, app_assoc|congruence].
  - split; [exists (e1 ++ e2); by rewrite E2, E1, app_assoc|congruence].
Qed.


Lemma override_in_name overrides s : name (override_in overrides s) = name s.
Proof. unfold override_in. by destruct (overrides !! name s). Qed.

(** Copying the references of a readable graph succeeds, and the new
    references read as the overridden steps. *)
Lemma copy_steps_reads overrides refs h ss :
  read_steps (h_steps h) refs = Some ss →
  ∃ refs' h',
    copy_steps overrides refs h = (inr refs', h')
    ∧ read_steps (h_steps h') refs' = Some (override_in overrides <$> ss).
Proof.
  revert h ss. induction refs as [|[n l] refs IH]; intros h ss; simpl.
  { intros [= <-]. by exists [], h. }
  destruct (h_steps h !! l) as [s|] eqn:Hl; [|discriminate].
  destruct (read_steps (h_steps h) refs) as [ss'|] eqn:R; [|discriminate].
  destruct (String.eqb n (name s)) eqn:Hn; [|discriminate].
  apply String.eqb_eq in Hn. subst n. intros [= <-].
  unfold bind.
  assert (Hstep : ∃ l' h1,
             copy_step overrides (name s) l h = (inr l', h1)
             ∧ (∃ ex, h_steps h1 = h_steps h ++ ex)
             ∧ h_steps h1 !! l' = Some (override_in overrides s)).
  { unfold copy_step, override_in.
    destruct (overrides !! name s) as [o|].
    - unfold bind, read_step. rewrite Hl. simpl.
      eexists _, _. split; [reflexivity|]. simpl. split; [eauto|].
      by rewrite lookup_app_r, Nat.sub_diag.
    - exists l, h. split; [done|]. split; [|done].
      exists []. by rewrite app_nil_r. }
  destruct Hstep as (l' & h1 & -> & [e1 E1] & L1).
  destruct (IH h1 ss') as (refs' & h2 & C & R2).
  { rewrite E1. by apply read_steps_app. }
  rewrite C. exists ((name s, l') :: refs'), h2. split; [done|].
  simpl. rewrite R2.
  destruct (copy_steps_grows overrides refs h1) as [[e2 E2] _].
  rewrite C in E2. simpl in E2.
  rewrite E2, (lookup_app_l_Some _ _ _ _ L1).
  rewrite override_in_name, String.eqb_refl. done.
Qed.

(** An operation on another graph object leaves [b] alone. *)
Lemma apply_op_grows b b' op h :
  b ≠ b' → b < length (h_builders h) →
  grows b h (apply_op b' h op) ∧ b < length (h_builders (apply_op b' h op)).
Proof.
  intros Hne Hlt. destruct op as [nm bf deps dl|v o]; simpl.
  - split; [by apply build_add_grows|].
    unfold build_add, bind, read_builder.
    destruct (h_builders h !! b'); [|done].
    destruct (bool_decide _); [done|]. simpl. by rewrite length_insert.
  - unfold copy_overrides, bind, read_builder.
    destruct (h_builders h !! b') as [y|]; [|split; [apply grows_refl|done]].
    destruct (copy_steps_grows o (b_steps y) h) as [[e2 E2] B2].
    destruct (copy_steps o (b_steps y) h) as [[e|r] h3]; simpl in *.
    + split; [|by rewrite B2]. split; [eauto|by rewrite B2].
    + split.
      * split; simpl; [eauto|]. rewrite B2. by apply lookup_app_l.
      * rewrite B2, length_app. lia.
Qed.

Lemma apply_ops_preserves b b' ops h g :
  b ≠ b' → b < length (h_builders h) →
  graph_of h b = Some g → graph_of (apply_ops b' ops h) b = Some g.
Proof.
  intros Hne. revert h. induction ops as [|op ops IH]; intros h Hlt Hg; [done|].
  simpl. destruct (apply_op_grows b b' op h Hne Hlt) as [Hgr Hlt'].
  apply IH; [done|]. by apply (graph_of_grows _ _ _ _ Hgr).
Qed.

(** Copying a graph that is in the store succeeds and returns a new graph
    object; the original reads as before, the copy reads as [graph_copy],
    and operations on the copy leave the original as it was. *)
Lemma copy_overrides_run
    (h : Heap) (b : loc) (ver : string) (overrides : gmap string Override)
    (g : Graph) :
  graph_of h b = Some g →
  ∃ b' h',
    copy_overrides b ver overrides h = (inr b', h')
    ∧ b' ≠ b
    ∧ graph_of h' b = Some g
    ∧ graph_of h' b' = Some (graph_copy ver overrides g)
    ∧ ∀ ops, graph_of (apply_ops b' ops h') b = Some g.
Proof.
  intros Hg. pose proof Hg as Hg0. unfold graph_of in Hg.
  destruct (h_builders h !! b) as [x|] eqn:Hb; [|discriminate].
  destruct (read_steps (h_steps h) (b_steps x)) as [ss|] eqn:R; [|discriminate].
  injection Hg as <-.
  destruct (copy_steps_reads overrides _ _ _ R) as (refs' & h1 & C & R1).
  destruct (copy_steps_grows overrides (b_steps x) h) as [[ex E] B].
  rewrite C in E, B. simpl in E, B.
  assert (Hlt : b < length (h_builders h)) by (eapply lookup_lt_Some; eauto).
  exists (length (h_builders h)).
  eexists. split.
  { unfold copy_overrides, bind, read_builder. rewrite Hb, C.
    unfold alloc_builder. rewrite B. reflexivity. }
  assert (Hgrow : grows b h
            {| h_steps := h_steps h1;
               h_builders := h_builders h ++
                 [{| b_platform := b_platform x; b_version := ver;
                     b_populate_env := b_populate_env x; b_steps := refs' |}];
               h_registry := h_registry h1 |}).
  { split; simpl; [eauto|]. by apply lookup_app_l. }
  pose proof (graph_of_grows _ _ _ _ Hgrow Hg0) as Hg1.
  split; [lia|].
  split; [exact Hg1|].
  split.
  { unfold graph_of. simpl.
    rewrite lookup_app_r, Nat.sub_diag by done. simpl.
    rewrite R1. reflexivity. }
  intros ops. apply apply_ops_preserves; [lia| |exact Hg1].
  simpl. rewrite length_app. lia.
Qed.

(** An overridden step carries the new version and checksum, field by
    field. *)
Lemma override_in_reflects overrides s :
  reflects overrides s (override_in overrides s).
Proof.
  unfold reflects, override_in.
  destruct (overrides !! name s) as [o|]; [|done].
  unfold apply_override; simpl.
  repeat (split; [done|]).
  destruct (download s) as [d|]; [|done].
  eexists. split; [reflexivity|]. simpl. done.
Qed.

Lemma graph_copy_reflects ver overrides g :
  g_platform (graph_copy ver overrides g) = g_platform g
  ∧ g_version (graph_copy ver overrides g) = ver
  ∧ g_populate_env (graph_copy ver overrides g) = g_populate_env g
  ∧ Forall2 (reflects overrides) (g_steps g) (g_steps (graph_copy ver overrides g)).
Proof.
  repeat (split; [done|]). simpl.
  induction (g_steps g) as [|s ss IH]; simpl; constructor; [|done].
  apply override_in_reflects.
Qed.

(** Operations on another graph object only add step objects to the
    store. *)
Lemma apply_ops_grows b b' ops h :
  b ≠ b' → b < length (h_builders h) → grows b h (apply_ops b' ops h).
Proof.
  intros Hne. revert h. induction ops as [|op ops IH]; intros h Hlt.
  - apply grows_refl.
  - simpl. destruct (apply_op_grows b b' op h Hne Hlt) as [Hgr Hlt'].
    eapply grows_trans; [exact Hgr|]. by apply IH.
Qed.

(** C4.  Copying a graph that is in the store succeeds and returns a new
    graph object.  The original reads exactly as before, step for step.
    The copy has the platform and environment builder of the original and
    the version given; it has the same steps in the same order, each with
    the name, build procedure and dependencies of the original's; a step
    named in the overrides downloads the version and checksum of its
    override (from the same addresses, with the same check) and every
    other step is the original's.  Whatever is then done to the copy
    (registering further steps, copying it again) leaves the original as it
    was, and leaves every step object that was in the store, shared or
    not, as it was. *)
Theorem copy_leaves_original
    (h : Heap) (b : loc) (ver : string) (overrides : gmap string Override)
    (g : Graph) :
  graph_of h b = Some g →
  ∃ b' h' g',
    copy_overrides b ver overrides h = (inr b', h')
    ∧ b' ≠ b
    ∧ graph_of h' b = Some g
    ∧ graph_of h' b' = Some g'
    ∧ g' = graph_copy ver overrides g
    ∧ g_platform g' = g_platform g
    ∧ g_version g' = ver
    ∧ g_populate_env g' = g_populate_env g
    ∧ Forall2 (reflects overrides) (g_steps g) (g_steps g')
    ∧ (∀ ops, graph_of (apply_ops b' ops h') b = Some g)
    ∧ (∀ ops l s, h_steps h !! l = Some s →
                  h_steps (apply_ops b' ops h') !! l = Some s).
Proof.
  intros Hg.
  destruct (copy_overrides_run h b ver overrides g Hg)
    as (b' & h' & H1 & H2 & H3 & H4 & H5).
  destruct (graph_copy_reflects ver overrides g) as (P1 & P2 & P3 & P4).
  exists b', h', (graph_copy ver overrides g).
  do 9 (split; [first [assumption | reflexivity]|]).
  split; [exact H5|].
  intros ops l s Hl.
  assert (Hb : b < length (h_builders h)).
  { unfold graph_of in Hg.
    destruct (h_builders h !! b) as [x|] eqn:E; [|discriminate].
    eapply lookup_lt_Some; eauto. }
  assert (Hgr : ∃ ex, h_steps h' = h_steps h ++ ex).
  { pose proof (copy_steps_grows overrides) as G.
    revert H1. unfold copy_overrides, bind, read_builder, alloc_builder.
    destruct (h_builders h !! b) as [x|]; [|discriminate].
    specialize (G (b_steps x) h).
    destruct (copy_steps overrides (b_steps x) h) as [[e|r] h1];
      [discriminate|].
    simpl in G. destruct G as [[ex E] B].
    intros [= <- <-]. simpl. eauto. }
  destruct Hgr as [ex E].
  assert (Hb' : b < length (h_builders h')).
  { unfold graph_of in H3.
    destruct (h_builders h' !! b) as [x|] eqn:E'; [|discriminate].
    eapply lookup_lt_Some; eauto. }
  destruct (apply_ops_grows b b' ops h' (not_eq_sym H2) Hb') as [[ex' E'] _].
  rewrite E', E, <- app_assoc. by apply lookup_app_l_Some.
Qed.

Lemma copy_leaves_original_witness :
  ∃ b' h' g' s' d',
    copy_overrides 0 "3.14.0"
      {[ "python" := {| ov_version := "3.14.0"; ov_checksum := "00" |} ]}
      loaded = (inr b', h')
    ∧ b' ≠ 0
    ∧ graph_of h' 0 = Some linux_310
    ∧ download_id linux_310 "python"
      = Some ("3.10.16", "401e6a504a956c8f0aab76c4f3ad9df601a83eb1")
    ∧ graph_of h' b' = Some g'
    ∧ g_version g' = "3.14.0"
    ∧ g_steps g' !! 21 = Some s'
    ∧ name s' = "python"
    ∧ download s' = Some d'
    ∧ version d' = "3.14.0"
    ∧ checksum d' = "00"
    ∧ graph_of (apply_ops b' [OpAdd "extra" None ["python"] None] h') 0
      = Some linux_310.
Proof.
  destruct (copy_leaves_original loaded 0 "3.14.0"
              {[ "python" := {| ov_version := "3.14.0"; ov_checksum := "00" |} ]}
              linux_310)
    as (b' & h' & g' & H1 & H2 & H3 & H4 & _ & _ & H6 & _ & H8 & H9 & _).
  - vm_compute. reflexivity.
  - destruct (Forall2_lookup_l _ _ _ 21 _ H8 eq_refl) as (s' & Hs' & Hr).
    destruct Hr as (Hn & _ & _ & Hm).
    vm_compute in Hm. destruct Hm as (d' & Hd & Hv & Hc & _).
    exists b', h', g', s', d'.
    do 11 (split; [first [assumption | reflexivity]|]).
    apply H9.
Defined.

(** ** The pipeline of a step *)

Section PipelineFacts.
Context {Artifact : Type}.
Variable fetch : string → option Artifact.
Variable digest : Artifact → string.
Variable procedure : Step → Env → Dirs → Handle → exn + unit.
Variable root : string.
Variable base_env : Env.
Variable log_sink : string → Handle.


(** Fetching only logs its attempts, and its result does not depend on
    the state it starts from. *)
Lemma fetch_artifact_run s d st :
  ∃ evs,
    fetch_artifact fetch s d st
    = (fetched fetch s d,
       {| p_events := p_events st ++ evs; p_phase := p_phase st |})
    ∧ Forall is_fetch evs.
Proof.
  unfold fetched, fetch_artifact, bind, plog, modify, lift, ret, raise.
  destruct (format (url d) [] _) as [e|u]; simpl.
  { exists []. rewrite app_nil_r. by destruct st. }
  destruct (fetch u) as [a|]; simpl.
  { exists [PFetch (name s) u]. split; [done|]. by repeat constructor. }
  destruct (fallback_url d) as [f|]; simpl.
  - destruct (format f [] _) as [e|u']; simpl.
    { exists [PFetch (name s) u]. split; [done|]. by repeat constructor. }
    exists [PFetch (name s) u; PFetch (name s) u'].
    rewrite <- app_assoc. simpl.
    destruct (fetch u'); simpl; (split; [done|by repeat constructor]).
  - exists [PFetch (name s) u]. split; [done|]. by repeat constructor.
Qed.


Lemma fetch_artifact_own s d st :
  Forall (λ e, event_step e = name s) (p_events st) →
  Forall (λ e, event_step e = name s)
         (p_events (snd (fetch_artifact fetch s d st))).
Proof.
  intros Hst.
  unfold fetch_artifact, bind, plog, modify, lift, ret, raise.
  destruct (format (url d) [] _) as [e|u]; simpl; [done|].
  destruct (fetch u) as [a|]; simpl.
  { apply Forall_app. split; [done|by repeat constructor]. }
  destruct (fallback_url d) as [f|]; simpl.
  - destruct (format f [] _) as [e|u']; simpl.
    { apply Forall_app. split; [done|by repeat constructor]. }
    destruct (fetch u'); simpl;
      repeat (apply Forall_app; split); try done; by repeat constructor.
  - apply Forall_app. split; [done|by repeat constructor].
Qed.

Local Abbreviation pipeline' :=
  (pipeline fetch digest procedure root base_env log_sink).
Local Abbreviation pipeline_body' :=
  (pipeline_body fetch digest procedure root base_env log_sink).

(** A pipeline that meets a checksum mismatch. *)
Lemma pipeline_mismatch g s d a :
  download s = Some d →
  fetched fetch s d = inr a →
  digest a ≠ checksum d →
  ∃ evs,
    Forall is_fetch evs
    ∧ pipeline' g s
      = (PMkdirs (name s) :: evs ++ [PVerify (name s)],
         Some {| be_step := name s; be_phase := PhaseVerify;
                 be_cause := ChecksumMismatchError (checksum d) (digest a) |}).
Proof.
  intros Hd Hf Hne.
  unfold pipeline, pipeline_body. rewrite Hd.
  unfold bind at 1. unfold plog at 1, modify at 1. cbn [p_events p_phase app].
  unfold bind at 1. unfold bind at 1. unfold enter at 1, modify at 1.
  cbn [p_events p_phase].
  unfold bind at 1.
  destruct (fetch_artifact_run s d
              {| p_events := [PMkdirs (name s)]; p_phase := PhaseDownload |})
    as (evs & -> & Hevs).
  rewrite Hf. cbn [p_events p_phase].
  exists evs. split; [done|].
  unfold bind at 1. unfold enter at 1, modify at 1. cbn [p_events p_phase].
  unfold bind at 1. unfold verify_checksum, bind, plog, modify.
  cbn [p_events p_phase].
  apply String.eqb_neq in Hne. rewrite Hne.
  unfold raise. simpl. reflexivity.
Qed.


Lemma owned_bind {A B} n (m : M PState A) (f : A → M PState B) :
  owned n m → (∀ a, owned n (f a)) → owned n (bind m f).
Proof.
  intros Hm Hf st Hst. unfold bind. specialize (Hm st Hst).
  destruct (m st) as [[e|a] st']; simpl in *; [done|]. by apply Hf.
Qed.

Lemma owned_pure {A} n (m : M PState A) :
  (∀ st, p_events (snd (m st)) = p_events st) → owned n m.
Proof. intros H st Hst. by rewrite H. Qed.

Lemma owned_plog n e : event_step e = n → owned n (plog e).
Proof.
  intros He st Hst. simpl. apply Forall_app. split; [done|].
  by apply Forall_singleton.
Qed.

Lemma pipeline_body_owned g s : owned (name s) (pipeline_body' g s).
Proof.
  unfold pipeline_body.
  apply owned_bind; [by apply owned_plog|]. intros _.
  apply owned_bind.
  { destruct (download s) as [d|]; [|by apply owned_pure].
    apply owned_bind; [by apply owned_pure|]. intros _.
    apply owned_bind; [intros st; apply fetch_artifact_own|]. intros a.
    apply owned_bind; [by apply owned_pure|]. intros _.
    apply owned_bind; [|intros _; by apply owned_plog].
    unfold verify_checksum.
    apply owned_bind; [by apply owned_plog|]. intros _.
    destruct (String.eqb _ _); by apply owned_pure. }
  intros _.
  apply owned_bind; [by apply owned_pure|]. intros _.
  apply owned_bind.
  { destruct (env_builder_run _ _ _) as [[e|u] env]; by apply owned_pure. }
  intros env.
  apply owned_bind; [by apply owned_plog|]. intros _.
  apply owned_bind; [by apply owned_plog|]. intros _.
  destruct (procedure _ _ _ _); by apply owned_pure.
Qed.

Lemma pipeline_events_own g s :
  Forall (λ e, event_step e = name s) (fst (pipeline' g s)).
Proof.
  unfold pipeline.
  pose proof (pipeline_body_owned g s
                {| p_events := []; p_phase := PhaseDownload |}) as H.
  destruct (pipeline_body _ _ _ _ _ _ g s _) as [[e|u] st]; simpl in *;
    apply H; constructor.
Qed.
End PipelineFacts.

(** C2.  A step with a download whose fetched artifact has a digest other
    than the declared checksum ends in [ChecksumMismatchError], raised in
    the verification phase; nothing is extracted and no build procedure is
    invoked. *)
Theorem checksum_mismatch_fails_step {Artifact : Type}
    (fetch : string → option Artifact) (digest : Artifact → string)
    (procedure : Step → Env → Dirs → Handle → exn + unit)
    (root : string) (base_env : Env) (log_sink : string → Handle)
    (g : Graph) (s : Step) (d : Download) (a : Artifact) :
  download s = Some d →
  fetched fetch s d = inr a →
  digest a ≠ checksum d →
  snd (pipeline fetch digest procedure root base_env log_sink g s)
  = Some {| be_step := name s; be_phase := PhaseVerify;
            be_cause := ChecksumMismatchError (checksum d) (digest a) |}
  ∧ (∀ n, PInvoke n ∉ fst (pipeline fetch digest procedure root base_env
                             log_sink g s))
  ∧ (∀ n, PExtract n ∉ fst (pipeline fetch digest procedure root base_env
                              log_sink g s)).
Proof.
  intros Hd Hf Hne.
  destruct (pipeline_mismatch fetch digest procedure root base_env log_sink
              g s d a Hd Hf Hne) as (evs & Hevs & ->).
  simpl. split; [done|].
  assert (Hno : ∀ e, ¬ is_fetch e → e ≠ PMkdirs (name s) →
                  e ≠ PVerify (name s) →
                  e ∉ PMkdirs (name s) :: evs ++ [PVerify (name s)]).
  { intros e He H1 H2 Hin.
    apply elem_of_cons in Hin as [->|Hin]; [done|].
    apply elem_of_app in Hin as [Hin|Hin].
    - rewrite Forall_forall in Hevs. by apply He, Hevs.
    - apply list_elem_of_singleton in Hin. done. }
  split; intros n; apply Hno; simpl; auto; discriminate.
Qed.

Lemma checksum_mismatch_fails_step_witness :
  snd (pipeline tampered_fetch sample_digest ok_procedure "/w" demo_env
         sample_log_sink linux_310 openssl_step)
  = Some {| be_step := "openssl"; be_phase := PhaseVerify;
            be_cause :=
              ChecksumMismatchError "5c2f33c3f3601676f225109231142cdc30d44127"
                "da39a3ee5e6b4b0d3255bfef95601890afd80709" |}
  ∧ PInvoke "openssl" ∉ fst (pipeline tampered_fetch sample_digest ok_procedure
                               "/w" demo_env sample_log_sink linux_310
                               openssl_step).
Proof.
  destruct (checksum_mismatch_fails_step tampered_fetch sample_digest
              ok_procedure "/w" demo_env sample_log_sink linux_310 openssl_step
              {| url := "https://github.com/openssl/openssl/releases/download/openssl-{version}/openssl-{version}.tar.gz";
                 fallback_url := Some "https://woz.io/relenv/dependencies/openssl-{version}.tar.gz";
                 version := "3.4.0";
                 checksum := "5c2f33c3f3601676f225109231142cdc30d44127";
                 checkfunc := Some tarball_version;
                 checkurl := Some "https://www.openssl.org/source/" |}
              "tampered")
    as (H1 & H2 & _).
  - reflexivity.
  - vm_compute. reflexivity.
  - vm_compute. discriminate.
  - split; [exact H1|apply H2].
Defined.

(** ** The scheduler *)

Lemma status_of_set_eq n x st : status_of (set_status n x st) n = x.
Proof. unfold status_of, set_status; simpl. by rewrite lookup_insert_eq. Qed.

Lemma status_of_set_ne n m x st :
  n ≠ m → status_of (set_status n x st) m = status_of st m.
Proof.
  intros H. unfold status_of, set_status; simpl. by rewrite lookup_insert_ne.
Qed.

Section SchedulerFacts.
Context {Artifact : Type}.
Variable fetch : string → option Artifact.
Variable digest : Artifact → string.
Variable procedure : Step → Env → Dirs → Handle → exn + unit.
Variable root : string.
Variable base_env : Env.
Variable log_sink : string → Handle.

Local Abbreviation pipeline' :=
  (pipeline fetch digest procedure root base_env log_sink).
Local Abbreviation finish' :=
  (finish fetch digest procedure root base_env log_sink).
Local Abbreviation sched_step' :=
  (sched_step fetch digest procedure root base_env log_sink).
Local Abbreviation reachable' :=
  (reachable fetch digest procedure root base_env log_sink).
Local Abbreviation run_in_order' :=
  (run_in_order fetch digest procedure root base_env log_sink).

Lemma status_of_init g n : status_of (init_sched g) n = Pending.
Proof.
  unfold status_of, init_sched; simpl.
  destruct (list_to_map _ !! n) as [x|] eqn:H; [|done].
  apply elem_of_list_to_map_2 in H.
  apply list_elem_of_fmap in H as (s & [= _ ->] & _). done.
Qed.

Lemma status_of_finish_eq g s st :
  status_of (finish' g s st) (name s)
  = match snd (pipeline' g s) with None => Succeeded | Some _ => Failed end.
Proof.
  unfold finish, status_of. destruct (pipeline _ _ _ _ _ _ g s) as [evs r].
  simpl. by rewrite lookup_insert_eq.
Qed.

Lemma status_of_finish_ne g s st n :
  name s ≠ n → status_of (finish' g s st) n = status_of st n.
Proof.
  intros H. unfold finish, status_of.
  destruct (pipeline _ _ _ _ _ _ g s) as [evs r].
  simpl. by rewrite lookup_insert_ne.
Qed.

Lemma events_finish g s st :
  sc_events (finish' g s st) = sc_events st ++ fst (pipeline' g s).
Proof.
  unfold finish. by destruct (pipeline _ _ _ _ _ _ g s) as [evs r].
Qed.

(** *** Safety: a failing root and what depends on it *)

Section Taint.
Variable g : Graph.
Variable N : nat.
Variable f : string.
Variable T : list string.
Hypothesis f_fails :
  ∀ s, s ∈ g_steps g → name s = f → snd (pipeline' g s) ≠ None.
Hypothesis f_root : ∀ s, s ∈ g_steps g → name s = f → wait_on s = [].
Hypothesis T_waits :
  ∀ s, s ∈ g_steps g → name s ∈ T →
       ∃ d, d ∈ wait_on s ∧ (d = f ∨ d ∈ T).


Lemma taint_inv_init : taint_inv f T (init_sched g).
Proof.
  unfold taint_inv. rewrite status_of_init.
  repeat split; try done.
  - intros t _. rewrite status_of_init. by left.
  - intros t _. simpl. apply not_elem_of_nil.
Qed.

Lemma taint_inv_step st st' :
  taint_inv f T st → sched_step' g N st st' → taint_inv f T st'.
Proof.
  intros (Hf1 & Hf2 & HT & HE) Hstep.
  destruct Hstep as [s st Hs Hp Hdeps|s d st Hs Hp Hd Hbad|s st Hs Hr Hn|s st Hs Hr].
  - (* a step becomes ready *)
    assert (HsT : name s ∉ T).
    { intros Hin. destruct (T_waits s Hs Hin) as (d & Hd & [->|HdT]).
      - by specialize (Hdeps _ Hd).
      - specialize (Hdeps _ Hd). destruct (HT d HdT); congruence. }
    repeat split.
    + destruct (decide (name s = f)) as [E|E].
      * rewrite <- E, status_of_set_eq. done.
      * by rewrite status_of_set_ne.
    + destruct (decide (name s = f)) as [E|E].
      * rewrite <- E, status_of_set_eq. done.
      * by rewrite status_of_set_ne.
    + intros t Ht. rewrite status_of_set_ne; [by apply HT|].
      intros <-. done.
    + done.
  - (* a step is skipped *)
    assert (Hsf : name s ≠ f).
    { intros E. rewrite (f_root s Hs E) in Hd. by apply elem_of_nil in Hd. }
    repeat split.
    + by rewrite status_of_set_ne.
    + by rewrite status_of_set_ne.
    + intros t Ht. destruct (decide (name s = t)) as [<-|E].
      * rewrite status_of_set_eq. by right.
      * rewrite status_of_set_ne by done. by apply HT.
    + done.
  - (* a step is dispatched *)
    assert (HsT : name s ∉ T).
    { intros Hin. destruct (HT _ Hin); congruence. }
    repeat split.
    + destruct (decide (name s = f)) as [E|E].
      * rewrite <- E, status_of_set_eq. done.
      * by rewrite status_of_set_ne.
    + destruct (decide (name s = f)) as [E|E].
      * rewrite <- E, status_of_set_eq. done.
      * by rewrite status_of_set_ne.
    + intros t Ht. rewrite status_of_set_ne; [by apply HT|].
      intros <-. done.
    + done.
  - (* a step finishes *)
    assert (HsT : name s ∉ T).
    { intros Hin. destruct (HT _ Hin); congruence. }
    repeat split.
    + destruct (decide (name s = f)) as [E|E].
      * rewrite <- E, status_of_finish_eq.
        specialize (f_fails s Hs E).
        by destruct (snd (pipeline' g s)).
      * by rewrite status_of_finish_ne.
    + destruct (decide (name s = f)) as [E|E].
      * rewrite <- E, status_of_finish_eq.
        by destruct (snd (pipeline' g s)).
      * by rewrite status_of_finish_ne.
    + intros t Ht. rewrite status_of_finish_ne; [by apply HT|].
      intros <-. done.
    + intros t Ht. rewrite events_finish. intros Hin.
      apply elem_of_app in Hin as [Hin|Hin]; [by apply (HE t Ht)|].
      pose proof (pipeline_events_own fetch digest procedure root base_env
                    log_sink g s) as Hown.
      rewrite Forall_forall in Hown. specialize (Hown _ Hin).
      simpl in Hown. by subst t.
Qed.

Lemma taint_inv_reachable st : reachable' g N st → taint_inv f T st.
Proof.
  unfold reachable. revert st.
  apply (rtc_ind_r (λ st, taint_inv f T st) (init_sched g)).
  - apply taint_inv_init.
  - intros y z _ Hstep IH. by apply (taint_inv_step y z).
Qed.

(** In a finished run the root has failed and every tainted step was
    skipped without its procedure having been invoked. *)
Lemma taint_finished st :
  reachable' g N st → finished g st →
  (f ∈ step_names g → status_of st f = Failed)
  ∧ (∀ t, t ∈ T → t ∈ step_names g → status_of st t = Skipped)
  ∧ (∀ t, t ∈ T → PInvoke t ∉ sc_events st).
Proof.
  intros Hr Hfin. destruct (taint_inv_reachable st Hr) as (H1 & H2 & HT & HE).
  repeat split; [| |done].
  - intros Hin. apply list_elem_of_fmap in Hin as (s & -> & Hs).
    specialize (Hfin s Hs).
    destruct (status_of st (name s)); done.
  - intros t Ht Hin. apply list_elem_of_fmap in Hin as (s & -> & Hs).
    specialize (Hfin s Hs).
    destruct (HT _ Ht) as [E|E]; rewrite E in Hfin; done.
Qed.
End Taint.

(** *** Liveness: running the steps in registration order *)

Lemma registered_in_order_split seen pre s post :
  registered_in_order seen (pre ++ s :: post) = true →
  (name s ∉ seen ++ (name <$> pre))
  ∧ (∀ d, d ∈ wait_on s → d ∈ seen ++ (name <$> pre)).
Proof.
  revert seen. induction pre as [|p pre IH]; intros seen; simpl; intros Hc.
  - apply andb_true_iff in Hc as [Hc _].
    apply andb_true_iff in Hc as [Hdeps Hnew].
    apply bool_decide_eq_true in Hnew. rewrite app_nil_r.
    split; [done|]. intros d Hd.
    rewrite forallb_forall in Hdeps.
    apply list_elem_of_In in Hd. specialize (Hdeps d Hd).
    by apply bool_decide_eq_true in Hdeps.
  - apply andb_true_iff in Hc as [_ Hc].
    specialize (IH _ Hc). by rewrite <- app_assoc in IH.
Qed.

Lemma forallb_false {A} (p : A → bool) l :
  forallb p l = false → ∃ x, x ∈ l ∧ p x = false.
Proof.
  induction l as [|x l IH]; simpl; [discriminate|].
  destruct (p x) eqn:Hx; simpl.
  - intros H. destruct (IH H) as (y & Hy & Hp).
    exists y. split; [by apply list_elem_of_further|done].
  - intros _. exists x. split; [apply list_elem_of_here|done].
Qed.

Lemma running_count_zero g st :
  (∀ s, s ∈ g_steps g → status_of st (name s) ≠ Running) →
  running_count g st = 0.
Proof.
  unfold running_count. generalize (g_steps g).
  intros l. induction l as [|x l IH]; intros H; [done|].
  rewrite filter_cons_False.
  - apply IH. intros s Hs. apply H. by apply list_elem_of_further.
  - apply H. apply list_elem_of_here.
Qed.


Lemma finish_after_dispatch g s st :
  finish' g s (set_status (name s) Running (set_status (name s) Ready st))
  = finish' g s st.
Proof.
  unfold finish, set_status.
  destruct (pipeline _ _ _ _ _ _ g s) as [evs r]; simpl.
  by rewrite !insert_insert_eq.
Qed.

Lemma run_one_reachable g N pre s post st :
  (1 ≤ N)%nat →
  g_steps g = pre ++ s :: post →
  registered_in_order [] (g_steps g) = true →
  reachable' g N st →
  settled (name <$> pre) st →
  reachable' g N (run_one fetch digest procedure root base_env log_sink g st s)
  ∧ settled (name <$> (pre ++ [s]))
      (run_one fetch digest procedure root base_env log_sink g st s).
Proof.
  intros HN Hsplit Hord Hreach [Hdone Hpend].
  rewrite Hsplit in Hord.
  destruct (registered_in_order_split [] pre s post Hord) as [Hnew Hdeps].
  simpl in Hnew, Hdeps.
  assert (Hs : s ∈ g_steps g).
  { rewrite Hsplit. apply elem_of_app. right. apply list_elem_of_here. }
  pose proof (Hpend _ Hnew) as Hp.
  unfold run_one.
  destruct (forallb _ (wait_on s)) eqn:Hall.
  - (* every dependency succeeded: ready, dispatched, finished *)
    rewrite forallb_forall in Hall.
    split.
    + rewrite <- finish_after_dispatch.
      unfold reachable in *.
      eapply rtc_r; [eapply rtc_r; [eapply rtc_r; [exact Hreach|] |] |].
      * apply step_ready; [done|done|].
        intros d Hd. apply list_elem_of_In in Hd.
        specialize (Hall d Hd). by apply bool_decide_eq_true in Hall.
      * apply step_dispatch; [done|apply status_of_set_eq|].
        rewrite running_count_zero; [lia|].
        intros s' Hs'. destruct (decide (name s = name s')) as [E|E].
        -- rewrite <- E, status_of_set_eq. done.
        -- rewrite status_of_set_ne by done.
           destruct (decide (name s' ∈ name <$> pre)) as [Hin|Hin].
           ++ specialize (Hdone _ Hin).
              by destruct (status_of st (name s')).
           ++ by rewrite (Hpend _ Hin).
      * apply step_finish; [done|apply status_of_set_eq].
    + split.
      * intros n Hn. rewrite fmap_app in Hn.
        apply elem_of_app in Hn as [Hn|Hn].
        -- rewrite status_of_finish_ne; [by apply Hdone|].
           intros <-. done.
        -- apply list_elem_of_singleton in Hn. subst n.
           rewrite status_of_finish_eq.
           by destruct (snd (pipeline' g s)).
      * intros n Hn. rewrite fmap_app in Hn.
        apply not_elem_of_app in Hn as [Hn1 Hn2].
        rewrite status_of_finish_ne; [by apply Hpend|].
        intros <-. apply Hn2. apply list_elem_of_here.
  - (* some dependency did not succeed: skipped *)
    destruct (forallb_false _ _ Hall) as (d & Hd & Hbad).
    apply bool_decide_eq_false in Hbad.
    pose proof (Hdone _ (Hdeps _ Hd)) as Hterm.
    split.
    + unfold reachable in *. eapply rtc_r; [exact Hreach|].
      apply (step_skip _ _ _ _ _ _ _ _ s d); [done|done|done|].
      destruct (status_of st d); try done; auto.
    + split.
      * intros n Hn. rewrite fmap_app in Hn.
        apply elem_of_app in Hn as [Hn|Hn].
        -- rewrite status_of_set_ne; [by apply Hdone|].
           intros <-. done.
        -- apply list_elem_of_singleton in Hn. subst n.
           by rewrite status_of_set_eq.
      * intros n Hn. rewrite fmap_app in Hn.
        apply not_elem_of_app in Hn as [Hn1 Hn2].
        rewrite status_of_set_ne; [by apply Hpend|].
        intros <-. apply Hn2. apply list_elem_of_here.
Qed.

Lemma run_fold_reachable g N post :
  (1 ≤ N)%nat →
  registered_in_order [] (g_steps g) = true →
  ∀ pre st,
    g_steps g = pre ++ post →
    reachable' g N st →
    settled (name <$> pre) st →
    reachable' g N
      (fold_left (run_one fetch digest procedure root base_env log_sink g)
                 post st)
    ∧ settled (name <$> (pre ++ post))
        (fold_left (run_one fetch digest procedure root base_env log_sink g)
                   post st).
Proof.
  intros HN Hord. induction post as [|s post IH]; intros pre st Hsplit Hr Hs.
  - simpl. by rewrite app_nil_r.
  - simpl.
    destruct (run_one_reachable g N pre s post st HN Hsplit Hord Hr Hs)
      as [Hr' Hs'].
    specialize (IH (pre ++ [s])
                  (run_one fetch digest procedure root base_env log_sink
                     g st s)).
    rewrite <- app_assoc in IH. simpl in IH.
    by apply IH.
Qed.

Lemma root_with_download_spec f d g s :
  root_with_download f d g = true →
  s ∈ g_steps g → name s = f →
  wait_on s = [] ∧ download s = Some d.
Proof.
  unfold root_with_download. rewrite forallb_forall.
  intros H Hs Hn. apply list_elem_of_In in Hs. specialize (H s Hs).
  simpl in H. apply String.eqb_eq in Hn. rewrite Hn in H.
  by apply bool_decide_eq_true in H.
Qed.

Lemma waits_on_tainted_spec f T g s :
  waits_on_tainted f T g = true →
  s ∈ g_steps g → name s ∈ T →
  ∃ d, d ∈ wait_on s ∧ (d = f ∨ d ∈ T).
Proof.
  unfold waits_on_tainted. rewrite forallb_forall.
  intros H Hs Hn. apply list_elem_of_In in Hs. specialize (H s Hs).
  simpl in H. rewrite bool_decide_eq_true_2 in H by done.
  apply existsb_exists in H as (d & Hd & Hb).
  apply bool_decide_eq_true in Hb. apply list_elem_of_In in Hd. eauto.
Qed.

(** The artifact fetched depends on the download, not on the step. *)
Lemma fetched_step_irrelevant s s' d :
  fetched fetch s d = fetched fetch s' d.
Proof.
  unfold fetched, fetch_artifact, bind, plog, modify, lift, ret, raise.
  destruct (format (url d) [] _) as [e|u]; simpl; [done|].
  destruct (fetch u) as [a|]; simpl; [done|].
  destruct (fallback_url d) as [f|]; simpl; [|done].
  destruct (format f [] _) as [e|u']; simpl; [done|].
  by destruct (fetch u').
Qed.

Lemma report_state_status g st n :
  report_state n (report root g st)
  = (λ _, status_of st n) <$> lookup_step n (g_steps g).
Proof.
  unfold report. generalize (g_steps g).
  intros l. induction l as [|s l IH]; simpl; [done|].
  destruct (String.eqb (name s) n) eqn:E; [|done].
  apply String.eqb_eq in E. by subst n.
Qed.

(** Taking the steps in registration order is a run of the scheduler, and
    it runs to the end. *)
Lemma run_in_order_finishes g N :
  (1 ≤ N)%nat →
  registered_in_order [] (g_steps g) = true →
  reachable' g N (run_in_order' g) ∧ finished g (run_in_order' g).
Proof.
  intros HN Hord.
  destruct (run_fold_reachable g N (g_steps g) HN Hord [] (init_sched g))
    as [Hr [Hdone _]].
  - done.
  - apply rtc_refl.
  - split; [intros n Hn; by apply elem_of_nil in Hn|].
    intros n _. apply status_of_init.
  - split; [exact Hr|].
    intros s Hs. apply Hdone. simpl. by apply list_elem_of_fmap_2.
Qed.

(** A root step whose checksum verification fails, in a graph registered
    in order: the run ends, the root is reported failed, and every step
    that waits on it, directly or through others, is skipped without its
    procedure ever being invoked. *)
Lemma root_failure_skips g N f T d a s0 :
  (1 ≤ N)%nat →
  registered_in_order [] (g_steps g) = true →
  root_with_download f d g = true →
  waits_on_tainted f T g = true →
  fetched fetch s0 d = inr a →
  digest a ≠ checksum d →
  (∃ st, reachable' g N st ∧ finished g st)
  ∧ ∀ st, reachable' g N st →
      (∀ t, t ∈ T → PInvoke t ∉ sc_events st)
      ∧ (finished g st →
         (f ∈ step_names g → status_of st f = Failed)
         ∧ (∀ t, t ∈ T → t ∈ step_names g → status_of st t = Skipped)).
Proof.
  intros HN Hord Hroot Hwaits Hf Hne.
  split.
  { exists (run_in_order' g). by apply run_in_order_finishes. }
  assert (Hfails : ∀ s, s ∈ g_steps g → name s = f →
                     snd (pipeline' g s) ≠ None).
  { intros s Hs Hn.
    destruct (root_with_download_spec f d g s Hroot Hs Hn) as [_ Hd].
    rewrite (fetched_step_irrelevant s0 s) in Hf.
    destruct (pipeline_mismatch fetch digest procedure root base_env
                log_sink g s d a Hd Hf Hne) as (evs & _ & ->).
    done. }
  assert (Hr : ∀ s, s ∈ g_steps g → name s = f → wait_on s = []).
  { intros s Hs Hn.
    by destruct (root_with_download_spec f d g s Hroot Hs Hn). }
  assert (Hw : ∀ s, s ∈ g_steps g → name s ∈ T →
                 ∃ d, d ∈ wait_on s ∧ (d = f ∨ d ∈ T)).
  { intros s. by apply waits_on_tainted_spec. }
  intros st Hreach. split.
  - by destruct (taint_inv_reachable g N f T Hfails Hr Hw st Hreach)
      as (_ & _ & _ & HE).
  - intros Hfin.
    by destruct (taint_finished g N f T Hfails Hr Hw st Hreach Hfin)
      as (H1 & H2 & _).
Qed.
End SchedulerFacts.

Lemma lookup_step_name n steps s :
  lookup_step n steps = Some s → n ∈ name <$> steps.
Proof.
  induction steps as [|x steps IH]; simpl; [discriminate|].
  destruct (String.eqb (name x) n) eqn:E.
  - apply String.eqb_eq in E. intros _. rewrite <- E. apply list_elem_of_here.
  - intros H. apply list_elem_of_further. by apply IH.
Qed.

(** C1.  In each graph registered for linux, [krb5] waits on [openssl] and
    [python] waits on both.  If the archive fetched for [openssl] does not
    match its checksum, then, whatever the concurrency bound and the order
    in which the scheduler moves: the run can be carried to its end; the
    procedures of [krb5] and [python] are never invoked; and once the run
    has ended the report gives [openssl] as failed and [krb5] and [python]
    as skipped. *)
Theorem linux_openssl_failure_skips_dependents {Artifact : Type}
    (fetch : string → option Artifact) (digest : Artifact → string)
    (procedure : Step → Env → Dirs → Handle → exn + unit)
    (root : string) (base_env : Env) (log_sink : string → Handle)
    (N : nat) (a : Artifact) (b : loc) (g : Graph) :
  (1 ≤ N)%nat →
  b ∈ variants loaded "linux" →
  graph_of loaded b = Some g →
  fetched fetch openssl_step openssl_download = inr a →
  digest a ≠ checksum openssl_download →
  (wait_on <$> find_step g "krb5") = Some ["openssl"]
  ∧ (∃ s, find_step g "python" = Some s
          ∧ "krb5" ∈ wait_on s ∧ "openssl" ∈ wait_on s)
  ∧ (∃ st, reachable fetch digest procedure root base_env log_sink g N st
           ∧ finished g st)
  ∧ ∀ st, reachable fetch digest procedure root base_env log_sink g N st →
      (PInvoke "krb5" ∉ sc_events st)
      ∧ (PInvoke "python" ∉ sc_events st)
      ∧ (finished g st →
         report_state "openssl" (report root g st) = Some Failed
         ∧ report_state "krb5" (report root g st) = Some Skipped
         ∧ report_state "python" (report root g st) = Some Skipped).
Proof.
  intros HN Hb Hg Hf Hne.
  rewrite loaded_variants in Hb.
  assert (Hchecks :
    registered_in_order [] (g_steps g)
    && root_with_download "openssl" openssl_download g
    && waits_on_tainted "openssl" ["krb5"; "python"] g
    && scenario_shape g = true).
  { repeat (apply elem_of_cons in Hb as [->|Hb];
            [vm_compute in Hg; injection Hg as <-; vm_compute; reflexivity|]).
    apply elem_of_nil in Hb as []. }
  clear Hg Hb.
  apply andb_true_iff in Hchecks as [Hchecks Hshape].
  apply andb_true_iff in Hchecks as [Hchecks Hwaits].
  apply andb_true_iff in Hchecks as [Hord Hroot].
  unfold scenario_shape in Hshape.
  apply andb_true_iff in Hshape as [Hshape So].
  apply andb_true_iff in Hshape as [Hk Hp].
  apply bool_decide_eq_true in Hk, So.
  unfold find_step in *.
  destruct (lookup_step "krb5" (g_steps g)) as [sk|] eqn:Ek; [|done].
  destruct (lookup_step "python" (g_steps g)) as [sp|] eqn:Ep; [|done].
  destruct (lookup_step "openssl" (g_steps g)) as [so|] eqn:Eo; [|done].
  apply bool_decide_eq_true in Hp.
  split; [exact Hk|]. split; [by exists sp|].
  destruct (root_failure_skips fetch digest procedure root base_env log_sink
              g N "openssl" ["krb5"; "python"] openssl_download a openssl_step
              HN Hord Hroot Hwaits) as [Hex Hall]; [done|done|].
  split; [exact Hex|].
  intros st Hr. destruct (Hall st Hr) as [HE Hfin].
  split; [apply HE; apply list_elem_of_here|].
  split; [apply HE; apply list_elem_of_further, list_elem_of_here|].
  intros Hdone. destruct (Hfin Hdone) as [H1 H2].
  rewrite !report_state_status, Ek, Ep, Eo. simpl.
  rewrite H1 by (by apply (lookup_step_name _ _ so)).
  rewrite (H2 "krb5")
    by (apply list_elem_of_here || by apply (lookup_step_name _ _ sk)).
  rewrite (H2 "python")
    by (apply list_elem_of_further, list_elem_of_here
        || by apply (lookup_step_name _ _ sp)).
  done.
Qed.

Lemma linux_openssl_failure_skips_dependents_witness :
  (∃ st, reachable tampered_fetch sample_digest ok_procedure "/w" demo_env
           sample_log_sink linux_310 2 st
         ∧ finished linux_310 st)
  ∧ (PInvoke "krb5" ∉ sc_events (init_sched linux_310)).
Proof.
  destruct (linux_openssl_failure_skips_dependents tampered_fetch sample_digest
              ok_procedure "/w" demo_env sample_log_sink 2 "tampered" 0
              linux_310)
    as (_ & _ & Hex & Hall).
  - lia.
  - rewrite loaded_variants. apply list_elem_of_here.
  - vm_compute. reflexivity.
  - vm_compute. reflexivity.
  - vm_compute. discriminate.
  - split; [exact Hex|].
    apply (Hall (init_sched linux_310)). apply rtc_refl.
Defined.

(** The run that takes the steps in registration order, in a world where
    every archive is tampered with: [openssl] fails, what waits on it is
    skipped, and the only procedure that would have run is never reached. *)
Example tampered_run_report :
  let st := run_in_order tampered_fetch sample_digest ok_procedure "/w"
              demo_env sample_log_sink linux_310 in
  report_state "openssl" (report "/w" linux_310 st) = Some Failed
  ∧ report_state "krb5" (report "/w" linux_310 st) = Some Skipped
  ∧ report_state "python" (report "/w" linux_310 st) = Some Skipped
  ∧ report_state "relenv-finalize" (report "/w" linux_310 st) = Some Skipped
  ∧ invoked (sc_events st) = [].
Proof. vm_compute. repeat split; reflexivity. Qed.

(** * Further properties of the sources *)

(** ** [populate_env] in full *)

Lemma map_inr_cons_append c s (r : exn + string) :
  map_inr (String c) (map_inr (String.append s) r)
  = map_inr (String.append (String c s)) r.
Proof. by destruct r. Qed.

Lemma append_nil_r s : s +:+ "" = s.
Proof.
  induction s as [|c s IH]; [done|].
  change (String c s +:+ "") with (String c (s +:+ "")). by rewrite IH.
Qed.

(** A stretch without braces is copied as it is. *)
Lemma format_go_plain s t pos kw idx :
  no_brace s = true →
  format_go (s +:+ t) pos kw idx None
  = map_inr (String.append s) (format_go t pos kw idx None).
Proof.
  induction s as [|c s IH].
  - intros _. change ("" +:+ t) with t.
    by destruct (format_go t pos kw idx None).
  - intros H. simpl in H. apply andb_true_iff in H as [H Hs].
    apply andb_true_iff in H as [H1 H2].
    apply negb_true_iff in H1, H2.
    change (String c s +:+ t) with (String c (s +:+ t)).
    simpl. rewrite H1, H2.
    rewrite (IH Hs). apply map_inr_cons_append.
Qed.

Lemma format_go_plain_end s pos kw idx :
  no_brace s = true → format_go s pos kw idx None = inr s.
Proof.
  intros H. rewrite <- (append_nil_r s) at 1.
  rewrite format_go_plain by done. cbn [format_go map_inr].
  by rewrite append_nil_r.
Qed.

Lemma format_go_prefix_field t p idx :
  format_go ("{prefix}" +:+ t) [] {[ "prefix" := p ]} idx None
  = map_inr (String.append p) (format_go t [] {[ "prefix" := p ]} idx None).
Proof. reflexivity. Qed.

Lemma no_brace_app a b : no_brace (a +:+ b) = no_brace a && no_brace b.
Proof.
  induction a as [|c a IH]; [done|].
  change (String c a +:+ b) with (String c (a +:+ b)).
  simpl. rewrite IH. by rewrite !andb_assoc.
Qed.

Lemma no_brace_sysroot_lib dirs host :
  no_brace (toolchain dirs) = true → no_brace host = true →
  no_brace (sysroot_lib dirs host) = true.
Proof.
  intros Ht Hh. unfold sysroot_lib.
  rewrite !no_brace_app, Ht, Hh. reflexivity.
Qed.

Lemma no_brace_sysroot_include dirs host :
  no_brace (toolchain dirs) = true → no_brace host = true →
  no_brace (sysroot_include dirs host) = true.
Proof.
  intros Ht Hh. unfold sysroot_include.
  rewrite !no_brace_app, Ht, Hh. reflexivity.
Qed.

(** One replacement field at the head of a template. *)
Lemma format_go_auto_field t pos kw idx :
  format_go ("{}" +:+ t) pos kw idx None
  = match pos !! idx with
    | Some v => map_inr (String.append v) (format_go t pos kw (S idx) None)
    | None => inl IndexError
    end.
Proof. reflexivity. Qed.

Lemma format_go_path_field t pos (kw : Env) idx :
  format_go ("{PATH}" +:+ t) pos kw idx None
  = match kw !! "PATH" with
    | Some v => map_inr (String.append v) (format_go t pos kw idx None)
    | None => inl (KeyError "PATH")
    end.
Proof. reflexivity. Qed.

Lemma format_go_host_field t pos (kw : Env) idx :
  format_go ("{RELENV_HOST}" +:+ t) pos kw idx None
  = match kw !! "RELENV_HOST" with
    | Some v => map_inr (String.append v) (format_go t pos kw idx None)
    | None => inl (KeyError "RELENV_HOST")
    end.
Proof. reflexivity. Qed.

(** The templates of [populate_env], evaluated. *)
Lemma format_path tc p (env : Env) :
  format "{}/bin/:{}/bin/:{PATH}" [tc; p] env
  = match env !! "PATH" with
    | Some v => inr (tc +:+ "/bin/:" +:+ p +:+ "/bin/:" +:+ v)
    | None => inl (KeyError "PATH")
    end.
Proof.
  unfold format.
  change "{}/bin/:{}/bin/:{PATH}"
    with ("{}" +:+ "/bin/:" +:+ "{}" +:+ "/bin/:" +:+ "{PATH}" +:+ "").
  rewrite format_go_auto_field. cbn [lookup list_lookup].
  rewrite format_go_plain by reflexivity.
  rewrite format_go_auto_field. cbn [lookup list_lookup].
  rewrite format_go_plain by reflexivity.
  rewrite format_go_path_field.
  destruct (env !! "PATH"); [|done].
  cbn [format_go map_inr]. by rewrite append_nil_r.
Qed.

Lemma format_sysroot_lib dirs (env : Env) :
  format "-L{}/{RELENV_HOST}/sysroot/lib" [toolchain dirs] env
  = match env !! "RELENV_HOST" with
    | Some h => inr (sysroot_lib dirs h)
    | None => inl (KeyError "RELENV_HOST")
    end.
Proof.
  unfold format.
  change "-L{}/{RELENV_HOST}/sysroot/lib"
    with ("-L" +:+ "{}" +:+ "/" +:+ "{RELENV_HOST}" +:+ "/sysroot/lib").
  rewrite format_go_plain by reflexivity.
  rewrite format_go_auto_field. cbn [lookup list_lookup].
  rewrite format_go_plain by reflexivity.
  rewrite format_go_host_field.
  destruct (env !! "RELENV_HOST"); [|done].
  reflexivity.
Qed.

Lemma format_sysroot_include dirs (env : Env) :
  format "-I{}/{RELENV_HOST}/sysroot/usr/include" [toolchain dirs] env
  = match env !! "RELENV_HOST" with
    | Some h => inr (sysroot_include dirs h)
    | None => inl (KeyError "RELENV_HOST")
    end.
Proof.
  unfold format.
  change "-I{}/{RELENV_HOST}/sysroot/usr/include"
    with ("-I" +:+ "{}" +:+ "/" +:+ "{RELENV_HOST}" +:+ "/sysroot/usr/include").
  rewrite format_go_plain by reflexivity.
  rewrite format_go_auto_field. cbn [lookup list_lookup].
  rewrite format_go_plain by reflexivity.
  rewrite format_go_host_field.
  destruct (env !! "RELENV_HOST"); [|done].
  reflexivity.
Qed.

Lemma format_ldflags x p :
  no_brace x = true →
  format (join " " ["-Wl,--build-id=sha1"; "-Wl,--rpath={prefix}/lib";
                    "-L{prefix}/lib"; x; "-static-libstdc++"])
         [] {[ "prefix" := p ]}
  = inr ("-Wl,--build-id=sha1 -Wl,--rpath=" +:+ p +:+ "/lib -L" +:+ p +:+
         "/lib " +:+ x +:+ " -static-libstdc++").
Proof.
  intros Hx. unfold format.
  change (join " " ["-Wl,--build-id=sha1"; "-Wl,--rpath={prefix}/lib";
                    "-L{prefix}/lib"; x; "-static-libstdc++"])
    with ("-Wl,--build-id=sha1 -Wl,--rpath=" +:+ "{prefix}" +:+ "/lib -L" +:+
          "{prefix}" +:+ "/lib " +:+ x +:+ " -static-libstdc++").
  rewrite format_go_plain by reflexivity.
  rewrite format_go_prefix_field.
  rewrite format_go_plain by reflexivity.
  rewrite format_go_prefix_field.
  rewrite format_go_plain by reflexivity.
  rewrite format_go_plain by done.
  reflexivity.
Qed.

Lemma format_cppflags x p :
  no_brace x = true →
  format (join " " ["-I{prefix}/include"; "-I{prefix}/include/readline";
                    "-I{prefix}/include/ncursesw"; x])
         [] {[ "prefix" := p ]}
  = inr ("-I" +:+ p +:+ "/include -I" +:+ p +:+ "/include/readline -I" +:+ p +:+
         "/include/ncursesw " +:+ x).
Proof.
  intros Hx. unfold format.
  change (join " " ["-I{prefix}/include"; "-I{prefix}/include/readline";
                    "-I{prefix}/include/ncursesw"; x])
    with ("-I" +:+ "{prefix}" +:+ "/include -I" +:+ "{prefix}" +:+
          "/include/readline -I" +:+ "{prefix}" +:+ "/include/ncursesw " +:+
          x).
  do 3 (rewrite format_go_plain by reflexivity; rewrite format_go_prefix_field).
  rewrite format_go_plain by reflexivity.
  rewrite format_go_plain_end by done.
  reflexivity.
Qed.

Lemma format_cflags x p :
  no_brace x = true →
  format (join " " ["-g"; "-I{prefix}/include"; "-I{prefix}/include/readline";
                    "-I{prefix}/include/ncursesw"; x])
         [] {[ "prefix" := p ]}
  = inr ("-g " +:+ "-I" +:+ p +:+ "/include -I" +:+ p +:+
         "/include/readline -I" +:+ p +:+ "/include/ncursesw " +:+ x).
Proof.
  intros Hx. unfold format.
  change (join " " ["-g"; "-I{prefix}/include"; "-I{prefix}/include/readline";
                    "-I{prefix}/include/ncursesw"; x])
    with ("-g " +:+
          join " " ["-I{prefix}/include"; "-I{prefix}/include/readline";
                    "-I{prefix}/include/ncursesw"; x]).
  rewrite format_go_plain by reflexivity.
  pose proof (format_cppflags x p Hx) as H. unfold format in H. by rewrite H.
Qed.

(** Running [populate_env] one statement at a time. *)
Lemma run_bind {S A B} (m : M S A) (f : A → M S B) s a s1 :
  m s = (inr a, s1) → bind m f s = f a s1.
Proof. intros H. unfold bind. by rewrite H. Qed.

Lemma run_env_get {B} k v (f : string → M Env B) (env : Env) :
  env !! k = Some v → bind (env_get k) f env = f v env.
Proof. intros H. unfold bind, env_get. by rewrite H. Qed.

Lemma run_env_get_none {B} k (f : string → M Env B) (env : Env) :
  env !! k = None → bind (env_get k) f env = (inl (KeyError k), env).
Proof. intros H. unfold bind, env_get. by rewrite H. Qed.

Lemma run_lift {S A B} (r : exn + A) (f : A → M S B) s :
  bind (lift r) f s
  = match r with inl e => (inl e, s) | inr a => f a s end.
Proof. by destruct r. Qed.

Lemma run_env_set {B} k v (f : unit → M Env B) (env : Env) :
  bind (env_set k v) f env = f tt (<[k := v]> env).
Proof. reflexivity. Qed.

Lemma run_get {S B} (f : S → M S B) s : bind get f s = f s s.
Proof. reflexivity. Qed.

(** With the host triplet and the search path in [env], and no brace in
    the toolchain directory or the triplet, [populate_env] returns and
    leaves [populated]. *)
Lemma populate_env_run dirs (env : Env) host path :
  env !! "RELENV_HOST" = Some host →
  env !! "PATH" = Some path →
  no_brace (toolchain dirs) = true →
  no_brace host = true →
  populate_env dirs env = (inr tt, populated dirs host path env).
Proof.
  intros Hh Hp Ht Hb. unfold populate_env.
  rewrite (run_env_get _ host) by done.
  rewrite run_lift, format_cc, run_env_set.
  rewrite (run_env_get _ host) by (by rewrite lookup_insert_ne).
  rewrite run_lift, format_cxx, run_env_set.
  rewrite run_get, run_lift, format_path.
  rewrite !lookup_insert_ne by done. rewrite Hp.
  rewrite run_env_set.
  rewrite run_get, run_lift, format_sysroot_lib.
  rewrite !lookup_insert_ne by done. rewrite Hh.
  rewrite run_lift, format_ldflags by (by apply no_brace_sysroot_lib).
  rewrite run_env_set.
  rewrite run_get, run_lift, format_sysroot_include.
  rewrite !lookup_insert_ne by done. rewrite Hh.
  rewrite run_lift, format_cflags by (by apply no_brace_sysroot_include).
  rewrite run_env_set.
  rewrite run_get, run_lift, format_sysroot_include.
  rewrite !lookup_insert_ne by done. rewrite Hh.
  rewrite run_lift, format_cppflags by (by apply no_brace_sysroot_include).
  rewrite run_env_set.
  rewrite run_lift, run_env_set.
  rewrite run_env_set.
  reflexivity.
Qed.

Lemma populate_env_run_no_host dirs (env : Env) :
  env !! "RELENV_HOST" = None →
  populate_env dirs env = (inl (KeyError "RELENV_HOST"), env).
Proof. intros H. unfold populate_env. by rewrite run_env_get_none. Qed.

Lemma populate_env_run_no_path dirs (env : Env) host :
  env !! "RELENV_HOST" = Some host →
  env !! "PATH" = None →
  populate_env dirs env
  = (inl (KeyError "PATH"),
     <["CXX" := toolchain dirs +:+ "/bin/" +:+ host +:+ "-g++ -no-pie"]>
       (<["CC" := toolchain dirs +:+ "/bin/" +:+ host +:+ "-gcc -no-pie"]> env)).
Proof.
  intros Hh Hp. unfold populate_env.
  rewrite (run_env_get _ host) by done.
  rewrite run_lift, format_cc, run_env_set.
  rewrite (run_env_get _ host) by (by rewrite lookup_insert_ne).
  rewrite run_lift, format_cxx, run_env_set.
  rewrite run_get, run_lift, format_path.
  rewrite !lookup_insert_ne by done. by rewrite Hp.
Qed.

(** X1.  The outcome of [populate_env], in full, when neither the toolchain
    directory nor the host triplet holds a brace.  Without [RELENV_HOST] it
    raises [KeyError] and [env] is untouched; with [RELENV_HOST] but without
    [PATH] it raises [KeyError] after [CC] and [CXX] have been assigned, and
    they stay assigned; with both it returns and [env] has its nine keys
    set: the compilers of the toolchain, [PATH] with the two [bin]
    directories in front of the old value, the three flag variables built
    from the prefix and the sysroot, [LD_LIBRARY_PATH] as the text
    ["{prefix}/lib"] with the braces left in, and [PKG_CONFIG_PATH]. *)
Theorem populate_env_outcome (dirs : Dirs) (env : Env) :
  no_brace (toolchain dirs) = true →
  (∀ host, env !! "RELENV_HOST" = Some host → no_brace host = true) →
  populate_env dirs env
  = match env !! "RELENV_HOST", env !! "PATH" with
    | None, _ => (inl (KeyError "RELENV_HOST"), env)
    | Some host, None =>
        (inl (KeyError "PATH"),
         <["CXX" := toolchain dirs +:+ "/bin/" +:+ host +:+ "-g++ -no-pie"]>
           (<["CC" := toolchain dirs +:+ "/bin/" +:+ host +:+ "-gcc -no-pie"]>
              env))
    | Some host, Some path => (inr tt, populated dirs host path env)
    end.
Proof.
  intros Ht Hb.
  destruct (env !! "RELENV_HOST") as [host|] eqn:Hh.
  - destruct (env !! "PATH") as [path|] eqn:Hp.
    + apply populate_env_run; auto.
    + by apply populate_env_run_no_path.
  - by apply populate_env_run_no_host.
Qed.

Lemma populate_env_outcome_witness :
  populate_env demo_dirs demo_env
  = (inr tt, populated demo_dirs "x86_64-linux-gnu" "/usr/bin" demo_env).
Proof.
  apply (populate_env_outcome demo_dirs demo_env).
  - reflexivity.
  - intros host H. vm_compute in H. injection H as <-. reflexivity.
Defined.

Lemma string_length_append a b :
  String.length (a +:+ b) = String.length a + String.length b.
Proof.
  induction a as [|c a IH]; [done|].
  change (String c a +:+ b) with (String c (a +:+ b)). simpl. by rewrite IH.
Qed.

Lemma string_append_assoc a b c : (a +:+ b) +:+ c = a +:+ (b +:+ c).
Proof.
  induction a as [|x a IH]; [done|].
  change (String x a +:+ b) with (String x (a +:+ b)).
  change (String x (a +:+ b) +:+ c) with (String x ((a +:+ b) +:+ c)).
  by rewrite IH.
Qed.

Lemma populated_host dirs host path (env : Env) :
  populated dirs host path env !! "RELENV_HOST" = env !! "RELENV_HOST".
Proof. unfold populated. by rewrite !lookup_insert_ne by done. Qed.

Lemma populated_path dirs host path (env : Env) :
  populated dirs host path env !! "PATH"
  = Some (toolchain dirs +:+ "/bin/:" +:+ prefix dirs +:+ "/bin/:" +:+ path).
Proof.
  unfold populated. rewrite !lookup_insert_ne by done.
  apply lookup_insert_eq.
Qed.

(** Apart from [PATH], a second [populated] assigns what the first one
    did. *)
Lemma populated_again dirs host path path' (env : Env) k :
  k ≠ "PATH" →
  populated dirs host path' (populated dirs host path env) !! k
  = populated dirs host path env !! k.
Proof.
  intros Hk. unfold populated at 1.
  set (inner := populated dirs host path env).
  repeat match goal with
  | |- <[?j := _]> _ !! k = _ =>
      destruct (decide (k = j)) as [->|];
      [first [ congruence
             | rewrite lookup_insert_eq; subst inner; unfold populated;
               repeat (rewrite lookup_insert_ne; [|done]);
               by rewrite lookup_insert_eq ]
      |rewrite lookup_insert_ne by done]
  end.
  reflexivity.
Qed.

(** X2.  [populate_env] is not idempotent.  Called a second time on the
    mapping it has just populated, it returns again, every key other than
    [PATH] keeps the value of the first call, and [PATH] gets the two [bin]
    directories in front a second time; so the mapping after the second
    call differs from the mapping after the first. *)
Theorem populate_env_not_idempotent (dirs : Dirs) (env : Env)
    (host path : string) :
  env !! "RELENV_HOST" = Some host →
  env !! "PATH" = Some path →
  no_brace (toolchain dirs) = true →
  no_brace host = true →
  let env1 := snd (populate_env dirs env) in
  let env2 := snd (populate_env dirs env1) in
  fst (populate_env dirs env1) = inr tt
  ∧ env1 !! "PATH"
    = Some (toolchain dirs +:+ "/bin/:" +:+ prefix dirs +:+ "/bin/:" +:+ path)
  ∧ env2 !! "PATH"
    = Some (toolchain dirs +:+ "/bin/:" +:+ prefix dirs +:+ "/bin/:" +:+
            toolchain dirs +:+ "/bin/:" +:+ prefix dirs +:+ "/bin/:" +:+ path)
  ∧ (∀ k, k ≠ "PATH" → env2 !! k = env1 !! k)
  ∧ env2 ≠ env1.
Proof.
  intros Hh Hp Ht Hb env1 env2. subst env2 env1.
  rewrite (populate_env_run dirs env host path) by done.
  cbn [snd].
  rewrite (populate_env_run dirs _ host _
             (eq_trans (populated_host _ _ _ _) Hh) (populated_path _ _ _ _))
    by done.
  cbn [fst snd].
  split; [done|]. split; [apply populated_path|].
  split; [apply populated_path|].
  split; [intros k Hk; by apply populated_again|].
  intros E.
  pose proof (populated_path dirs host
                (toolchain dirs +:+ "/bin/:" +:+ prefix dirs +:+ "/bin/:" +:+ path)
                (populated dirs host path env)) as H2.
  rewrite E, populated_path in H2.
  injection H2 as H2. apply (f_equal String.length) in H2.
  rewrite !string_length_append in H2. simpl in H2. lia.
Qed.

Lemma populate_env_not_idempotent_witness :
  snd (populate_env demo_dirs demo_env) !! "PATH"
  = Some ("/tc" +:+ "/bin/:" +:+ "/p" +:+ "/bin/:" +:+ "/usr/bin")
  ∧ snd (populate_env demo_dirs (snd (populate_env demo_dirs demo_env)))
      !! "PATH"
    = Some ("/tc" +:+ "/bin/:" +:+ "/p" +:+ "/bin/:" +:+
            "/tc" +:+ "/bin/:" +:+ "/p" +:+ "/bin/:" +:+ "/usr/bin").
Proof.
  pose proof (populate_env_not_idempotent demo_dirs demo_env
                "x86_64-linux-gnu" "/usr/bin") as H.
  cbv zeta in H.
  destruct H as (_ & H1 & H2 & _); try reflexivity.
  split; [exact H1 | exact H2].
Defined.

Lemma map_inr_inl {A B} (f : A → B) (r : exn + A) e :
  r = inl e → map_inr f r = inl e.
Proof. by intros ->. Qed.

(** A closing brace that is not doubled stops the formatting. *)
Lemma format_go_single_brace t pos kw idx :
  (∀ t', t ≠ String "}" t') →
  format_go ("}" +:+ t) pos kw idx None
  = inl (ValueError "Single '}' encountered in format string").
Proof.
  intros H. change ("}" +:+ t) with (String "}" t).
  destruct t as [|c t]; [reflexivity|].
  cbn [format_go]. change (Ascii.eqb "}" "{") with false.
  change (Ascii.eqb "}" "}") with true. cbv iota.
  destruct (Ascii.eqb_spec c "}") as [->|Hc]; [by destruct (H t)|].
  destruct c as [[] [] [] [] [] [] [] []]; try reflexivity.
  by destruct Hc.
Qed.

(** X3.  The toolchain directory is read as a template.  [populate_env]
    puts it into the [-L] entry of [LDFLAGS] with a first [format] and then
    formats the joined flags a second time; a toolchain directory whose
    name holds a single closing brace makes that second [format] raise
    [ValueError], after [CC], [CXX] and [PATH] have been assigned and
    before any of the flag variables is. *)
Theorem populate_env_reparses_toolchain (dirs : Dirs) (env : Env)
    (host path a b : string) :
  env !! "RELENV_HOST" = Some host →
  env !! "PATH" = Some path →
  toolchain dirs = a +:+ "}" +:+ b →
  no_brace a = true →
  (∀ b', b ≠ String "}" b') →
  populate_env dirs env
  = (inl (ValueError "Single '}' encountered in format string"),
     <["PATH" := toolchain dirs +:+ "/bin/:" +:+ prefix dirs +:+ "/bin/:" +:+ path]>
       (<["CXX" := toolchain dirs +:+ "/bin/" +:+ host +:+ "-g++ -no-pie"]>
          (<["CC" := toolchain dirs +:+ "/bin/" +:+ host +:+ "-gcc -no-pie"]>
             env))).
Proof.
  intros Hh Hp Ht Ha Hb. unfold populate_env.
  rewrite (run_env_get _ host) by done.
  rewrite run_lift, format_cc, run_env_set.
  rewrite (run_env_get _ host) by (by rewrite lookup_insert_ne).
  rewrite run_lift, format_cxx, run_env_set.
  rewrite run_get, run_lift, format_path.
  rewrite !lookup_insert_ne by done. rewrite Hp.
  rewrite run_env_set.
  rewrite run_get, run_lift, format_sysroot_lib.
  rewrite !lookup_insert_ne by done. rewrite Hh.
  rewrite run_lift.
  match goal with
  | |- match ?r with _ => _ end = _ =>
      assert (E : r = inl (ValueError "Single '}' encountered in format string"))
  end.
  { unfold format, sysroot_lib. rewrite Ht.
    change (join " " ["-Wl,--build-id=sha1"; "-Wl,--rpath={prefix}/lib";
                      "-L{prefix}/lib";
                      "-L" +:+ (a +:+ "}" +:+ b) +:+ "/" +:+ host +:+ "/sysroot/lib";
                      "-static-libstdc++"])
      with ("-Wl,--build-id=sha1 -Wl,--rpath=" +:+ "{prefix}" +:+ "/lib -L" +:+
            "{prefix}" +:+ "/lib -L" +:+
            ((a +:+ "}" +:+ b) +:+ "/" +:+ host +:+ "/sysroot/lib") +:+
            " -static-libstdc++").
    rewrite format_go_plain by reflexivity.
    rewrite format_go_prefix_field.
    rewrite format_go_plain by reflexivity.
    rewrite format_go_prefix_field.
    rewrite !string_append_assoc.
    rewrite <- (string_append_assoc "/lib -L" a).
    rewrite format_go_plain by (by rewrite no_brace_app, Ha).
    rewrite format_go_single_brace; [done|].
    intros t'. destruct b as [|c b]; [discriminate|].
    change (String c b +:+ ?x) with (String c (b +:+ x)).
    intros [= -> _]. by destruct (Hb b). }
  by rewrite E.
Qed.

Lemma populate_env_reparses_toolchain_witness :
  fst (populate_env brace_dirs demo_env)
  = inl (ValueError "Single '}' encountered in format string").
Proof.
  rewrite (populate_env_reparses_toolchain brace_dirs demo_env
             "x86_64-linux-gnu" "/usr/bin" "/opt/tc" "1");
    try reflexivity.
  intros b'. discriminate.
Defined.

(** ** The command [relenv buildenv] *)

Lemma foldl_export acc (l : list (string * string)) :
  foldl (λ script kv, script +:+ export_line kv.1 kv.2) acc l
  = acc +:+ String.concat "" (map (λ kv, export_line kv.1 kv.2) l).
Proof.
  revert acc. induction l as [|kv l IH]; intros acc; simpl.
  - by rewrite append_nil_r.
  - rewrite IH. destruct l as [|kv' l]; simpl.
    + by rewrite !append_nil_r.
    + by rewrite string_append_assoc.
Qed.

(** The dictionary display has the fifteen keys of [buildenv_display_keys]
    and no other. *)
Lemma buildenv_dict_keys sys tc t rp k :
  k ∈ buildenv_display_keys ↔ is_Some (buildenv_dict sys tc t rp !! k).
Proof.
  unfold buildenv_dict, buildenv_display_keys. split.
  - intros H.
    repeat (apply elem_of_cons in H as [->|H];
            [repeat (rewrite lookup_insert_ne; [|discriminate]);
             rewrite lookup_insert_eq; eauto|]).
    by apply elem_of_nil in H.
  - intros H.
    repeat (apply lookup_insert_is_Some in H as [<-|[_ H]];
            [repeat first [apply list_elem_of_here | apply list_elem_of_further]|]).
    rewrite lookup_empty in H. by destruct H.
Qed.

Lemma omap_present (env : gmap string string) (l : list string) :
  (∀ k, k ∈ l → is_Some (env !! k)) →
  omap (λ k, pair k <$> env !! k) l
  = map (λ k, (k, default "" (env !! k))) l.
Proof.
  induction l as [|k l IH]; intros H; [done|].
  destruct (H k) as [v Hv]; [apply list_elem_of_here|].
  cbn [omap list_omap map]. rewrite Hv. cbn [fmap option_fmap option_map default].
  f_equal. apply IH. intros k' Hk'. apply H. by apply list_elem_of_further.
Qed.

Lemma items_buildenv_dict sys tc t rp :
  items (buildenv_dict sys tc t rp)
  = map (λ k, (k, default "" (buildenv_dict sys tc t rp !! k)))
        buildenv_display_keys.
Proof.
  unfold items, buildenv_key_order.
  rewrite omap_app, omap_present by (intros k; apply buildenv_dict_keys).
  cbn [omap list_omap]. rewrite buildenv_dict_no_macos.
  apply app_nil_r.
Qed.

Section MainFacts.
Variable wd : Sys → exn + WorkDirs.
Variable gt : Sys → exn + string.
Variable mac : string.

Lemma output_run o st :
  output o st
  = (inr tt, {| ms_calls := ms_calls st; ms_out := ms_out st ++ [o] |}).
Proof. reflexivity. Qed.

Lemma calling_is_relenv sys st :
  calling (is_relenv sys) st
  = (inr (bool_decide (is_Some (sys_RELENV sys))),
     {| ms_calls := ms_calls st ++ [CallIsRelenv]; ms_out := ms_out st |}).
Proof. reflexivity. Qed.

Lemma buildenv_off_linux_run sys p calls :
  sys_RELENV sys = Some p →
  (sys_platform sys =? "linux") = false →
  buildenv wd gt mac sys PyNone calls
  = (inl (RelenvException "buildenv is only supported on Linux"),
     calls ++ [CallIsRelenv]).
Proof.
  intros Hr Hp.
  unfold buildenv, bind, is_relenv, log_call, modify, ret, raise.
  cbn -[buildenv_dict path_join]. rewrite Hr, Hp. reflexivity.
Qed.

Lemma buildenv_linux_run sys p d t calls :
  sys_RELENV sys = Some p →
  sys_platform sys = "linux" →
  wd sys = inr d →
  gt sys = inr t →
  buildenv wd gt mac sys PyNone calls
  = (inr (buildenv_dict sys (path_join (wd_toolchain d) t) t (py_str p)),
     calls ++ [CallIsRelenv; CallWorkDirs; CallGetTriplet; CallGetTriplet]).
Proof.
  intros Hr Hp Hd Ht.
  unfold buildenv, bind, is_relenv, work_dirs, get_triplet, log_call,
    modify, ret, raise, lift.
  cbn -[buildenv_dict path_join].
  rewrite Hr, Hp, Hd, Ht.
  cbn -[buildenv_dict path_join].
  by rewrite <- !app_assoc.
Qed.

(** [main], one branch at a time. *)
Lemma main_cases sys st :
  main wd gt mac sys st
  = match sys_RELENV sys with
    | None =>
        (inl (SystemExit "1"),
         {| ms_calls := ms_calls st ++ [CallIsRelenv];
            ms_out := ms_out st ++
                      [OBasicConfig; OLogError "Not in a relenv environment."] |})
    | Some _ =>
        if String.eqb (sys_platform sys) "linux" then
          match buildenv wd gt mac sys PyNone (ms_calls st ++ [CallIsRelenv]) with
          | (inl e, calls) =>
              (inl e, {| ms_calls := calls;
                         ms_out := ms_out st ++ [OBasicConfig] |})
          | (inr env, calls) =>
              (inr tt,
               {| ms_calls := calls;
                  ms_out := ms_out st ++
                            [OBasicConfig;
                             OPrint (foldl (λ script kv,
                                              script +:+ export_line kv.1 kv.2)
                                           "" (items env))] |})
          end
        else
          (inl (RelenvException "buildenv is only supported on Linux"),
           {| ms_calls := ms_calls st ++ [CallIsRelenv; CallIsRelenv];
              ms_out := ms_out st ++
                        [OBasicConfig;
                         OLogError "buildenv is only supported on Linux."] |})
    end.
Proof.
  unfold main.
  rewrite (run_bind _ _ _ _ _ (output_run _ _)).
  rewrite (run_bind _ _ _ _ _ (calling_is_relenv _ _)).
  cbn [ms_calls ms_out].
  destruct (sys_RELENV sys) as [p|] eqn:Hr.
  - rewrite bool_decide_eq_true_2 by eauto. cbn [negb].
    rewrite (run_bind (ret tt) _ _ tt _ eq_refl).
    destruct (String.eqb (sys_platform sys) "linux") eqn:Hp; cbn [negb].
    + rewrite (run_bind (ret tt) _ _ tt _ eq_refl).
      unfold bind, calling. cbn [ms_calls ms_out].
      destruct (buildenv wd gt mac sys PyNone (ms_calls st ++ [CallIsRelenv]))
        as [[e|env] calls]; [done|].
      unfold output, modify. cbn [ms_calls ms_out].
      by rewrite <- app_assoc.
    + rewrite (run_bind _ _ _ _ _ (output_run _ _)).
      unfold bind, calling. cbn [ms_calls ms_out].
      rewrite (buildenv_off_linux_run sys p) by done.
      by rewrite <- !app_assoc.
  - rewrite bool_decide_eq_false_2 by (by intros [? ?]). cbn [negb].
    unfold bind, output, modify, raise. cbn [ms_calls ms_out].
    by rewrite <- app_assoc.
Qed.

(** X4.  Outside a relenv environment [main] asks [is_relenv] once,
    reports ["Not in a relenv environment."] as an error of the root logger
    and leaves through [sys.exit(1)]: [buildenv], [work_dirs] and
    [get_triplet] are not called and nothing is printed. *)
Theorem main_outside_relenv (sys : Sys) (st : MainState) :
  sys_RELENV sys = None →
  main wd gt mac sys st
  = (inl (SystemExit "1"),
     {| ms_calls := ms_calls st ++ [CallIsRelenv];
        ms_out := ms_out st ++
                  [OBasicConfig; OLogError "Not in a relenv environment."] |}).
Proof. intros Hr. by rewrite main_cases, Hr. Qed.

(** X5.  Inside a relenv environment on a platform other than linux,
    [main] reports ["buildenv is only supported on Linux."] as an error but
    does not exit: it goes on to call [buildenv], whose own platform test
    ends the command with [RelenvException] (after a second [is_relenv]
    call, before [work_dirs] and [get_triplet]); nothing is printed. *)
Theorem main_off_linux (sys : Sys) (st : MainState) (p : PyArg) :
  sys_RELENV sys = Some p →
  sys_platform sys ≠ "linux" →
  main wd gt mac sys st
  = (inl (RelenvException "buildenv is only supported on Linux"),
     {| ms_calls := ms_calls st ++ [CallIsRelenv; CallIsRelenv];
        ms_out := ms_out st ++
                  [OBasicConfig;
                   OLogError "buildenv is only supported on Linux."] |}).
Proof.
  intros Hr Hp. apply String.eqb_neq in Hp. by rewrite main_cases, Hr, Hp.
Qed.

(** X6.  On linux, inside a relenv environment and with [work_dirs] and
    [get_triplet] answering, [main] returns after a single [print]: the
    text printed is one line [export KEY="VALUE"] for each of the fifteen
    entries of the mapping that [buildenv()] returns, in the order of the
    dictionary display, each line ended by a newline. *)
Theorem main_prints_exports (sys : Sys) (st : MainState) (p : PyArg)
    (d : WorkDirs) (t : string) :
  sys_RELENV sys = Some p →
  sys_platform sys = "linux" →
  wd sys = inr d →
  gt sys = inr t →
  ∃ env,
    fst (buildenv wd gt mac sys PyNone []) = inr env
    ∧ (∀ k, k ∈ buildenv_display_keys ↔ is_Some (env !! k))
    ∧ main wd gt mac sys st
      = (inr tt,
         {| ms_calls := ms_calls st ++
                        [CallIsRelenv; CallIsRelenv; CallWorkDirs;
                         CallGetTriplet; CallGetTriplet];
            ms_out := ms_out st ++
                      [OBasicConfig;
                       OPrint (String.concat ""
                                 (map (λ k, export_line k (default "" (env !! k)))
                                      buildenv_display_keys))] |}).
Proof.
  intros Hr Hp Hd Ht.
  exists (buildenv_dict sys (path_join (wd_toolchain d) t) t (py_str p)).
  split; [|split].
  - by rewrite (buildenv_linux_run sys p d t).
  - apply buildenv_dict_keys.
  - rewrite main_cases, Hr, (proj2 (String.eqb_eq _ _) Hp).
    rewrite (buildenv_linux_run sys p d t) by done.
    rewrite foldl_export, items_buildenv_dict, map_map.
    rewrite <- !app_assoc. reflexivity.
Qed.

(** X7.  [main] prints only when it succeeds.  Whatever the platform, the
    interpreter and the helpers: what [main] sends out is added after what
    was sent before; when it returns, the platform is linux, [sys.RELENV]
    exists and exactly one text was printed, after the logging set-up; when
    it does not return, nothing was printed. *)
Theorem main_prints_only_on_success (sys : Sys) (st : MainState) :
  ∃ evs,
    ms_out (snd (main wd gt mac sys st)) = ms_out st ++ evs
    ∧ (fst (main wd gt mac sys st) = inr tt →
       sys_platform sys = "linux" ∧ is_Some (sys_RELENV sys)
       ∧ ∃ script, evs = [OBasicConfig; OPrint script])
    ∧ (fst (main wd gt mac sys st) ≠ inr tt → ∀ script, OPrint script ∉ evs).
Proof.
  rewrite main_cases.
  destruct (sys_RELENV sys) as [p|] eqn:Hr.
  - destruct (String.eqb (sys_platform sys) "linux") eqn:Hp.
    + apply String.eqb_eq in Hp.
      destruct (buildenv wd gt mac sys PyNone (ms_calls st ++ [CallIsRelenv]))
        as [[e|env] calls].
      * eexists. split; [reflexivity|]. split; [discriminate|].
        intros _ script. absent.
      * eexists. split; [reflexivity|]. split; [|done].
        intros _. eauto.
    + eexists. split; [reflexivity|]. split; [discriminate|].
      intros _ script. absent.
  - eexists. split; [reflexivity|]. split; [discriminate|].
    intros _ script. absent.
Qed.

(** X8.  What [buildenv] reads of the interpreter.  Two interpreter states
    with the same platform, on which [work_dirs] and [get_triplet] answer
    alike, and whose environments agree on [RUSTFLAGS], give the same
    outcome, provided they also agree on [sys.RELENV] or a [relenv_path]
    was supplied: no other environment variable is read, and with an
    explicit [relenv_path] the attribute [sys.RELENV] is not read
    either. *)
Theorem buildenv_reads (sys sys' : Sys) (arg : PyArg) (calls : list Call) :
  sys_platform sys' = sys_platform sys →
  truthy arg = true ∨ sys_RELENV sys' = sys_RELENV sys →
  os_environ sys' !! "RUSTFLAGS" = os_environ sys !! "RUSTFLAGS" →
  wd sys' = wd sys →
  gt sys' = gt sys →
  buildenv wd gt mac sys' arg calls = buildenv wd gt mac sys arg calls.
Proof.
  intros Hp Hr He Hw Hg.
  unfold buildenv, is_relenv, work_dirs, get_triplet, buildenv_dict,
    environ_get.
  rewrite Hp, He, Hw, Hg.
  destruct Hr as [Ha|Hr].
  - rewrite Ha. reflexivity.
  - rewrite Hr. reflexivity.
Qed.
End MainFacts.

Lemma main_outside_relenv_witness :
  main sample_work_dirs sample_triplet "10.15" plain_linux_sys main_start
  = (inl (SystemExit "1"),
     {| ms_calls := [CallIsRelenv];
        ms_out := [OBasicConfig; OLogError "Not in a relenv environment."] |}).
Proof.
  apply (main_outside_relenv sample_work_dirs sample_triplet "10.15"
           plain_linux_sys main_start).
  reflexivity.
Defined.

Lemma main_off_linux_witness :
  main sample_work_dirs sample_triplet "10.15" darwin_sys main_start
  = (inl (RelenvException "buildenv is only supported on Linux"),
     {| ms_calls := [CallIsRelenv; CallIsRelenv];
        ms_out := [OBasicConfig;
                   OLogError "buildenv is only supported on Linux."] |}).
Proof.
  apply (main_off_linux sample_work_dirs sample_triplet "10.15"
           darwin_sys main_start (PyPath "/opt/relenv")).
  - reflexivity.
  - discriminate.
Defined.

Lemma main_prints_exports_witness :
  ∃ env,
    fst (buildenv sample_work_dirs sample_triplet "10.15" linux_sys PyNone [])
    = inr env
    ∧ (∀ k, k ∈ buildenv_display_keys ↔ is_Some (env !! k))
    ∧ main sample_work_dirs sample_triplet "10.15" linux_sys main_start
      = (inr tt,
         {| ms_calls := [CallIsRelenv; CallIsRelenv; CallWorkDirs;
                         CallGetTriplet; CallGetTriplet];
            ms_out := [OBasicConfig;
                       OPrint (String.concat ""
                                 (map (λ k, export_line k (default "" (env !! k)))
                                      buildenv_display_keys))] |}).
Proof.
  apply (main_prints_exports sample_work_dirs sample_triplet "10.15"
           linux_sys main_start (PyPath "/opt/relenv")
           {| wd_toolchain := "/root/.local/relenv/toolchain" |}
           "x86_64-linux-gnu"); reflexivity.
Defined.

Lemma buildenv_reads_witness :
  buildenv sample_work_dirs sample_triplet "10.15" home_linux_sys PyNone []
  = buildenv sample_work_dirs sample_triplet "10.15" linux_sys PyNone [].
Proof.
  apply (buildenv_reads sample_work_dirs sample_triplet "10.15"
           linux_sys home_linux_sys PyNone []).
  - reflexivity.
  - right. reflexivity.
  - reflexivity.
  - reflexivity.
  - reflexivity.
Defined.

(** ** The build procedures, whatever the commands answer *)

Ltac unfold_recipes :=
  unfold build_bzip2, build_libxcrypt, build_gdbm, build_ncurses,
    build_readline, build_libffi, build_zlib, build_sasl, build_libyaml,
    build_libsodium, build_libmd, build_libbsd, build_zeromq,
    build_openldap, build_krb, build_python, set_fpic_cflags,
    configure_libdir, make_and_install, runcmd.

Section LogAll.
Variable os_impl : list Event → Event → exn + unit.
Variable exists_impl : list Event → string → bool.
Variable tmp_name : list Event → string → string.

(** In [build_python] the commands started without [logfp] are the three
    [sed] calls. *)
Lemma build_python_emits dirs logfp :
  emits (λ e, logged logfp e ∨ ∃ c, e = ERun c ∧ c ∈ python_seds)
        (build_python os_impl exists_impl tmp_name dirs logfp).
Proof.
  unfold build_python, make_and_install, runcmd.
  repeat first
    [ apply emits_with_tempfile;
        [by left | intros ?; by left | intros ?]
    | apply emits_emit;
        first [ left; simpl; first [exact I | split; reflexivity]
              | right; eexists; split; [reflexivity|];
                unfold python_seds;
                repeat first [apply list_elem_of_here | apply list_elem_of_further] ]
    | apply emits_path_exists; by left
    | apply emits_ret
    | apply emits_on_env
    | apply emits_bind; [|intros ?]
    | match goal with
      | |- emits _ (if ?b then _ else _) => destruct b
      end ].
Qed.

(** X9.  Where the output of the commands goes.  Whatever the commands
    answer, a build procedure only adds to the record of events, and every
    command it starts has both [stdout] and [stderr] on [logfp], with one
    exception: the three [sed] calls of [build_python], which are started
    with no stream and no [env]. *)
Theorem recipes_log_commands (r : Recipe) (dirs : Dirs) (logfp : Handle)
    (st : BState) :
  ∃ evs,
    bs_trace (snd (recipe_run os_impl exists_impl tmp_name r dirs logfp st))
    = bs_trace st ++ evs
    ∧ ∀ c, ERun c ∈ evs →
           (rc_stdout c = Some logfp ∧ rc_stderr c = Some logfp)
           ∨ (r = r_python ∧ c ∈ python_seds
              ∧ rc_stdout c = None ∧ rc_stderr c = None ∧ rc_env c = None).
Proof.
  assert (r = r_python ∨ r ≠ r_python) as [->|Hr]
    by (destruct r; first [by left | by right]).
  - destruct (build_python_emits dirs logfp st) as (evs & E & F).
    exists evs. split; [exact E|].
    intros c Hc. rewrite Forall_forall in F.
    destruct (F _ Hc) as [Hl|(c' & [= <-] & Hin)]; [by left|].
    right. split; [done|]. split; [done|].
    unfold python_seds in Hin.
    repeat (apply elem_of_cons in Hin as [->|Hin]; [done|]).
    by apply elem_of_nil in Hin.
  - destruct (recipes_log_everything os_impl exists_impl tmp_name r dirs logfp Hr st)
      as (evs & E & F).
    exists evs. split; [exact E|].
    intros c Hc. rewrite Forall_forall in F. left. exact (F _ Hc).
Qed.

Lemma answered_app t e1 e2 :
  answered os_impl t e1 → answered os_impl (t ++ e1) e2 →
  answered os_impl t (e1 ++ e2).
Proof.
  revert t. induction e1 as [|e e1 IH]; intros t H1 H2; simpl in *.
  - by rewrite app_nil_r in H2.
  - destruct H1 as [He H1]. split; [done|].
    apply IH; [done|]. by rewrite <- app_assoc.
Qed.

Lemma ff_ret {A} (a : A) : fail_fast os_impl (ret a).
Proof. intros st. exists []. split; [by rewrite app_nil_r|done]. Qed.

Lemma ff_on_env {A} (m : M Env A) : fail_fast os_impl (on_env m).
Proof.
  intros st. exists []. unfold on_env.
  destruct (m (bs_env st)); simpl. split; [by rewrite app_nil_r|done].
Qed.

Lemma ff_bind {A B} (m : M BState A) (f : A → M BState B) :
  fail_fast os_impl m → (∀ a, fail_fast os_impl (f a)) →
  fail_fast os_impl (bind m f).
Proof.
  intros Hm Hf st. unfold bind.
  destruct (Hm st) as (e1 & E1 & F1).
  destruct (m st) as [[e|a] st']; simpl in *.
  - exists e1. split; [done|]. discriminate.
  - destruct (Hf a st') as (e2 & E2 & F2).
    exists (e1 ++ e2). rewrite E2, E1, app_assoc. split; [done|].
    intros b Hb. apply answered_app; [by eapply F1|].
    rewrite <- E1. by eapply F2.
Qed.

Lemma ff_emit e : fail_fast os_impl (emit os_impl e).
Proof.
  intros st. exists [e]. unfold emit.
  destruct (os_impl (bs_trace st) e) as [x|[]] eqn:E; simpl.
  - split; [done|]. discriminate.
  - split; [done|]. intros _ _. split; [|done]. by destruct e.
Qed.

Lemma ff_path_exists p : fail_fast os_impl (path_exists exists_impl p).
Proof. intros st. exists [EExists p]. split; [done|]. by intros. Qed.

Lemma ff_finally {A} (m : M BState A) (c : M BState unit) :
  fail_fast os_impl m → fail_fast os_impl c → fail_fast os_impl (finally m c).
Proof.
  intros Hm Hc st. unfold finally.
  destruct (Hm st) as (e1 & E1 & F1).
  destruct (m st) as [r st']; simpl in *.
  destruct (Hc st') as (e2 & E2 & F2).
  exists (e1 ++ e2).
  destruct (c st') as [[e|u] st'']; simpl in *;
    rewrite E2, E1, app_assoc; (split; [done|]).
  - discriminate.
  - intros a Ha. apply answered_app; [by eapply F1|].
    rewrite <- E1. by eapply F2.
Qed.

Lemma ff_with_tempfile {A} suffix (body : string → M BState A) :
  (∀ n, fail_fast os_impl (body n)) →
  fail_fast os_impl (with_tempfile os_impl tmp_name suffix body).
Proof.
  intros Hb. unfold with_tempfile.
  apply ff_bind.
  { intros st. exists []. split; [by rewrite app_nil_r|done]. }
  intros n. apply ff_bind; [apply ff_emit|]. intros _.
  apply ff_finally; [apply Hb|apply ff_emit].
Qed.

(** X10.  No failure is swallowed.  When a build procedure returns, every
    command it started and every file operation it made was answered
    without an error: no procedure catches the exception of a failed
    command, and the [finally] of the temporary file of [build_python]
    passes it on. *)
Theorem recipes_fail_fast (r : Recipe) (dirs : Dirs) (logfp : Handle)
    (st : BState) :
  ∃ evs,
    bs_trace (snd (recipe_run os_impl exists_impl tmp_name r dirs logfp st))
    = bs_trace st ++ evs
    ∧ (fst (recipe_run os_impl exists_impl tmp_name r dirs logfp st) = inr tt →
       answered os_impl (bs_trace st) evs).
Proof.
  assert (H : fail_fast os_impl
                (recipe_run os_impl exists_impl tmp_name r dirs logfp)).
  { destruct r; simpl; unfold_recipes;
      repeat first
        [ apply ff_with_tempfile; intros ?
        | apply ff_emit
        | apply ff_path_exists
        | apply ff_ret
        | apply ff_on_env
        | apply ff_bind; [|intros ?]
        | match goal with
          | |- fail_fast _ (if ?b then _ else _) => destruct b
          end ]. }
  destruct (H st) as (evs & E & F).
  exists evs. split; [exact E|]. apply F.
Qed.

Lemma quiet_ret {A} (a : A) : quiet (ret a).
Proof. by intros st. Qed.

Lemma quiet_on_env {A} (m : M Env A) : quiet (on_env m).
Proof. intros st. unfold on_env. by destruct (m (bs_env st)). Qed.

Lemma quiet_bind {A B} (m : M BState A) (f : A → M BState B) :
  quiet m → (∀ a, quiet (f a)) → quiet (bind m f).
Proof.
  intros Hm Hf st. unfold bind. specialize (Hm st).
  destruct (m st) as [[e|a] st']; simpl in *; [done|].
  by rewrite Hf.
Qed.

Lemma steady_ret {A} env (a : A) : steady env (ret a).
Proof.
  intros st H. split; [done|]. exists []. by rewrite app_nil_r.
Qed.

Lemma steady_env_get env k : steady env (on_env (env_get k)).
Proof.
  intros st H. unfold on_env, env_get.
  destruct (bs_env st !! k); simpl;
    (split; [done|]; exists []; by rewrite app_nil_r).
Qed.

Lemma steady_emit env e : carries env e → steady env (emit os_impl e).
Proof.
  intros He st H. unfold emit.
  destruct (os_impl _ _); simpl;
    (split; [done|]; exists [e]; split; [done|by apply Forall_singleton]).
Qed.

Lemma steady_bind {A B} env (m : M BState A) (f : A → M BState B) :
  steady env m → (∀ a, steady env (f a)) → steady env (bind m f).
Proof.
  intros Hm Hf st H. unfold bind.
  destruct (Hm st H) as (E0 & e1 & E1 & F1).
  destruct (m st) as [[e|a] st']; simpl in *; [eauto|].
  destruct (Hf a st' E0) as (E0' & e2 & E2 & F2).
  split; [done|]. exists (e1 ++ e2).
  rewrite E2, E1, app_assoc. split; [done|]. by apply Forall_app.
Qed.

(** [env <~ on_env get ;; k env]: what follows is given the mapping
    itself. *)
Lemma steady_get_bind {B} env (f : Env → M BState B) :
  steady env (f env) → steady env (bind (on_env get) f).
Proof.
  intros Hf st H. unfold bind, on_env, get.
  destruct st as [e t]; simpl in *. subst e. by apply Hf.
Qed.

Lemma steady_settled {A} (m : M BState A) :
  (∀ env, steady env m) → env_settled m.
Proof.
  intros H st. destruct (H (bs_env st) st eq_refl) as (E0 & evs & E & F).
  exists evs. split; [done|]. by rewrite E0.
Qed.

Lemma quiet_bind_settled {A B} (m : M BState A) (f : A → M BState B) :
  quiet m → (∀ a, env_settled (f a)) → env_settled (bind m f).
Proof.
  intros Hm Hf st. unfold bind. specialize (Hm st).
  destruct (m st) as [[e|a] st']; simpl in *.
  - exists []. by rewrite app_nil_r.
  - destruct (Hf a st') as (evs & E & F).
    exists evs. by rewrite E, Hm.
Qed.

Ltac quiet_step :=
  first
    [ apply quiet_ret
    | apply quiet_on_env
    | apply quiet_bind; [|intros ?]
    | match goal with
      | |- quiet (if ?b then _ else _) => destruct b
      end ].

Ltac steady_step :=
  first
    [ apply steady_ret
    | apply steady_env_get
    | apply steady_get_bind
    | apply steady_emit; simpl; first [exact I | by intros ? [= <-]]
    | apply steady_bind; [|intros ?]
    | match goal with
      | |- steady _ (if ?b then _ else _) => destruct b
      end ].

Ltac settle :=
  first
    [ solve [apply steady_settled; intros ?; repeat steady_step]
    | apply quiet_bind_settled; [solve [repeat quiet_step]|intros ?; settle] ].

(** X11.  The mapping is adjusted before the first command.  In every
    build procedure other than [build_python], whatever the commands
    answer, each command that is given [env=] is given the mapping as the
    procedure leaves it: all assignments to [env] come before the first
    command, so no command of the procedure runs with flags that are only
    partly adjusted. *)
Theorem recipes_settle_env_first (r : Recipe) (dirs : Dirs) (logfp : Handle)
    (st : BState) :
  r ≠ r_python →
  ∃ evs,
    bs_trace (snd (recipe_run os_impl exists_impl tmp_name r dirs logfp st))
    = bs_trace st ++ evs
    ∧ ∀ c env,
        ERun c ∈ evs → rc_env c = Some env →
        env = bs_env (snd (recipe_run os_impl exists_impl tmp_name r dirs logfp st)).
Proof.
  intros Hr.
  assert (H : env_settled (recipe_run os_impl exists_impl tmp_name r dirs logfp)).
  { destruct r; try done; simpl; unfold_recipes; settle. }
  destruct (H st) as (evs & E & F).
  exists evs. split; [exact E|].
  intros c env Hc He. rewrite Forall_forall in F.
  exact (F _ Hc env He).
Qed.
End LogAll.

Lemma recipes_settle_env_first_witness :
  ∃ evs,
    bs_trace (snd (recipe_run ok_os no_file tmp_x r_zeromq demo_dirs 3 recipe_state))
    = [] ++ evs
    ∧ ∀ c env,
        ERun c ∈ evs → rc_env c = Some env →
        env = bs_env (snd (recipe_run ok_os no_file tmp_x r_zeromq demo_dirs 3
                             recipe_state)).
Proof.
  apply (recipes_settle_env_first ok_os no_file tmp_x r_zeromq demo_dirs 3
           recipe_state).
  discriminate.
Defined.

(** ** The keys of [env] *)

Lemma ao_ret {A} (a : A) : adds_only (ret a).
Proof. by intros env k. Qed.

Lemma ao_lift {A} (r : exn + A) : adds_only (lift r).
Proof. intros env k. by destruct r. Qed.

Lemma ao_get : adds_only get.
Proof. by intros env k. Qed.

Lemma ao_env_get x : adds_only (env_get x).
Proof. intros env k. unfold env_get. by destruct (env !! x). Qed.

Lemma ao_env_get_default x d : adds_only (env_get_default x d).
Proof. by intros env k. Qed.

Lemma ao_env_set x v : adds_only (env_set x v).
Proof.
  intros env k H. unfold env_set, modify; simpl.
  destruct (decide (k = x)) as [->|Hne].
  - rewrite lookup_insert_eq. eauto.
  - by rewrite lookup_insert_ne.
Qed.

Lemma ao_bind {A B} (m : M Env A) (f : A → M Env B) :
  adds_only m → (∀ a, adds_only (f a)) → adds_only (bind m f).
Proof.
  intros Hm Hf env k H. unfold bind. specialize (Hm env k H).
  destruct (m env) as [[e|a] env']; simpl in *; [done|].
  by apply Hf.
Qed.

Ltac ao_step :=
  first
    [ apply ao_bind; [|intros ?]
    | apply ao_ret | apply ao_lift | apply ao_get
    | apply ao_env_get | apply ao_env_get_default | apply ao_env_set ].

Section KeyErrors.
Variable os_impl : list Event → Event → exn + unit.
Variable exists_impl : list Event → string → bool.
Variable tmp_name : list Event → string → string.

Lemma kk_ret {A} (a : A) : keeps_keys (ret a).
Proof. by intros st k. Qed.

Lemma kk_on_env {A} (m : M Env A) : adds_only m → keeps_keys (on_env m).
Proof.
  intros Hm st k H. unfold on_env. specialize (Hm (bs_env st) k H).
  by destruct (m (bs_env st)).
Qed.

Lemma kk_emit e : keeps_keys (emit os_impl e).
Proof. intros st k H. unfold emit. by destruct (os_impl _ _). Qed.

Lemma kk_path_exists p : keeps_keys (path_exists exists_impl p).
Proof. by intros st k. Qed.

Lemma kk_bind {A B} (m : M BState A) (f : A → M BState B) :
  keeps_keys m → (∀ a, keeps_keys (f a)) → keeps_keys (bind m f).
Proof.
  intros Hm Hf st k H. unfold bind. specialize (Hm st k H).
  destruct (m st) as [[e|a] st']; simpl in *; [done|].
  by apply Hf.
Qed.

Lemma kk_finally {A} (m : M BState A) (c : M BState unit) :
  keeps_keys m → keeps_keys c → keeps_keys (finally m c).
Proof.
  intros Hm Hc st k H. unfold finally. specialize (Hm st k H).
  destruct (m st) as [r st']; simpl in *.
  specialize (Hc st' k Hm).
  by destruct (c st') as [[e|u] st''].
Qed.

Lemma kk_with_tempfile {A} suffix (body : string → M BState A) :
  (∀ n, keeps_keys (body n)) →
  keeps_keys (with_tempfile os_impl tmp_name suffix body).
Proof.
  intros Hb. unfold with_tempfile.
  apply kk_bind; [by intros st k|]. intros n.
  apply kk_bind; [apply kk_emit|]. intros _.
  apply kk_finally; [apply Hb|apply kk_emit].
Qed.

Hypothesis os_ok : ∀ t e, os_impl t e = inr tt.
Variable K : list string.

Lemma ke_ret {A} (a : A) : key_errors_only K (ret a).
Proof. split; [apply kk_ret|]. by intros st e. Qed.

Lemma ke_bind {A B} (m : M BState A) (f : A → M BState B) :
  key_errors_only K m → (∀ a, key_errors_only K (f a)) →
  key_errors_only K (bind m f).
Proof.
  intros [Km Em] Hf. split.
  - apply kk_bind; [done|]. intros a. apply Hf.
  - intros st e. unfold bind.
    specialize (Km st). specialize (Em st).
    destruct (m st) as [[e'|a] st']; simpl in *.
    + intros [= ->]. by apply Em.
    + intros H. destruct (proj2 (Hf a) st' e H) as (k & -> & Hk & Hn).
      exists k. split; [done|]. split; [done|].
      destruct (bs_env st !! k) eqn:E; [|done].
      destruct (Km k) as [v Hv]; [eauto|]. congruence.
Qed.

Lemma ke_env_get k : k ∈ K → key_errors_only K (on_env (env_get k)).
Proof.
  intros Hk. split; [apply kk_on_env, ao_env_get|].
  intros st e. unfold on_env, env_get.
  destruct (bs_env st !! k) eqn:E; simpl; [done|].
  intros [= <-]. eauto.
Qed.

Lemma ke_quiet_env {A} (m : M Env A) :
  adds_only m → (∀ env e, fst (m env) ≠ inl e) →
  key_errors_only K (on_env m).
Proof.
  intros Hm Hr. split; [by apply kk_on_env|].
  intros st e. unfold on_env. specialize (Hr (bs_env st) e).
  destruct (m (bs_env st)) as [r env']; simpl in *. done.
Qed.

Lemma ke_emit e : key_errors_only K (emit os_impl e).
Proof.
  split; [apply kk_emit|].
  intros st x. unfold emit. by rewrite os_ok.
Qed.

Lemma ke_path_exists p : key_errors_only K (path_exists exists_impl p).
Proof. split; [apply kk_path_exists|]. by intros st e. Qed.

Lemma ke_with_tempfile suffix (body : string → M BState unit) :
  (∀ n, key_errors_only K (body n)) →
  key_errors_only K (with_tempfile os_impl tmp_name suffix body).
Proof.
  intros Hb. split.
  { apply kk_with_tempfile. intros n. apply Hb. }
  intros st e. unfold with_tempfile, bind, finally, emit; simpl.
  rewrite os_ok; simpl.
  match goal with
  | |- context [body ?n ?s] =>
      pose proof (proj2 (Hb n) s) as Hn; destruct (body n s) as [r s']
  end.
  simpl in *. rewrite os_ok; simpl. intros ->. by apply Hn.
Qed.
End KeyErrors.

Ltac kk_step :=
  first
    [ apply kk_with_tempfile; intros ?
    | apply kk_emit
    | apply kk_path_exists
    | apply kk_ret
    | apply kk_on_env; ao_step
    | apply kk_bind; [|intros ?]
    | match goal with
      | |- keeps_keys (if ?b then _ else _) => destruct b
      end ].

Ltac ke_step :=
  first
    [ apply ke_with_tempfile; [assumption|intros ?]
    | apply ke_emit; assumption
    | apply ke_path_exists
    | apply ke_ret
    | apply ke_env_get;
        repeat first [apply list_elem_of_here | apply list_elem_of_further]
    | apply ke_quiet_env; [ao_step | by intros ? ?]
    | apply ke_bind; [|intros ?]
    | match goal with
      | |- key_errors_only _ (if ?b then _ else _) => destruct b
      end ].

(** X12.  Nothing is ever removed from [env].  Whatever happens, a key
    that the mapping holds before a call of [populate_env] or of a build
    procedure is still held after it: these functions assign entries and
    never delete one. *)
Theorem recipes_never_remove_keys
    (os_impl : list Event → Event → exn + unit)
    (exists_impl : list Event → string → bool)
    (tmp_name : list Event → string → string)
    (dirs : Dirs) :
  (∀ env k, is_Some (env !! k) → is_Some (snd (populate_env dirs env) !! k))
  ∧ (∀ r logfp st k,
       is_Some (bs_env st !! k) →
       is_Some (bs_env (snd (recipe_run os_impl exists_impl tmp_name
                               r dirs logfp st)) !! k)).
Proof.
  split.
  - assert (H : adds_only (populate_env dirs))
      by (unfold populate_env; repeat ao_step).
    exact H.
  - intros r logfp.
    assert (H : keeps_keys (recipe_run os_impl exists_impl tmp_name r dirs logfp))
      by (destruct r; simpl; unfold_recipes; repeat kk_step).
    exact H.
Qed.

(** X13.  The keys a build procedure needs.  When every command and file
    operation succeeds, the only way a build procedure can fail is a
    [KeyError] for one of the keys it reads with [env[...]]
    ([recipe_reads]) that the caller's mapping does not hold; so a mapping
    that holds them all makes it return.  [CFLAGS] is needed by
    [build_zlib] and [build_python] only: the other procedures that extend
    it read it with [env.get]. *)
Theorem recipes_raise_key_errors
    (os_impl : list Event → Event → exn + unit)
    (exists_impl : list Event → string → bool)
    (tmp_name : list Event → string → string)
    (r : Recipe) (dirs : Dirs) (logfp : Handle) (st : BState) :
  (∀ t e, os_impl t e = inr tt) →
  (∀ e, fst (recipe_run os_impl exists_impl tmp_name r dirs logfp st) = inl e →
        ∃ k, e = KeyError k ∧ k ∈ recipe_reads r ∧ bs_env st !! k = None)
  ∧ ((∀ k, k ∈ recipe_reads r → is_Some (bs_env st !! k)) →
     fst (recipe_run os_impl exists_impl tmp_name r dirs logfp st) = inr tt).
Proof.
  intros Hos.
  assert (H : key_errors_only (recipe_reads r)
                (recipe_run os_impl exists_impl tmp_name r dirs logfp))
    by (destruct r; simpl; unfold_recipes; repeat ke_step).
  destruct H as [_ H]. split; [apply H|].
  intros Hk.
  destruct (fst (recipe_run os_impl exists_impl tmp_name r dirs logfp st))
    as [e|[]] eqn:E; [|done].
  destruct (H st e E) as (k & _ & Hin & Hn).
  destruct (Hk k Hin) as [v Hv]. congruence.
Qed.

Lemma recipes_raise_key_errors_witness :
  fst (recipe_run ok_os no_file tmp_x r_zeromq demo_dirs 3 recipe_state) = inr tt
  ∧ ∃ k, fst (recipe_run ok_os no_file tmp_x r_python demo_dirs 3 empty_state)
         = inl (KeyError k)
         ∧ k ∈ recipe_reads r_python.
Proof.
  split.
  - apply (recipes_raise_key_errors ok_os no_file tmp_x r_zeromq demo_dirs 3
             recipe_state).
    + reflexivity.
    + intros k Hk. simpl in Hk.
      repeat (apply elem_of_cons in Hk as [->|Hk]; [vm_compute; eauto|]).
      by apply elem_of_nil in Hk.
  - destruct (proj1 (recipes_raise_key_errors ok_os no_file tmp_x r_python
                       demo_dirs 3 empty_state (λ _ _, eq_refl))
                (KeyError "LDFLAGS")) as (k & Hk & Hin & _).
    + reflexivity.
    + exists k. split; [by rewrite <- Hk|done].
Defined.

(** ** Temporary files, and the entries the procedures assign *)

Section Balanced.
Variable os_impl : list Event → Event → exn + unit.
Variable exists_impl : list Event → string → bool.
Variable tmp_name : list Event → string → string.

Lemma opened_app t e1 e2 :
  opened os_impl t (e1 ++ e2)
  = opened os_impl t e1 + opened os_impl (t ++ e1) e2.
Proof.
  revert t. induction e1 as [|e e1 IH]; intros t; simpl.
  - by rewrite app_nil_r.
  - rewrite IH, <- app_assoc. simpl. lia.
Qed.

Lemma closed_app e1 e2 : closed (e1 ++ e2) = closed e1 + closed e2.
Proof. induction e1 as [|e e1 IH]; simpl; [done|]. rewrite IH. lia. Qed.

Lemma bal_ret {A} (a : A) : balanced os_impl (ret a).
Proof. intros st. exists []. by rewrite app_nil_r. Qed.

Lemma bal_on_env {A} (m : M Env A) : balanced os_impl (on_env m).
Proof.
  intros st. exists []. unfold on_env.
  destruct (m (bs_env st)); simpl. by rewrite app_nil_r.
Qed.

Lemma bal_bind {A B} (m : M BState A) (f : A → M BState B) :
  balanced os_impl m → (∀ a, balanced os_impl (f a)) →
  balanced os_impl (bind m f).
Proof.
  intros Hm Hf st. unfold bind.
  destruct (Hm st) as (e1 & E1 & F1).
  destruct (m st) as [[e|a] st']; simpl in *; [eauto|].
  destruct (Hf a st') as (e2 & E2 & F2).
  exists (e1 ++ e2). rewrite E2, E1, app_assoc. split; [done|].
  rewrite opened_app, closed_app, F1, <- E1, F2. done.
Qed.

(** An event that neither opens nor closes a temporary file. *)
Lemma bal_emit e :
  (∀ s, e ≠ ETempOpen s) → (∀ n, e ≠ ETempClose n) →
  balanced os_impl (emit os_impl e).
Proof.
  intros Ho Hc st. exists [e]. unfold emit.
  split; [by destruct (os_impl _ _)|].
  destruct e as [| | | |s| | |n|]; simpl; try done;
    [by destruct (Ho s)|by destruct (Hc n)].
Qed.

Lemma bal_path_exists p : balanced os_impl (path_exists exists_impl p).
Proof. intros st. by exists [EExists p]. Qed.

(** The [with] block: once the file is open it is closed, whatever the
    body does. *)
Lemma bal_with_tempfile {A} suffix (body : string → M BState A) :
  (∀ n, balanced os_impl (body n)) →
  balanced os_impl (with_tempfile os_impl tmp_name suffix body).
Proof.
  intros Hb st. unfold with_tempfile, bind, finally, emit; simpl.
  destruct (os_impl (bs_trace st) (ETempOpen suffix)) as [x|[]] eqn:Eo; simpl.
  - exists [ETempOpen suffix]. split; [done|]. simpl. by rewrite Eo.
  - match goal with
    | |- context [body ?n ?s] =>
        destruct (Hb n s) as (evs & E & F); destruct (body n s) as [r s']
    end.
    simpl in *.
    exists (ETempOpen suffix :: evs ++ [ETempClose (tmp_name (bs_trace st) suffix)]).
    split.
    + destruct (os_impl (bs_trace s') _) as [x|[]]; simpl;
        by rewrite E, <- !app_assoc.
    + simpl. rewrite Eo, opened_app, closed_app, F. simpl. lia.
Qed.

(** X14.  Temporary files are closed.  Whatever the commands and the file
    operations answer, a build procedure closes as many temporary files as
    it has opened: the patch file of [build_python] is closed when writing
    it, flushing it or the [patch] command fails, and is not closed only
    when it could not be opened. *)
Theorem recipes_close_tempfiles (r : Recipe) (dirs : Dirs) (logfp : Handle)
    (st : BState) :
  ∃ evs,
    bs_trace (snd (recipe_run os_impl exists_impl tmp_name r dirs logfp st))
    = bs_trace st ++ evs
    ∧ opened os_impl (bs_trace st) evs = closed evs.
Proof.
  assert (H : balanced os_impl
                (recipe_run os_impl exists_impl tmp_name r dirs logfp)).
  { destruct r; simpl; unfold_recipes;
      repeat first
        [ apply bal_with_tempfile; intros ?
        | apply bal_emit; [by intros ?|by intros ?]
        | apply bal_path_exists
        | apply bal_ret
        | apply bal_on_env
        | apply bal_bind; [|intros ?]
        | match goal with
          | |- balanced _ (if ?b then _ else _) => destruct b
          end ]. }
  exact (H st).
Qed.

(** X15.  What [build_krb] does to [env].  Whatever its commands answer,
    [build_krb] leaves the mapping as it found it when the build and host
    architectures are equal, and otherwise adds exactly the three
    [configure] cache variables of a cross build. *)
Theorem build_krb_env (dirs : Dirs) (logfp : Handle) (st : BState)
    (barch harch : string) :
  bs_env st !! "RELENV_BUILD_ARCH" = Some barch →
  bs_env st !! "RELENV_HOST_ARCH" = Some harch →
  bs_env (snd (build_krb os_impl dirs logfp st))
  = if String.eqb barch harch then bs_env st
    else <["ac_cv_printf_positional" := "yes"]>
           (<["ac_cv_func_regcomp" := "yes"]>
              (<["krb5_cv_attr_constructor_destructor" := "yes,yes"]>
                 (bs_env st))).
Proof.
  intros Hb Hh. unfold build_krb.
  rewrite (bind_run _ _ _ _ _ (on_env_get_run _ _ _ Hb)).
  rewrite (bind_run _ _ _ _ _ (on_env_get_run _ _ _ Hh)).
  destruct (String.eqb barch harch); cbn [negb].
  - rewrite (bind_run _ _ st tt st) by reflexivity.
    match goal with
    | |- bs_env (snd (?rest ?st1)) = _ =>
        assert (Hk : keeps [] rest) by keeps_auto
    end.
    apply map_eq. intros k. apply Hk. apply not_elem_of_nil.
  - erewrite bind_run; [|reflexivity].
    match goal with
    | |- bs_env (snd (?rest ?st1)) = _ =>
        assert (Hk : keeps [] rest) by keeps_auto
    end.
    apply map_eq. intros k. rewrite Hk by apply not_elem_of_nil.
    reflexivity.
Qed.

(** X16.  A missing [CFLAGS].  [build_zlib] reads [env["CFLAGS"]]: without
    the key it raises [KeyError] before any command is started and leaves
    the mapping untouched.  The seven procedures that read it with
    [env.get("CFLAGS", "")] do not fail on it: whatever their commands
    answer, they leave [CFLAGS] set to ["-fPIC "]. *)
Theorem cflags_default (dirs : Dirs) (logfp : Handle) (st : BState) :
  bs_env st !! "CFLAGS" = None →
  build_zlib os_impl dirs logfp st = (inl (KeyError "CFLAGS"), st)
  ∧ ∀ r, r ∈ fpic_recipes →
         bs_env (snd (recipe_run os_impl exists_impl tmp_name r dirs logfp st))
           !! "CFLAGS" = Some "-fPIC ".
Proof.
  intros Hc. split.
  - unfold build_zlib, bind, on_env, env_get. rewrite Hc. by destruct st.
  - intros r Hr. unfold fpic_recipes in Hr.
    repeat (apply elem_of_cons in Hr as [->|Hr];
      [cbn [recipe_run];
       unfold build_sasl, build_libyaml, build_libsodium, build_libmd,
         build_libbsd, build_zeromq, build_openldap;
       rewrite (bind_run _ _ _ _ _ (set_fpic_cflags_run _));
       match goal with
       | |- bs_env (snd (?rest ?st1)) !! _ = _ =>
           assert (Hk : keeps ["LDFLAGS"; "CPPFLAGS"; "PKG_CONFIG_PATH";
                               "LD_LIBRARY_PATH"] rest)
             by (unfold configure_libdir; keeps_auto);
           rewrite (Hk st1 "CFLAGS") by absent
       end;
       cbn [bs_env]; rewrite lookup_insert_eq, Hc; reflexivity|]).
    by apply elem_of_nil in Hr.
Qed.

(** A step that leaves [env] alone, inside a run that returns. *)
Lemma bind_keeps_inr {A B} (m : M BState A) (f : A → M BState B) st b st2 :
  keeps [] m →
  bind m f st = (inr b, st2) →
  ∃ a st1, bs_env st1 = bs_env st ∧ f a st1 = (inr b, st2).
Proof.
  intros Hk H. apply bind_inr in H as (a & st1 & H1 & H2).
  exists a, st1. split; [|done].
  apply map_eq. intros k.
  pose proof (Hk st k (not_elem_of_nil k)) as E. by rewrite H1 in E.
Qed.

Lemma keeps_inr {A} (m : M BState A) st a st1 :
  keeps [] m → m st = (inr a, st1) → bs_env st1 = bs_env st.
Proof.
  intros Hk H. apply map_eq. intros k.
  pose proof (Hk st k (not_elem_of_nil k)) as E. by rewrite H in E.
Qed.

(** X17.  What [build_python] does to [env].  When [build_python] returns,
    the mapping is the caller's with four entries assigned: [LDFLAGS] with
    the run-time search path of the prefix in front of its old value,
    [OPENSSL_CFLAGS] and [OPENSSL_LDFLAGS] pointing into the prefix, and
    [CFLAGS] with [-Wno-coverage-mismatch] in front of its old value. *)
Theorem build_python_env (dirs : Dirs) (logfp : Handle) (st : BState)
    (l c : string) :
  bs_env st !! "LDFLAGS" = Some l →
  bs_env st !! "CFLAGS" = Some c →
  fst (build_python os_impl exists_impl tmp_name dirs logfp st) = inr tt →
  bs_env (snd (build_python os_impl exists_impl tmp_name dirs logfp st))
  = <["CFLAGS" := "-Wno-coverage-mismatch " +:+ c]>
      (<["OPENSSL_LDFLAGS" := "-L" +:+ prefix dirs +:+ "/lib"]>
         (<["OPENSSL_CFLAGS" :=
              "-I" +:+ prefix dirs +:+ "/include  -Wno-coverage-mismatch"]>
            (<["LDFLAGS" := "-Wl,--rpath=" +:+ prefix dirs +:+ "/lib " +:+ l]>
               (bs_env st)))).
Proof.
  intros Hl Hc.
  destruct (build_python os_impl exists_impl tmp_name dirs logfp st)
    as [r st'] eqn:H.
  cbn [fst snd]. intros ->.
  unfold build_python in H.
  rewrite (bind_run _ _ _ _ _ (on_env_get_run _ _ _ Hl)) in H.
  rewrite (bind_run _ _ _ _ _ (on_env_set_run _ _ _)) in H.
  apply bind_keeps_inr in H as (_ & s1 & E1 & H); [|by keeps_auto].
  apply bind_keeps_inr in H as (_ & s2 & E2 & H); [|by keeps_auto].
  apply bind_keeps_inr in H as (has & s3 & E3 & H); [|by keeps_auto].
  apply bind_keeps_inr in H as (_ & s4 & E4 & H);
    [|destruct has; by keeps_auto].
  rewrite (bind_run _ _ _ _ _ (on_env_set_run _ _ _)) in H.
  rewrite (bind_run _ _ _ _ _ (on_env_set_run _ _ _)) in H.
  assert (E : bs_env s4
              = <["LDFLAGS" := "-Wl,--rpath=" +:+ prefix dirs +:+ "/lib " +:+ l]>
                  (bs_env st))
    by (by rewrite E4, E3, E2, E1).
  erewrite bind_run in H;
    [|apply on_env_get_run; cbn [bs_env];
      rewrite !lookup_insert_ne by discriminate;
      rewrite E, lookup_insert_ne by discriminate; exact Hc].
  rewrite (bind_run _ _ _ _ _ (on_env_set_run _ _ _)) in H.
  apply keeps_inr in H; [|by keeps_auto].
  rewrite H. cbn [bs_env]. by rewrite E.
Qed.
End Balanced.

Lemma build_krb_env_witness :
  bs_env (snd (build_krb ok_os demo_dirs 3 recipe_state)) = recipe_env.
Proof.
  rewrite (build_krb_env ok_os demo_dirs 3 recipe_state "x86_64" "x86_64");
    reflexivity.
Defined.

Lemma cflags_default_witness :
  build_zlib ok_os demo_dirs 3 empty_state = (inl (KeyError "CFLAGS"), empty_state)
  ∧ bs_env (snd (recipe_run ok_os no_file tmp_x r_sasl demo_dirs 3 empty_state))
      !! "CFLAGS" = Some "-fPIC ".
Proof.
  destruct (cflags_default ok_os no_file tmp_x demo_dirs 3 empty_state)
    as [Hz Hr].
  - reflexivity.
  - split; [exact Hz|]. apply Hr.
    unfold fpic_recipes. apply list_elem_of_here.
Defined.

Lemma build_python_env_witness :
  bs_env (snd (build_python ok_os no_file tmp_x demo_dirs 3 recipe_state))
    !! "CFLAGS" = Some ("-Wno-coverage-mismatch " +:+ "-g").
Proof.
  rewrite (build_python_env ok_os no_file tmp_x demo_dirs 3 recipe_state
             "-L/p/lib" "-g"); reflexivity.
Defined.

(** ** [buildenv] and [populate_env] side by side *)

Section Compilers.
Variable wd : Sys → exn + WorkDirs.
Variable gt : Sys → exn + string.
Variable mac : string.

(** What a returning [buildenv] returns. *)
Lemma buildenv_returns_dict sys arg calls benv d t :
  fst (buildenv wd gt mac sys arg calls) = inr benv →
  wd sys = inr d →
  gt sys = inr t →
  ∃ rp, benv = buildenv_dict sys (path_join (wd_toolchain d) t) t rp.
Proof.
  intros H Hd Ht. revert H.
  unfold buildenv, bind, is_relenv, work_dirs, get_triplet, log_call,
    modify, ret, raise, lift.
  cbn -[buildenv_dict path_join].
  rewrite Hd, Ht.
  destruct (truthy arg); cbn -[buildenv_dict path_join].
  - destruct (sys_platform sys =? "linux") eqn:Hp;
      cbn -[buildenv_dict path_join]; [|discriminate].
    destruct (sys_platform sys =? "darwin") eqn:Hq.
    + apply String.eqb_eq in Hp, Hq. congruence.
    + intros [= <-]. eauto.
  - destruct (sys_RELENV sys) as [p|]; cbn -[buildenv_dict path_join];
      [|discriminate].
    destruct (sys_platform sys =? "linux") eqn:Hp;
      cbn -[buildenv_dict path_join]; [|discriminate].
    destruct (sys_platform sys =? "darwin") eqn:Hq.
    + apply String.eqb_eq in Hp, Hq. congruence.
    + intros [= <-]. eauto.
Qed.

Lemma buildenv_dict_cc sys tc t rp :
  buildenv_dict sys tc t rp !! "CC" = Some (tc +:+ "/bin/" +:+ t +:+ "-gcc -no-pie")
  ∧ buildenv_dict sys tc t rp !! "CXX"
    = Some (tc +:+ "/bin/" +:+ t +:+ "-g++ -no-pie").
Proof.
  unfold buildenv_dict. split;
    repeat (rewrite lookup_insert_ne; [|discriminate]);
    apply lookup_insert_eq.
Qed.

(** [populate_env] assigns [CC] and [CXX] first, and only once. *)
Lemma populate_env_compilers dirs (env : Env) host :
  env !! "RELENV_HOST" = Some host →
  snd (populate_env dirs env) !! "CC"
  = Some (toolchain dirs +:+ "/bin/" +:+ host +:+ "-gcc -no-pie")
  ∧ snd (populate_env dirs env) !! "CXX"
    = Some (toolchain dirs +:+ "/bin/" +:+ host +:+ "-g++ -no-pie").
Proof.
  intros Hh. unfold populate_env.
  rewrite (run_env_get _ host) by done.
  rewrite run_lift, format_cc, run_env_set.
  rewrite (run_env_get _ host) by (by rewrite lookup_insert_ne).
  rewrite run_lift, format_cxx, run_env_set.
  match goal with
  | |- snd (?rest ?e) !! _ = _ ∧ _ =>
      assert (Hw : writes_only ["PATH"; "LDFLAGS"; "CFLAGS"; "CPPFLAGS";
                                "CXXFLAGS"; "LD_LIBRARY_PATH"; "PKG_CONFIG_PATH"]
                     rest)
        by repeat wo_step
  end.
  split; rewrite Hw by absent.
  - rewrite lookup_insert_ne by done. apply lookup_insert_eq.
  - apply lookup_insert_eq.
Qed.

(** X18.  The compilers that [relenv buildenv] exports are those of the
    build.  When [buildenv] returns, its [CC] and [CXX] entries are the
    ones [populate_env] assigns (whether or not it then returns) for a
    build whose toolchain directory is the one [buildenv] computes,
    [work_dirs().toolchain / get_triplet()], and whose [RELENV_HOST] is
    the triplet. *)
Theorem buildenv_compilers_match (sys : Sys) (arg : PyArg) (calls : list Call)
    (benv : gmap string string) (d : WorkDirs) (t : string)
    (dirs : Dirs) (env : Env) :
  fst (buildenv wd gt mac sys arg calls) = inr benv →
  wd sys = inr d →
  gt sys = inr t →
  toolchain dirs = path_join (wd_toolchain d) t →
  env !! "RELENV_HOST" = Some t →
  snd (populate_env dirs env) !! "CC" = benv !! "CC"
  ∧ snd (populate_env dirs env) !! "CXX" = benv !! "CXX"
  ∧ is_Some (benv !! "CC") ∧ is_Some (benv !! "CXX").
Proof.
  intros Hb Hd Ht Htc Hh.
  destruct (buildenv_returns_dict _ _ _ _ _ _ Hb Hd Ht) as [rp ->].
  destruct (populate_env_compilers dirs env t Hh) as [Hcc Hcxx].
  destruct (buildenv_dict_cc sys (path_join (wd_toolchain d) t) t rp)
    as [Bcc Bcxx].
  rewrite Hcc, Hcxx, Bcc, Bcxx, Htc. eauto.
Qed.
End Compilers.

Lemma buildenv_compilers_match_witness :
  ∃ benv,
    fst (buildenv sample_work_dirs sample_triplet "10.15" linux_sys PyNone [])
    = inr benv
    ∧ snd (populate_env triplet_dirs demo_env) !! "CC" = benv !! "CC"
    ∧ snd (populate_env triplet_dirs demo_env) !! "CXX" = benv !! "CXX".
Proof.
  exists (buildenv_dict linux_sys
            "/root/.local/relenv/toolchain/x86_64-linux-gnu"
            "x86_64-linux-gnu" "/opt/relenv").
  split; [reflexivity|].
  destruct (buildenv_compilers_match sample_work_dirs sample_triplet "10.15"
              linux_sys PyNone []
              (buildenv_dict linux_sys
                 "/root/.local/relenv/toolchain/x86_64-linux-gnu"
                 "x86_64-linux-gnu" "/opt/relenv")
              {| wd_toolchain := "/root/.local/relenv/toolchain" |}
              "x86_64-linux-gnu" triplet_dirs demo_env)
    as (Hcc & Hcxx & _); try reflexivity.
  split; [exact Hcc | exact Hcxx].
Defined.

(** ** The step that ends a build *)

Lemma lookup_step_elem n steps s :
  lookup_step n steps = Some s → s ∈ steps ∧ name s = n.
Proof.
  induction steps as [|x steps IH]; simpl; [discriminate|].
  destruct (String.eqb (name x) n) eqn:E.
  - apply String.eqb_eq in E. intros [= <-]. split; [apply list_elem_of_here|done].
  - intros H. destruct (IH H) as [Hin Hn]. split; [|done].
    by apply list_elem_of_further.
Qed.

Lemma waits_closure_sound g fuel n m :
  m ∈ waits_closure g fuel n → tc (edge g) n m.
Proof.
  revert n. induction fuel as [|fuel IH]; intros n; simpl.
  - intros H. by apply elem_of_nil in H.
  - destruct (find_step g n) as [s|] eqn:Hs.
    + apply lookup_step_elem in Hs as [Hin Hn].
      intros H. apply elem_of_app in H as [H|H].
      * apply tc_once. by exists s.
      * apply list_elem_of_In, in_flat_map in H as (d & Hd & H).
        apply list_elem_of_In in Hd, H.
        eapply tc_l; [by exists s|]. by apply IH.
    + intros H. by apply elem_of_nil in H.
Qed.

Lemma finalize_last_spec g :
  finalize_last g = true →
  finalize_step ∈ step_names g
  ∧ (∀ n, n ∈ step_names g → n ≠ finalize_step → tc (edge g) finalize_step n)
  ∧ (∀ n, ¬ edge g n finalize_step).
Proof.
  unfold finalize_last. intros H.
  apply andb_true_iff in H as [H1 H2].
  apply andb_true_iff in H1 as [H0 H1].
  apply bool_decide_eq_true in H0.
  rewrite forallb_forall in H1. rewrite forallb_forall in H2.
  split; [done|]. split.
  - intros n Hn Hne. apply list_elem_of_In in Hn.
    specialize (H1 n Hn). apply orb_true_iff in H1 as [H1|H1].
    + by apply String.eqb_eq in H1.
    + apply bool_decide_eq_true in H1. by eapply waits_closure_sound.
  - intros n (s & Hs & _ & Hw). apply list_elem_of_In in Hs.
    specialize (H2 s Hs). apply negb_true_iff, bool_decide_eq_false in H2.
    contradiction.
Qed.

(** X19.  [relenv-finalize] comes last.  In each of the four graphs that
    [linux.py] registers (the [build.add] calls read as in C3), there is a
    step [relenv-finalize]; it waits, directly or through other steps, on
    every other step of the graph; and no step waits on it. *)
Theorem linux_finalize_last :
  Forall (λ b, ∃ g, graph_of loaded b = Some g
                    ∧ finalize_step ∈ step_names g
                    ∧ (∀ n, n ∈ step_names g → n ≠ finalize_step →
                            tc (edge g) finalize_step n)
                    ∧ (∀ n, ¬ edge g n finalize_step))
         (variants loaded "linux").
Proof.
  rewrite loaded_variants.
  repeat (apply Forall_cons; split;
          [eexists; split; [vm_compute; reflexivity|];
           apply finalize_last_spec; vm_compute; reflexivity|]).
  constructor.
Qed.
